(** * Panel UI for an image-editing host: stores, menu bar, layer actions,
      carousel and responsive theme.

    A shallow embedding of the JavaScript (and LESS) sources:
    - [Theme]       the html font-size media queries of the LESS theme;
    - [Carousel]    the navigation state of the Carousel component;
    - [BoundsStore] the Fluxxor store caching layer bounds;
    - [Layers]      the layer action commands (js/actions/layers.js), as
                    traces of the effects they issue;
    - [MenuBar]     the menu bar model (js/models/menubar.js).
    The definitions come first; the facts about each module follow in a
    module of the same name with the suffix [Facts].

    JavaScript numbers that hold identifiers, indices and pixel widths are
    integers here ([Z] or [nat]); objects used as dictionaries are finite
    maps; object literals are association lists in the order of the source. *)

From Stdlib Require Import Ascii.
From stdpp Require Import base numbers option list strings gmap fin_maps pretty.

Local Open Scope Z_scope.

(* ===================================================================== *)
(** ** Responsive root font size (LESS theme) *)
(* ===================================================================== *)

Module Theme.

(** Font sizes are percentages with one decimal; they are kept in tenths
    of a percent, so [@base-9: 56.3%] is [563]. *)
Definition base_8 : Z := 500.
Definition base_9 : Z := 563.
Definition base_10 : Z := 625.
Definition base_11 : Z := 688.
Definition base_12 : Z := 750.

(** One [@media (-webkit-min-device-pixel-ratio: r) and (min-device-width: a)
    and (max-device-width: b) { html { font-size: s; } }] block. *)
Record MediaRule := {
  min_device_pixel_ratio : Z;
  min_device_width : Z;
  max_device_width : option Z;
  font_size : Z
}.

Definition matches (q : MediaRule) (ratio width : Z) : bool :=
  (min_device_pixel_ratio q <=? ratio)
  && (min_device_width q <=? width)
  && match max_device_width q with
     | Some m => width <=? m
     | None => true
     end.

(** The nine blocks, in the order of the style sheet. *)
Definition html_rules : list MediaRule :=
  [ (* Standard def displays *)
    {| min_device_pixel_ratio := 1; min_device_width := 801;
       max_device_width := Some 1280; font_size := base_8 |};
    {| min_device_pixel_ratio := 1; min_device_width := 1281;
       max_device_width := Some 1440; font_size := base_8 |};
    {| min_device_pixel_ratio := 1; min_device_width := 1441;
       max_device_width := Some 1680; font_size := base_10 |};
    {| min_device_pixel_ratio := 1; min_device_width := 1681;
       max_device_width := None; font_size := base_10 |};
    (* Retina displays *)
    {| min_device_pixel_ratio := 2; min_device_width := 801;
       max_device_width := Some 1280; font_size := base_8 |};
    {| min_device_pixel_ratio := 2; min_device_width := 1281;
       max_device_width := Some 1440; font_size := base_8 |};
    {| min_device_pixel_ratio := 2; min_device_width := 1441;
       max_device_width := Some 1680; font_size := base_9 |};
    {| min_device_pixel_ratio := 2; min_device_width := 1681;
       max_device_width := Some 2560; font_size := base_10 |};
    {| min_device_pixel_ratio := 2; min_device_width := 2561;
       max_device_width := None; font_size := base_11 |} ].

(** The cascade: all selectors are [html], so of the declarations that
    apply the last one in the sheet wins. *)
Definition cascade (rules : list MediaRule) (initial ratio width : Z) : Z :=
  fold_left (fun size q => if matches q ratio width then font_size q else size)
            rules initial.

(** [html { font-size: @base-10; }] comes first in the sheet and carries no
    condition. *)
Definition html_font_size (ratio width : Z) : Z :=
  cascade html_rules base_10 ratio width.

End Theme.

(* ===================================================================== *)
(** ** Carousel navigation *)
(* ===================================================================== *)

Module Carousel.

Inductive Direction := forward | backward.

Record Props (Item : Type) := {
  items : list Item;
  wrapNavigation : bool
}.
Arguments items {Item} _.
Arguments wrapNavigation {Item} _.

Record State := {
  index : Z;
  direction : Direction
}.

Definition getInitialState : State :=
  {| index := 0; direction := forward |}.

(** [setState] with the new index and the direction of travel; the
    [event.stopPropagation()] call does not touch the component state. *)
Definition _gotoItem (st : State) (i : Z) : State :=
  {| index := i;
     direction := if index st >? i then backward else forward |}.

Section Navigation.
Context {Item : Type} (props : Props Item).

Definition length : Z := Z.of_nat (List.length (items props)).

(** JavaScript's [%] truncates towards zero: [Z.rem]. *)
Definition _nextItem (st : State) : State :=
  let nextIndex :=
    if wrapNavigation props
    then Z.rem (index st + 1) length
    else Z.min (index st + 1) (length - 1) in
  _gotoItem st nextIndex.

Definition _prevItem (st : State) : State :=
  let prevIndex := index st - 1 in
  let prevIndex :=
    if wrapNavigation props && (prevIndex <? 0)
    then length + prevIndex
    else Z.max prevIndex 0 in
  _gotoItem st prevIndex.

(** The index designates one of the items. *)
Definition in_range (st : State) : Prop := 0 <= index st < length.

End Navigation.

(** Three items, wrapping navigation. *)
Definition sample_props : Props string :=
  {| items := ["a"; "b"; "c"]%string; wrapNavigation := true |}.

End Carousel.

(* ===================================================================== *)
(** ** JavaScript outcomes *)
(* ===================================================================== *)

(** A call either returns a value or throws.  [TypeError] is a property
    access on [undefined] or [null]; [RangeError] is the exhausted call
    stack. *)
Inductive result (A : Type) :=
  | Ok (a : A)
  | TypeError
  | RangeError
  | ErrorThrown (message : string).
Arguments Ok {A} a.
Arguments TypeError {A}.
Arguments RangeError {A}.
Arguments ErrorThrown {A} message.

(** Sequencing: a throw aborts what follows.  With this instance
    [x ← r; k] runs [k] on the value [r] returned. *)
#[global] Instance result_bind : MBind result :=
  fun A B (k : A -> result B) (r : result A) =>
    match r with
    | Ok a => k a
    | TypeError => TypeError
    | RangeError => RangeError
    | ErrorThrown message => ErrorThrown message
    end.

Definition is_Ok {A : Type} (r : result A) : Prop :=
  match r with Ok _ => True | _ => False end.

(* ===================================================================== *)
(** ** Bounds store *)
(* ===================================================================== *)

Module BoundsStore.

(** A layer descriptor of the payload: its [layerID] and the rest of its
    properties, which only the [Bounds] constructor reads. *)
Record LayerObj (Raw : Type) := {
  layerID : Z;
  properties : Raw
}.
Arguments layerID {Raw} _.
Arguments properties {Raw} _.

Record RawDocument := { documentID : Z }.

Record DocObj (Raw : Type) := {
  document : RawDocument;
  layers : list (LayerObj Raw)
}.
Arguments document {Raw} _.
Arguments layers {Raw} _.

Record Payload (Raw : Type) := { documents : list (DocObj Raw) }.
Arguments documents {Raw} _.

(** The actions the store has a handler for.  [initialize] also binds
    CURRENT_DOCUMENT_UPDATED, to [this._updateDocumentLayers], a method the
    store does not define; that binding is left out. *)
Inductive Event (Raw : Type) :=
  | DOCUMENT_UPDATED (payload : Payload Raw)
  | RESET_DOCUMENTS (payload : Payload Raw).
Arguments DOCUMENT_UPDATED {Raw} _.
Arguments RESET_DOCUMENTS {Raw} _.

Definition payload_of {Raw : Type} (ev : Event Raw) : Payload Raw :=
  match ev with
  | DOCUMENT_UPDATED p => p
  | RESET_DOCUMENTS p => p
  end.

(** The two dictionaries of the store, keyed by the numeric IDs, and the
    events emitted so far. *)
Record Store (Bounds : Type) := {
  _layerBounds : gmap Z (gmap Z Bounds);
  _documentBounds : gmap Z Bounds;
  emitted : list string
}.
Arguments _layerBounds {Bounds} _.
Arguments _documentBounds {Bounds} _.
Arguments emitted {Bounds} _.

Section Store.
(** [Bounds] is the model of js/models/bounds and [newBounds] its
    constructor, [new Bounds(layerObj)]. *)
Context {Raw Bounds : Type} (newBounds : LayerObj Raw -> Bounds).

Definition initialize : Store Bounds :=
  {| _layerBounds := ∅; _documentBounds := ∅; emitted := [] |}.

(** [this._documentBounds[documentID]]; [None] is [undefined]. *)
Definition getDocumentBounds (st : Store Bounds) (docID : Z) : option Bounds :=
  _documentBounds st !! docID.

(** [this._layerBounds[documentID][layerID]]: indexing [undefined]
    throws. *)
Definition getLayerBounds (st : Store Bounds) (docID lID : Z)
  : result (option Bounds) :=
  match _layerBounds st !! docID with
  | None => TypeError
  | Some boundsMap => Ok (boundsMap !! lID)
  end.

(** The [reduce] over the layer array, from the empty object. *)
Definition layerBoundsMap (layerArray : list (LayerObj Raw)) : gmap Z Bounds :=
  fold_left (fun boundsMap layerObj =>
               <[layerID layerObj := newBounds layerObj]> boundsMap)
            layerArray ∅.

Definition _resetDocumentLayerBounds (st : Store Bounds) (payload : Payload Raw)
  : Store Bounds :=
  {| _layerBounds :=
       fold_left (fun lb docObj =>
                    <[documentID (document docObj) := layerBoundsMap (layers docObj)]> lb)
                 (documents payload) (_layerBounds st);
     _documentBounds := _documentBounds st;
     emitted := emitted st ++ ["change"%string] |}.

Definition handle (st : Store Bounds) (ev : Event Raw) : Store Bounds :=
  match ev with
  | DOCUMENT_UPDATED p => _resetDocumentLayerBounds st p
  | RESET_DOCUMENTS p => _resetDocumentLayerBounds st p
  end.

(** The store after the dispatcher delivered [evs], oldest first. *)
Definition run (evs : list (Event Raw)) : Store Bounds :=
  fold_left handle evs initialize.

Definition documentIDs (p : Payload Raw) : list Z :=
  map (fun docObj => documentID (document docObj)) (documents p).

Definition layerIDs (docObj : DocObj Raw) : list Z :=
  map layerID (layers docObj).

(** [docID] appeared in the payload of one of the events. *)
Definition processed (docID : Z) (evs : list (Event Raw)) : Prop :=
  exists ev, ev ∈ evs /\ docID ∈ documentIDs (payload_of ev).

End Store.

(** A payload with one document, 1, of two layers, 7 and 8; the Bounds of
    a layer stands for its descriptor. *)
Definition sample_event : Event unit :=
  DOCUMENT_UPDATED
    {| documents :=
         [ {| document := {| documentID := 1 |};
              layers := [ {| layerID := 7; properties := () |};
                          {| layerID := 8; properties := () |} ] |} ] |}.

(** A payload in which the document 1 comes with two layer descriptors of
    the same ID, 7: the Bounds tells them apart. *)
Definition repeated_event : Event bool :=
  DOCUMENT_UPDATED
    {| documents :=
         [ {| document := {| documentID := 1 |};
              layers := [ {| layerID := 7; properties := false |};
                          {| layerID := 7; properties := true |} ] |} ] |}.

End BoundsStore.

(* ===================================================================== *)
(** ** JavaScript values *)
(* ===================================================================== *)

(** The values that travel in payloads, host descriptors and the menu JSON.
    An object is the list of its own enumerable properties in enumeration
    order. *)
#[local] Set Warnings "-register-all".
Inductive Value :=
  | VUndefined
  | VNull
  | VBool (b : bool)
  | VNum (n : Z)
  | VStr (s : string)
  | VArr (elements : list Value)
  | VObj (props : list (string * Value)).
#[local] Set Warnings "register-all".

Fixpoint assoc {A : Type} (k : string) (ps : list (string * A)) : option A :=
  match ps with
  | [] => None
  | (k', v) :: ps => if decide (k' = k) then Some v else assoc k ps
  end.

(** [v.hasOwnProperty(k)] for the property names the sources ask about
    (none is an index or "length", which arrays and strings own); on
    [undefined] or [null] the method call throws. *)
Definition hasOwnProperty (v : Value) (k : string) : result bool :=
  match v with
  | VUndefined | VNull => TypeError
  | VObj ps => Ok (bool_decide (is_Some (assoc k ps)))
  | _ => Ok false
  end.

(** [v.k] (or [v[k]]), for the same property names: reading a property of
    [undefined] or [null] throws, an absent property reads as [undefined]. *)
Definition get (v : Value) (k : string) : result Value :=
  match v with
  | VUndefined | VNull => TypeError
  | VObj ps => Ok (default VUndefined (assoc k ps))
  | _ => Ok VUndefined
  end.

(* ===================================================================== *)
(** ** Collections as lodash walks them *)
(* ===================================================================== *)

(** What a callback of lodash gets as the key of an element, and what keys
    a [Map]: a property name, or a number where the elements are walked by
    index. *)
Inductive Key :=
  | KStr (s : string)
  | KNum (n : nat).

#[global] Instance Key_eq_dec : EqDecision Key.
Proof. solve_decision. Defined.

#[global] Instance Key_countable : Countable Key.
Proof.
  refine (inj_countable'
            (fun k => match k with KStr s => inl s | KNum n => inr n end)
            (fun x => match x with inl s => KStr s | inr n => KNum n end) _).
  by intros [].
Defined.

(** A key inside a string concatenation: an index reads in decimal. *)
Definition key_string (k : Key) : string :=
  match k with
  | KStr s => s
  | KNum n => pretty n
  end.

Definition MAX_SAFE_INTEGER : Z := 9007199254740991.

(** [isLength(value)] of lodash 3: a number that is a whole, non-negative
    and at most [MAX_SAFE_INTEGER]; the numbers of [Value] are whole. *)
Definition isLength (value : Value) : option nat :=
  match value with
  | VNum n =>
      if (0 <=? n) && (n <=? MAX_SAFE_INTEGER) then Some (Z.to_nat n) else None
  | _ => None
  end.

(** The elements lodash 3 walks in [_.forEach] and [_.map], with their
    keys.  An array is walked by index, and so is whatever has a [length]
    that [isLength] accepts: a string, by its characters, and an object
    that owns such a "length", by the properties named 0 to length - 1,
    [undefined] where it has none.  Any other object is walked by its own
    properties, and the other values have no elements. *)
Definition each (collection : Value) : list (Key * Value) :=
  match collection with
  | VArr xs => imap (fun i x => (KNum i, x)) xs
  | VStr s =>
      imap (fun i c => (KNum i, VStr (String c EmptyString)))
           (String.list_ascii_of_string s)
  | VObj ps =>
      match isLength (default VUndefined (assoc "length" ps)) with
      | Some n =>
          map (fun i => (KNum i, default VUndefined (assoc (pretty i) ps))) (seq 0 n)
      | None => map (fun p : string * Value => (KStr p.1, p.2)) ps
      end
  | _ => []
  end.

(* ===================================================================== *)
(** ** Layer actions *)
(* ===================================================================== *)

Module Layers.

(** *** Models the commands read *)

Record Layer := {
  layer_id : Z;
  isBackground : bool
}.

(** The layer structure of a document, with the derived collections the
    commands consult. *)
Record LayerStructure := {
  all : list Layer;
  selected : list Layer;
  allSelected : list Layer;
  selectedLayersDeletable : bool
}.

Record Document := {
  document_id : Z;
  layers : LayerStructure
}.

(** An optional [document] parameter: left out, [null], or given. *)
Inductive DocumentArg :=
  | Omitted
  | Null
  | Given (document : Document).

(** *** The host adapter: references and play objects

    [adapter/lib/document] and [adapter/lib/layer] build the descriptors
    handed to the host; they are kept as the calls that build them. *)

Inductive Reference :=
  | documentLib_referenceBy_id (id : Z)
  | layerLib_referenceBy_id (id : Z)
  | layerLib_referenceBy_current.

Inductive PlayObject :=
  | layerLib_select (ref : list Reference) (makeVisible : bool) (modifier : option string)
  | layerLib_rename (ref : list Reference) (name : string)
  | layerLib_deselectAll
  | layerLib_delete (ref : Reference)
  | layerLib_groupSelected
  | layerLib_show (ref : list Reference)
  | layerLib_hide (ref : list Reference)
  | layerLib_unlockBackground (id : Z)
  | layerLib_setLocking (ref : list Reference) (locked : bool).

(** [events.document.*] *)
Inductive EventName :=
  | SELECT_LAYERS_BY_ID
  | SELECT_LAYERS_BY_INDEX
  | RENAME_LAYER
  | DELETE_SELECTED
  | GROUP_SELECTED
  | VISIBILITY_CHANGED
  | LOCK_CHANGED.

(** A payload object literal, properties in the order they are written. *)
Definition Payload := list (string * Value).

(** Entries of the localized string table, [strings.ACTIONS.*]. *)
Inductive ActionString := DELETE_LAYERS.

Record HistoryStateInfo := {
  name : ActionString;
  target : Reference
}.

Record Options := { historyStateInfo : HistoryStateInfo }.

(** *** Effects

    What a command does to the outside, in the order the program issues
    it.  [NextTickDispatch] is [process.nextTick] scheduling a dispatch;
    [Dispatch] is a dispatch made inside a [then] callback. *)
Inductive Effect :=
  | NextTickDispatch (ev : EventName) (payload : Payload)
  | Dispatch (ev : EventName) (payload : Payload)
  | PlayObjectCall (obj : PlayObject)
  | GetPropertyCall (ref : Reference) (property : string)
  | PlayWithLockOverride (document : Document) (lyrs : list Layer)
                         (obj : PlayObject) (options : Options) (flag : bool)
  | TransferUpdateDocument (documentID : Z).

(** Answers of the collaborators whose code is elsewhere: the host
    ([descriptor.playObject], [descriptor.getProperty]),
    [locking.playWithLockOverride] and the [documents.updateDocument]
    action.  [None] is a rejected promise. *)
Record Environment := {
  playObject : PlayObject -> option Value;
  getProperty : Reference -> string -> option Value;
  playWithLockOverride :
    Document -> list Layer -> PlayObject -> Options -> bool -> option Value;
  updateDocument : Z -> option Value;
  (** [this.flux.store("application").getCurrentDocument()] *)
  getCurrentDocument : option Document
}.

(** *** Promises as traces

    A promise is the effects issued until it settles and the value it
    resolves with ([None]: rejected). *)
Definition Promise : Type := list Effect * option Value.

Definition Promise_resolve : Promise := ([], Some VUndefined).

Definition then_ (p : Promise) (callback : Value -> Promise) : Promise :=
  match p with
  | (es, Some v) => let '(es', r) := callback v in (es ++ es', r)
  | (es, None) => (es, None)
  end.

(** Effects issued synchronously before the promise is made. *)
Definition after (es : list Effect) (p : Promise) : Promise :=
  (es ++ p.1, p.2).

Definition effects (p : Promise) : list Effect := p.1.

(** [collection.pluck(layers, "id")] *)
Definition pluck_id (lyrs : list Layer) : Value :=
  VArr (map (fun layer => VNum (layer_id layer)) lyrs).

(** [_.pluck(v, k)] on what the host returned: the property [k] of every
    element lodash walks, [undefined] for an element that is [undefined] or
    [null]. *)
Definition pluck (v : Value) (k : string) : Value :=
  VArr (map (fun entry : Key * Value =>
               match get entry.2 k with Ok y => y | _ => VUndefined end)
            (each v)).

Section Commands.
Context (env : Environment).

Definition descriptor_playObject (obj : PlayObject) : Promise :=
  ([PlayObjectCall obj], playObject env obj).

Definition descriptor_getProperty (ref : Reference) (k : string) : Promise :=
  ([GetPropertyCall ref k], getProperty env ref k).

(** [!modifier || modifier === "select"] *)
Definition plain_select (modifier : option string) : bool :=
  match modifier with
  | None => true
  | Some s => bool_decide (s = ""%string) || bool_decide (s = "select"%string)
  end.

(** [layerSpec] is a list here; a single [Layer] is wrapped by the
    caller as [Immutable.List.of(layerSpec)] does. *)
Definition selectLayerCommand (document : Document) (layerSpec : list Layer)
    (modifier : option string) : Promise :=
  let payload : Payload := [("documentID"%string, VNum (document_id document))] in
  let payload_ids := payload ++ [("selectedIDs"%string, pluck_id layerSpec)] in
  let scheduled :=
    if plain_select modifier
    then [NextTickDispatch SELECT_LAYERS_BY_ID payload_ids]
    else [] in
  let layerRef :=
    documentLib_referenceBy_id (document_id document)
      :: map (fun layer => layerLib_referenceBy_id (layer_id layer)) layerSpec in
  let selectObj := layerLib_select layerRef false modifier in
  after scheduled
    (then_ (descriptor_playObject selectObj) (fun _ =>
       if plain_select modifier then Promise_resolve
       else
         (* this inner promise is not returned: the outer one resolves
            whatever becomes of it *)
         let inner :=
           then_ (descriptor_getProperty
                    (documentLib_referenceBy_id (document_id document))
                    "targetLayers")
                 (fun targetLayers =>
                    ([Dispatch SELECT_LAYERS_BY_INDEX
                        (payload ++ [("selectedIndices"%string,
                                      pluck targetLayers "index")])],
                     Some VUndefined)) in
         (effects inner, Some VUndefined))).

Definition renameLayerCommand (document : Document) (layer : Layer)
    (newName : string) : Promise :=
  let payload : Payload :=
    [("documentID"%string, VNum (document_id document));
     ("layerID"%string, VNum (layer_id layer));
     ("name"%string, VStr newName)] in
  let layerRef :=
    [documentLib_referenceBy_id (document_id document);
     layerLib_referenceBy_id (layer_id layer)] in
  let renameObj := layerLib_rename layerRef newName in
  after [NextTickDispatch RENAME_LAYER payload]
    (descriptor_playObject renameObj).

(** [if (document === undefined) document = ...getCurrentDocument()],
    then [!document]: [None] when no document is left to work on. *)
Definition resolveDocument (document : DocumentArg) : option Document :=
  match document with
  | Omitted => getCurrentDocument env
  | Null => None
  | Given d => Some d
  end.

Definition deselectAllLayersCommand (document : DocumentArg) : Promise :=
  match resolveDocument document with
  | None => Promise_resolve
  | Some document =>
      if bool_decide (all (layers document) = [])
      then Promise_resolve
      else
        let payload : Payload :=
          [("documentID"%string, VNum (document_id document));
           ("selectedIDs"%string, VArr [])] in
        after [NextTickDispatch SELECT_LAYERS_BY_ID payload]
          (descriptor_playObject layerLib_deselectAll)
  end.

(** [this.transfer(selectLayer, ...)] runs the select command. *)
Definition selectAllLayersCommand (document : DocumentArg) : Promise :=
  match resolveDocument document with
  | None => Promise_resolve
  | Some document =>
      if bool_decide (all (layers document) = [])
      then Promise_resolve
      else selectLayerCommand document (all (layers document)) None
  end.

Definition deleteSelectedLayersCommand (document : DocumentArg) : Promise :=
  match resolveDocument document with
  | None => Promise_resolve
  | Some document =>
      if bool_decide (all (layers document) = [])
         || negb (selectedLayersDeletable (layers document))
      then Promise_resolve
      else
        let documentID := document_id document in
        let lyrs := allSelected (layers document) in
        let layerIDs := pluck_id lyrs in
        let deletePlayObject := layerLib_delete layerLib_referenceBy_current in
        let payload : Payload :=
          [("documentID"%string, VNum documentID);
           ("layerIDs"%string, layerIDs)] in
        let options :=
          {| historyStateInfo :=
               {| name := DELETE_LAYERS;
                  target := documentLib_referenceBy_id documentID |} |} in
        after [NextTickDispatch DELETE_SELECTED payload]
          ([PlayWithLockOverride document lyrs deletePlayObject options true],
           playWithLockOverride env document lyrs deletePlayObject options true)
  end.

(** The payload of GROUP_SELECTED reads three properties of the host's
    answer; on an answer that is [undefined] or [null] the callback
    throws and the promise is rejected. *)
Definition groupSelectedLayersCommand (document : Document) : Promise :=
  if bool_decide (selected (layers document) = [])
  then Promise_resolve
  else
    then_ (descriptor_playObject layerLib_groupSelected) (fun groupResult =>
      match get groupResult "layerSectionStart",
            get groupResult "layerSectionEnd",
            get groupResult "name" with
      | Ok groupID, Ok groupEndID, Ok groupname =>
          ([Dispatch GROUP_SELECTED
              [("documentID"%string, VNum (document_id document));
               ("groupID"%string, groupID);
               ("groupEndID"%string, groupEndID);
               ("groupname"%string, groupname)]],
           Some VUndefined)
      | _, _, _ => ([], None)
      end).

Definition groupSelectedLayersInCurrentDocumentCommand : Promise :=
  match getCurrentDocument env with
  | None => Promise_resolve
  | Some currentDocument => groupSelectedLayersCommand currentDocument
  end.

Definition setVisibilityCommand (document : Document) (layer : Layer)
    (visible : bool) : Promise :=
  let payload : Payload :=
    [("documentID"%string, VNum (document_id document));
     ("layerID"%string, VNum (layer_id layer));
     ("visible"%string, VBool visible)] in
  let command := if visible then layerLib_show else layerLib_hide in
  let layerRef :=
    [documentLib_referenceBy_id (document_id document);
     layerLib_referenceBy_id (layer_id layer)] in
  after [NextTickDispatch VISIBILITY_CHANGED payload]
    (descriptor_playObject (command layerRef)).

Definition _unlockBackgroundLayer (document : Document) (layer : Layer)
  : Promise :=
  then_ (descriptor_playObject (layerLib_unlockBackground (layer_id layer)))
    (fun _ =>
       ([TransferUpdateDocument (document_id document)],
        updateDocument env (document_id document))).

Definition setLockingCommand (document : Document) (layer : Layer)
    (locked : bool) : Promise :=
  let payload : Payload :=
    [("documentID"%string, VNum (document_id document));
     ("layerID"%string, VNum (layer_id layer));
     ("locked"%string, VBool locked)] in
  let layerRef :=
    [documentLib_referenceBy_id (document_id document);
     layerLib_referenceBy_id (layer_id layer)] in
  after [NextTickDispatch LOCK_CHANGED payload]
    (if isBackground layer
     then _unlockBackgroundLayer document layer
     else descriptor_playObject (layerLib_setLocking layerRef locked)).

End Commands.

(** *** Reading a trace *)

Definition is_host_call (e : Effect) : bool :=
  match e with
  | PlayObjectCall _ | GetPropertyCall _ _ | PlayWithLockOverride _ _ _ _ _ => true
  | _ => false
  end.

Definition is_dispatch (e : Effect) : bool :=
  match e with
  | NextTickDispatch _ _ | Dispatch _ _ => true
  | _ => false
  end.

(** The command issued a host call and a dispatch. *)
Definition marshals_and_dispatches (p : Promise) : Prop :=
  (exists e, e ∈ effects p /\ is_host_call e = true)
  /\ (exists e, e ∈ effects p /\ is_dispatch e = true).

(** The document the command works on has layers. *)
Definition has_layers (document : option Document) : bool :=
  match document with
  | Some document => negb (bool_decide (all (layers document) = []))
  | None => false
  end.

Definition deletable (document : option Document) : bool :=
  match document with
  | Some document => selectedLayersDeletable (layers document)
  | None => false
  end.

(** The host's answer to the group play object is a descriptor the
    payload can be read from. *)
Definition answered_with_descriptor (answer : option Value) : bool :=
  match answer with
  | None | Some VUndefined | Some VNull => false
  | Some _ => true
  end.

(** The play objects handed to [descriptor.playObject], in order. *)
Definition played (es : list Effect) : list PlayObject :=
  omap (fun e => match e with PlayObjectCall obj => Some obj | _ => None end) es.

(** An environment in which every collaborator answers [undefined]... *)
Definition quiet (current : option Document) : Environment :=
  {| playObject := fun _ => Some VUndefined;
     getProperty := fun _ _ => Some VUndefined;
     playWithLockOverride := fun _ _ _ _ _ => Some VUndefined;
     updateDocument := fun _ => Some VUndefined;
     getCurrentDocument := current |}.

(** ... and one in which the host answers every play object with a group
    descriptor. *)
Definition grouping (current : option Document) : Environment :=
  {| playObject := fun _ =>
       Some (VObj [("layerSectionStart"%string, VNum 11);
                   ("layerSectionEnd"%string, VNum 12);
                   ("name"%string, VStr "Group 1")]);
     getProperty := fun _ _ => Some VUndefined;
     playWithLockOverride := fun _ _ _ _ _ => Some VUndefined;
     updateDocument := fun _ => Some VUndefined;
     getCurrentDocument := current |}.

Definition sample_background : Layer := {| layer_id := 1; isBackground := true |}.
Definition sample_layer : Layer := {| layer_id := 2; isBackground := false |}.

Definition sample_document : Document :=
  {| document_id := 5;
     layers := {| all := [sample_background; sample_layer];
                  selected := [sample_layer];
                  allSelected := [sample_layer];
                  selectedLayersDeletable := true |} |}.

(** A flat document: no layers. *)
Definition flat_document : Document :=
  {| document_id := 6;
     layers := {| all := []; selected := []; allSelected := [];
                  selectedLayersDeletable := false |} |}.

End Layers.

(* ===================================================================== *)
(** ** Menu bar *)
(* ===================================================================== *)

(** [s.split(sep)] for a one-character separator: the pieces between the
    separators, the empty ones included. *)
Fixpoint split_on (sep : ascii) (s : string) : list string :=
match s with
| EmptyString => [EmptyString]
| String c s' =>
    if decide (c = sep) then EmptyString :: split_on sep s'
    else match split_on sep s' with
         | piece :: pieces => String c piece :: pieces
         | [] => [String c EmptyString]
         end
end.

(** The object literal given to [new MenuItem(...)]. *)
Module ItemDescriptor.

Record Shortcut := {
  keyChar : string;
  modifiers : Z
}.

Record t := {
  id : string;
  itemID : string;
  label : string;
  command : string;
  checked : Z;
  shortcut : option Shortcut
}.

End ItemDescriptor.

Module MenuBar.

(** *** Collaborators

    The models and utilities the menu bar requires and whose code is
    elsewhere: the [MenuItem] record of ./menuitem with the operations used
    on it, [keyutil.modifiersToBits], [system.isMac], and the [Document]
    model, of which the name is read and which [Immutable.is] compares by
    value. *)
Class Collaborators := {
  MenuItem : Type;
  (** [new MenuItem(itemDescriptor)] *)
  MenuItem_new : ItemDescriptor.t -> MenuItem;
  (** [MenuItem.fromDescriptor(rawMenu)] *)
  MenuItem_fromDescriptor : Value -> result MenuItem;
  (** [item.id], [item.submenu], [item.submenuMap] *)
  item_id : MenuItem -> string;
  submenu : MenuItem -> list MenuItem;
  submenuMap : MenuItem -> gmap string MenuItem;
  (** [menu.merge({submenu: newsubmenu})] *)
  merge_submenu : MenuItem -> list MenuItem -> MenuItem;
  modifiersToBits : list (string * bool) -> Z;
  isMac : bool;
  Document : Type;
  Document_eq_dec :: EqDecision Document;
  document_name : Document -> string
}.

Section Model.
Context `{Collaborators}.

(** What a menu item does: [$action], and [$payload] when there is one.
    A payload comes from the JSON or is a document model. *)
Inductive ActionPayload :=
  | JSONPayload (v : Value)
  | DocumentPayload (document : Document).

Record Action := {
  _action : Value;
  _payload : option ActionPayload
}.

Record MenuBar := {
  id : Value;
  roots : list MenuItem;
  enablers : gmap Key (list string);
  actions : gmap Key Action;
  rootMap : gmap string MenuItem
}.

(** *** [_processMenuActions] *)

(** The two [Map]s the traversal fills. *)
Record Maps := {
  actionMap : gmap Key Action;
  enablerMap : gmap Key (list string)
}.

(** What [_.forEach(rawActions, f)] hands to [f], as (prop, descriptor). *)
Definition entries (collection : Value) : list (Key * Value) :=
  each collection.

(** [prefix === undefined ? prop : prefix + "." + prop]: under a prefix the
    ID is a string, without one it is the property as handed over. *)
Definition item_path (prefix : option Key) (prop : Key) : Key :=
  match prefix with
  | None => prop
  | Some prefix => KStr (key_string prefix +:+ "." +:+ key_string prop)
  end.

(** The rules of a descriptor: its "$enable-rule" split at the commas, or
    none.  A rule that is not a string has no [split]. *)
Definition ruleArray (descriptor : Value) : result (list string) :=
  has ← hasOwnProperty descriptor "$enable-rule";
  if has : bool then
    rules ← get descriptor "$enable-rule";
    match rules with
    | VStr rules => Ok (split_on ","%char rules)
    | _ => TypeError
    end
  else Ok [].

(** The action object built from a descriptor that has "$action". *)
Definition menuAction (descriptor : Value) : result Action :=
  action ← get descriptor "$action";
  has ← hasOwnProperty descriptor "$payload";
  if has : bool then
    payload ← get descriptor "$payload";
    Ok {| _action := action; _payload := Some (JSONPayload payload) |}
  else Ok {| _action := action; _payload := None |}.

(** [stack] is the depth of call stack that is left: every nested call
    takes one frame, and a call with none left throws. *)
Fixpoint _processMenuActions (stack : nat) (rawActions : Value)
    (maps : Maps) (prefix : option Key) : result Maps :=
  match stack with
  | O => RangeError
  | S stack =>
      fold_left
        (fun (acc : result Maps) (entry : Key * Value) =>
           maps ← acc;
           let '(prop, descriptor) := entry in
           let id := item_path prefix prop in
           ruleArray ← ruleArray descriptor;
           let maps :=
             {| actionMap := actionMap maps;
                enablerMap := <[id := ruleArray]> (enablerMap maps) |} in
           has ← hasOwnProperty descriptor "$action";
           if has : bool then
             action ← menuAction descriptor;
             Ok {| actionMap := <[id := action]> (actionMap maps);
                   enablerMap := enablerMap maps |}
           else if bool_decide (prop ≠ KStr "$enable-rule")
           then _processMenuActions stack descriptor maps (Some id)
           else Ok maps)
        (entries rawActions) (Ok maps)
  end.

(** *** [fromJSONObjects] *)

Fixpoint map_result {A B : Type} (f : A -> result B) (l : list A) : result (list B) :=
  match l with
  | [] => Ok []
  | x :: l => y ← f x; ys ← map_result f l; Ok (y :: ys)
  end.

Definition fromJSONObjects (stack : nat) (menuObj menuActionsObj : Value)
  : result MenuBar :=
  hasId ← hasOwnProperty menuObj "id";
  hasMenu ← hasOwnProperty menuObj "menu";
  if negb hasId || negb hasMenu
  then ErrorThrown "Missing menu id and submenu"
  else
    menuID ← get menuObj "id";
    menu ← get menuObj "menu";
    match menu with
    | VArr rawMenus =>
        roots ← map_result MenuItem_fromDescriptor rawMenus;
        let rootMap :=
          fold_left (fun m rootItem => <[item_id rootItem := rootItem]> m) roots ∅ in
        maps ← _processMenuActions stack menuActionsObj
                 {| actionMap := ∅; enablerMap := ∅ |} None;
        Ok {| id := menuID;
              roots := roots;
              enablers := enablerMap maps;
              actions := actionMap maps;
              rootMap := rootMap |}
    | _ => TypeError
    end.

(** *** What the traversal reaches

    [visited raw path d]: the traversal of [raw] reaches the descriptor [d]
    along the keys [path] that [_.forEach] handed over.  It goes below a
    descriptor that has no "$action", except below the "$enable-rule"
    property. *)
Inductive visited : Value -> list Key -> Value -> Prop :=
  | visited_here raw prop d :
      (prop, d) ∈ entries raw ->
      visited raw [prop] d
  | visited_below raw prop d path d' :
      (prop, d) ∈ entries raw ->
      hasOwnProperty d "$action" = Ok false ->
      prop ≠ KStr "$enable-rule" ->
      visited d path d' ->
      visited raw (prop :: path) d'.

(** The property names of a path joined with dots. *)
Definition dot_join (path : list string) : string :=
  String.concat "." path.

(** The ID of a descriptor reached along [path] from the root: the key
    itself for a path of one, the keys joined with dots otherwise. *)
Definition key_join (path : list Key) : Key :=
  match path with
  | [prop] => prop
  | _ => KStr (dot_join (map key_string path))
  end.

(** The ID of a descriptor reached along [path] from a call with
    [prefix]. *)
Definition join_under (prefix : option Key) (path : list Key) : option Key :=
  fold_left (fun prefix prop => Some (item_path prefix prop)) path prefix.

(** *** The menu-actions tree, as its description has it

    The menu items are the properties of the tree: [node raw path d] says
    that [d] is the property found along the property names [path] from
    the root, below descriptors that have no "$action" and not below an
    "$enable-rule" property. *)
Definition own_properties (v : Value) : list (string * Value) :=
  match v with
  | VObj ps => ps
  | _ => []
  end.

Definition has_action (d : Value) : Prop :=
  match d with
  | VObj ps => is_Some (assoc "$action" ps)
  | _ => False
  end.

Inductive node : Value -> list string -> Value -> Prop :=
  | node_here raw prop d :
      (prop, d) ∈ own_properties raw ->
      node raw [prop] d
  | node_below raw prop d path d' :
      (prop, d) ∈ own_properties raw ->
      ~ has_action d ->
      prop ≠ "$enable-rule" ->
      node d path d' ->
      node raw (prop :: path) d'.

(** A value lodash walks by index rather than by property: an array, a
    string that is not empty, an object owning a "length" that is a
    length. *)
Definition array_like (v : Value) : bool :=
  match v with
  | VArr _ => true
  | VStr s => negb (bool_decide (s = ""))
  | VObj ps =>
      match isLength (default VUndefined (assoc "length" ps)) with
      | Some _ => true
      | None => false
      end
  | _ => false
  end.

(** No group of the tree is walked by index: neither the root nor an item
    without "$action" that is not an "$enable-rule". *)
Definition plain_tree (raw : Value) : Prop :=
  array_like raw = false
  /\ forall path d,
       node raw path d -> ~ has_action d -> last path ≠ Some "$enable-rule" ->
       array_like d = false.

(** *** The behavior of a menu item, in the words of its description *)

(** The comma-split list of the "$enable-rule" string of a descriptor, the
    empty list when it has none. *)
Definition enable_rules (d : Value) : list string :=
  match d with
  | VObj ps =>
      match assoc "$enable-rule" ps with
      | Some (VStr rules) => split_on ","%char rules
      | _ => []
      end
  | _ => []
  end.

(** The "$action" of a descriptor, with its "$payload" when present. *)
Definition behavior (d : Value) : Action :=
  match d with
  | VObj ps =>
      {| _action := default VUndefined (assoc "$action" ps);
         _payload := JSONPayload <$> assoc "$payload" ps |}
  | _ => {| _action := VUndefined; _payload := None |}
  end.

(** A menu-actions tree the traversal can walk: no descriptor on the way is
    [null], no "$enable-rule" is anything but a string, and the paths are
    shorter than the stack is deep. *)
Definition well_formed (stack : nat) (raw : Value) : Prop :=
  (0 < stack)%nat
  /\ forall path d,
       visited raw path d ->
       (List.length path < stack)%nat /\ is_Ok (ruleArray d).

(** The same on the description of the tree: no item is [null] or
    [undefined] or has an "$enable-rule" that is not a string, and the
    items are nested less deep than the stack. *)
Definition walkable (stack : nat) (raw : Value) : Prop :=
  (0 < stack)%nat
  /\ forall path d,
       node raw path d ->
       (List.length path < stack)%nat /\ is_Ok (ruleArray d).

(** Menu items are told apart by their dot-joined paths. *)
Definition distinct_paths (raw : Value) : Prop :=
  forall path1 d1 path2 d2,
    node raw path1 d1 -> node raw path2 d2 ->
    dot_join path1 = dot_join path2 -> d1 = d2.

(** The descriptors the traversal reaches are told apart by their IDs. *)
Definition distinct_visits (raw : Value) : Prop :=
  forall path1 d1 path2 d2,
    visited raw path1 d1 -> visited raw path2 d2 ->
    key_join path1 = key_join path2 -> d1 = d2.

(** The menu description has an id and an array of root menus that
    [MenuItem.fromDescriptor] accepts. *)
Definition menu_described (menuObj : Value) (menuID : Value)
    (rootItems : list MenuItem) : Prop :=
  exists ps rawMenus,
    menuObj = VObj ps
    /\ assoc "id" ps = Some menuID
    /\ assoc "menu" ps = Some (VArr rawMenus)
    /\ map_result MenuItem_fromDescriptor rawMenus = Ok rootItems.

(** *** The visits of a traversal, in order *)

Record Visit := {
  visit_id : Key;
  visit_descriptor : Value;
  visit_rules : list string;
  visit_action : option Action
}.

Definition visit_of (id : Key) (descriptor : Value) : result Visit :=
  rules ← ruleArray descriptor;
  has ← hasOwnProperty descriptor "$action";
  if has : bool then
    action ← menuAction descriptor;
    Ok {| visit_id := id; visit_descriptor := descriptor;
          visit_rules := rules; visit_action := Some action |}
  else
    Ok {| visit_id := id; visit_descriptor := descriptor;
          visit_rules := rules; visit_action := None |}.

Fixpoint concat_map_result {A B : Type} (f : A -> result (list B)) (l : list A)
  : result (list B) :=
  match l with
  | [] => Ok []
  | x :: l => ys ← f x; zs ← concat_map_result f l; Ok (ys ++ zs)
  end.

Fixpoint visits (stack : nat) (rawActions : Value) (prefix : option Key)
  : result (list Visit) :=
  match stack with
  | O => RangeError
  | S stack =>
      concat_map_result
        (fun entry : Key * Value =>
           let id := item_path prefix entry.1 in
           v ← visit_of id entry.2;
           match visit_action v with
           | Some _ => Ok [v]
           | None =>
               if bool_decide (entry.1 ≠ KStr "$enable-rule")
               then below ← visits stack entry.2 (Some id); Ok (v :: below)
               else Ok [v]
           end)
        (entries rawActions)
  end.

Definition action_assignments (l : list Visit) : list (Key * Action) :=
  omap (fun v => pair (visit_id v) <$> visit_action v) l.

(** The maps after the assignments of the visits [l]. *)
Definition assigned (l : list Visit) (maps : Maps) : Maps :=
  {| actionMap :=
       fold_left (fun m (a : Key * Action) => <[a.1 := a.2]> m)
                 (action_assignments l) (actionMap maps);
     enablerMap :=
       fold_left (fun m v => <[visit_id v := visit_rules v]> m)
                 l (enablerMap maps) |}.

(** *** [getMenuItem] *)

Definition getMenuItem (mb : MenuBar) (menuID : string) : option MenuItem :=
  match split_on "."%char menuID with
  | [] => None
  | rootID :: idSegments =>
      fold_left (fun result id =>
                   match result with
                   | Some item => submenuMap item !! id
                   | None => None
                   end)
                idSegments (rootMap mb !! rootID)
  end.

(** *** [updateOpenDocuments] *)

Definition _switchDocModifiersMac : Z :=
  modifiersToBits [("command", true); ("option", true)].

Definition _switchDocModifiersWin : Z :=
  modifiersToBits [("command", true); ("option", true)].

Definition openDocumentID (index : nat) : string :=
  "WINDOW.OPEN_DOCUMENT." +:+ pretty index.

(** The descriptor the [map] callback builds for the document at [index]. *)
Definition openDocumentDescriptor (currentDocument : option Document)
    (index : nat) (document : Document) : ItemDescriptor.t :=
  let id := openDocumentID index in
  {| ItemDescriptor.id := id;
     ItemDescriptor.itemID := pretty index;
     ItemDescriptor.label := document_name document;
     ItemDescriptor.command := id;
     ItemDescriptor.checked :=
       if decide (currentDocument = Some document) then 1 else 0;
     ItemDescriptor.shortcut :=
       if (index <? 9)%nat
       then Some {| ItemDescriptor.keyChar := pretty (index + 1)%nat;
                    ItemDescriptor.modifiers :=
                      if isMac then _switchDocModifiersMac
                      else _switchDocModifiersWin |}
       else None |}.

Definition selectDocumentAction (document : Document) : Action :=
  {| _action := VStr "documents.selectDocument";
     _payload := Some (DocumentPayload document) |}.

(** [seq.takeUntil(p)]: the elements before the first that satisfies [p]. *)
Fixpoint takeUntil {A : Type} (p : A -> bool) (l : list A) : list A :=
  match l with
  | [] => []
  | x :: l => if p x then [] else x :: takeUntil p l
  end.

(** [list.findIndex(p)], -1 when no element satisfies [p]. *)
Fixpoint findIndex {A : Type} (p : A -> bool) (l : list A) : Z :=
  match l with
  | [] => -1
  | x :: l =>
      if p x then 0
      else let i := findIndex p l in if i <? 0 then -1 else i + 1
  end.

(** [list.set(index, x)] of an Immutable list, for an index [findIndex]
    answers: a negative index counts from the end, so -1 is the last
    element, and on the empty list it makes the list [x]. *)
Definition List_set {A : Type} (index : Z) (x : A) (l : list A) : list A :=
  let i := if index <? 0 then Z.of_nat (List.length l) + index else index in
  if i <? 0 then [x] else <[Z.to_nat i := x]> l.

(** [documents] is the object of the open documents, as the list of its
    properties in enumeration order; [_.values] are the documents. *)
Definition updateOpenDocuments (mb : MenuBar) (documents : list (Z * Document))
    (currentDocument : option Document) : result MenuBar :=
  let windowMenu := getMenuItem mb "WINDOW" in
  let values := map snd documents in
  (* the callback of [map] adds the action of each item as it builds it *)
  let newActions :=
    fold_left (fun newActions (entry : nat * Document) =>
                 <[KStr (openDocumentID entry.1) := selectDocumentAction entry.2]>
                   newActions)
              (imap (fun index document => (index, document)) values)
              (actions mb) in
  let openDocumentItems :=
    imap (fun index document =>
            MenuItem_new (openDocumentDescriptor currentDocument index document))
         values in
  match windowMenu with
  | None => TypeError
  | Some menu =>
      let submenuStart :=
        takeUntil (fun item => String.prefix "WINDOW.OPEN_DOCUMENT." (item_id item))
                  (submenu menu) in
      let newsubmenu := submenuStart ++ openDocumentItems in
      let newWindowMenu := merge_submenu menu newsubmenu in
      let windowMenuIndex :=
        findIndex (fun root => bool_decide (item_id root = "WINDOW")) (roots mb) in
      Ok {| id := id mb;
            roots := List_set windowMenuIndex newWindowMenu (roots mb);
            enablers := enablers mb;
            actions := newActions;
            rootMap := <["WINDOW" := newWindowMenu]> (rootMap mb) |}
  end.

End Model.

(** *** A small instance

    Menu items are kept as the identifier, the descriptor they were made
    from and the submenu; documents are their names. *)
#[local] Set Warnings "-register-all".
Inductive SampleItem :=
  | sampleItem (sid : string) (made_from : option ItemDescriptor.t)
               (sub : list SampleItem).
#[local] Set Warnings "register-all".

Definition sample_id (item : SampleItem) : string :=
  match item with sampleItem sid _ _ => sid end.

Definition sample_submenu (item : SampleItem) : list SampleItem :=
  match item with sampleItem _ _ sub => sub end.

Definition sample_fromDescriptor (rawMenu : Value) : result SampleItem :=
  id ← get rawMenu "id";
  match id with
  | VStr id => Ok (sampleItem id None [])
  | _ => TypeError
  end.

#[local] Instance sample_collaborators : Collaborators := {
  MenuItem := SampleItem;
  MenuItem_new := fun d => sampleItem (ItemDescriptor.id d) (Some d) [];
  MenuItem_fromDescriptor := sample_fromDescriptor;
  item_id := sample_id;
  submenu := sample_submenu;
  submenuMap := fun _ => ∅;
  merge_submenu := fun item sub =>
    match item with sampleItem sid d _ => sampleItem sid d sub end;
  modifiersToBits := fun l => Z.of_nat (List.length (filter (fun m => m.2 = true) l));
  isMac := true;
  Document := string;
  document_name := fun name => name
}.

Definition sample_menu : Value :=
  VObj [("id", VStr "MAIN");
        ("menu", VArr [VObj [("id", VStr "FILE")]; VObj [("id", VStr "WINDOW")]])].

Definition sample_actions : Value :=
  VObj [("FILE",
         VObj [("$enable-rule", VStr "always");
               ("NEW",
                VObj [("$enable-rule", VStr "always,have-document");
                      ("$action", VStr "documents.createNew");
                      ("$payload", VNum 1)])])].

(** A group that owns a "length", and an item whose name holds a dot. *)
Definition array_like_actions : Value :=
  VObj [("FILE",
         VObj [("length", VNum 0);
               ("A", VObj [("$action", VStr "a")])])].

Definition clashing_actions : Value :=
  VObj [("A.B", VObj [("$action", VStr "x")]);
        ("A", VObj [("B", VObj [("$action", VStr "y")])])].

Definition sample_window : SampleItem :=
  sampleItem "WINDOW" None
    [sampleItem "WINDOW.MINIMIZE" None [];
     sampleItem "WINDOW.OPEN_DOCUMENT.0" None []].

Definition sample_menubar : MenuBar :=
  {| id := VStr "MAIN";
     roots := [sampleItem "FILE" None []; sample_window];
     enablers := ∅;
     actions := ∅;
     rootMap := {[ "WINDOW" := sample_window ]} |}.

End MenuBar.

(* ===================================================================== *)
(** ** Carousel: clicks, navigation links and rendering *)
(* ===================================================================== *)

Module CarouselView.
Import Carousel.


(** What [getBoundingClientRect()] answers and the position of a click, in
    whole pixels. *)
Record ClientRect := {
  top : Z;
  bottom : Z;
  left : Z;
  right : Z;
  width : Z
}.

Record MouseEvent := {
  clientX : Z;
  clientY : Z
}.

(** One [<a>] of the navigation: its key, its class and the index its
    click handler is bound to, [this._gotoItem.bind(this, idx)]. *)
Record NavLink := {
  key : string;
  className : string;
  target : nat
}.

#[global] Instance NavLink_eq_dec : EqDecision NavLink.
Proof. solve_decision. Defined.

Section View.
Context {Item : Type} (props : Props Item).

(** [elt] is [this.getDOMNode()], [None] when there is none.
    [Math.floor(bounds.width / 2)] is the floor division. *)
Definition _handleClick (elt : option ClientRect) (event : MouseEvent)
    (st : State) : State :=
  match elt with
  | None => st
  | Some bounds =>
      if (top bounds <=? clientY event)
         && (clientY event <=? bottom bounds)
         && (left bounds <=? clientX event)
      then
        let midpointX := left bounds + width bounds / 2 in
        if clientX event <=? midpointX then _prevItem props st
        else if clientX event <=? right bounds then _nextItem props st
        else st
      else st
  end.

Definition _buildNav (st : State) : list NavLink :=
  imap (fun idx (_ : Item) =>
          {| key := "link" +:+ pretty idx;
             className := if bool_decide (Z.of_nat idx = index st)
                          then "current" else "";
             target := idx |})
       (items props).

(** [this.props.items[i]]: [undefined] outside the array. *)
Definition item_at (i : Z) : option Item :=
  if i <? 0 then None else items props !! Z.to_nat i.

(** What [render] shows: the item, the key given to its clone, the
    direction in the class set and the navigation. *)
Record Rendered := {
  shown : Item;
  shown_key : Z;
  classSet : Direction;
  nav : list NavLink
}.

(** [render] returns [null] for an empty carousel; reading [item.ref] of a
    missing item throws. *)
Definition render (st : State) : result (option Rendered) :=
  if bool_decide (items props = []) then Ok None
  else
    match item_at (index st) with
    | None => TypeError
    | Some item =>
        Ok (Some {| shown := item;
                    shown_key := index st;
                    classSet := direction st;
                    nav := _buildNav st |})
    end.

(** What the user can do to a mounted carousel: the arrow keys, a click on
    the component and a click on one of the navigation links it rendered. *)
Inductive Gesture :=
  | ArrowRight
  | ArrowLeft
  | Click (elt : option ClientRect) (event : MouseEvent)
  | ClickLink (link : NavLink).

Definition gesture (st : State) (g : Gesture) : State :=
  match g with
  | ArrowRight => _nextItem props st
  | ArrowLeft => _prevItem props st
  | Click elt event => _handleClick elt event st
  | ClickLink link => _gotoItem st (Z.of_nat (target link))
  end.

(** The links are those of the navigation rendered in the state at hand. *)
Fixpoint session (st : State) (gs : list Gesture) : option State :=
  match gs with
  | [] => Some st
  | g :: gs =>
      match g with
      | ClickLink link =>
          if bool_decide (link ∈ _buildNav st)
          then session (gesture st g) gs else None
      | _ => session (gesture st g) gs
      end
  end.

End View.

End CarouselView.

(* ===================================================================== *)
(** ** Theme: matching blocks and panel heights *)
(* ===================================================================== *)

Module ThemePanels.
Import Theme.

(** The font-size blocks whose media query holds. *)
Definition matching (ratio width : Z) : list MediaRule :=
  List.filter (fun q => matches q ratio width) html_rules.

(** The two selectors of the [min-height] blocks and the two properties they
    declare, lengths in tenths of a rem. *)
Inductive Section_ := export_effects | appearance.
Inductive Property := height | min_height.

Record Declaration := {
  selector : Section_;
  property : Property;
  tenths_of_rem : Z
}.

(** One [@media (min-height: h)] block. *)
Record HeightBlock := {
  min_viewport_height : Z;
  declarations : list Declaration
}.

(** The four blocks, in the order of the style sheet ([overflow: hidden]
    is the same in all of them and left out). *)
Definition height_blocks : list HeightBlock :=
  [ {| min_viewport_height := 200;
       declarations :=
         [ {| selector := export_effects; property := min_height; tenths_of_rem := 0 |};
           {| selector := appearance; property := height; tenths_of_rem := 60 |} ] |};
    {| min_viewport_height := 300;
       declarations :=
         [ {| selector := export_effects; property := min_height; tenths_of_rem := 0 |};
           {| selector := appearance; property := height; tenths_of_rem := 80 |} ] |};
    {| min_viewport_height := 460;
       declarations :=
         [ {| selector := export_effects; property := min_height; tenths_of_rem := 46 |};
           {| selector := appearance; property := height; tenths_of_rem := 120 |} ] |};
    {| min_viewport_height := 580;
       declarations :=
         [ {| selector := export_effects; property := height; tenths_of_rem := 80 |};
           {| selector := appearance; property := min_height; tenths_of_rem := 220 |} ] |} ].

Definition declares (sel : Section_) (prop : Property) (d : Declaration) : bool :=
  match selector d, sel with
  | export_effects, export_effects | appearance, appearance =>
      match property d, prop with
      | height, height | min_height, min_height => true
      | _, _ => false
      end
  | _, _ => false
  end.

(** The value the sheet gives a property of a section at a viewport
    height: that of the last declaration among the blocks that apply, if
    any. *)
Definition declared (sel : Section_) (prop : Property) (viewport_height : Z)
  : option Z :=
  fold_left
    (fun value block =>
       if min_viewport_height block <=? viewport_height
       then fold_left (fun value d =>
                         if declares sel prop d then Some (tenths_of_rem d) else value)
                      (declarations block) value
       else value)
    height_blocks None.

(** A property that is not declared is below any value; a declared one is
    below a greater declared one. *)
Definition le_declared (a b : option Z) : Prop :=
  match a, b with
  | None, _ => True
  | Some _, None => False
  | Some x, Some y => x <= y
  end.

End ThemePanels.

(* ===================================================================== *)
(** ** The last element under a key *)
(* ===================================================================== *)

(** The last element of [l] whose key is [k]: the one a loop of
    assignments keyed by [key] leaves under [k]. *)
Definition last_with {K A : Type} `{EqDecision K} (key : A -> K) (k : K)
    (l : list A) : option A :=
  fold_left (fun found x => if decide (key x = k) then Some x else found) l None.

(* ===================================================================== *)
(** ** Layer actions: the order of effects *)
(* ===================================================================== *)

Module LayersOrder.
Import Layers.

(** In what order a command tells the stores and the host. *)
Definition stores_first (es : list Effect) : Prop :=
  forall i ev payload, es !! i = Some (NextTickDispatch ev payload) -> i = 0%nat.

Definition host_before_dispatch (es : list Effect) : Prop :=
  forall i ev payload,
    es !! i = Some (Dispatch ev payload) ->
    exists j e, (j < i)%nat /\ es !! j = Some e /\ is_host_call e = true.

(** Both, for the effects of one command. *)
Definition ordered (p : Promise) : Prop :=
  stores_first (effects p) /\ host_before_dispatch (effects p).

(** The two conditions, computed. *)
Definition is_scheduled (e : Effect) : bool :=
  match e with NextTickDispatch _ _ => true | _ => false end.

Definition is_callback_dispatch (e : Effect) : bool :=
  match e with Dispatch _ _ => true | _ => false end.

Definition stores_first_b (es : list Effect) : bool :=
  match es with
  | [] => true
  | _ :: rest => forallb (fun e => negb (is_scheduled e)) rest
  end.

Fixpoint host_before_dispatch_b (called : bool) (es : list Effect) : bool :=
  match es with
  | [] => true
  | e :: rest =>
      (if is_callback_dispatch e then called else true)
      && host_before_dispatch_b (called || is_host_call e) rest
  end.

End LayersOrder.

(* ===================================================================== *)
(** ** Layer actions: descriptors read from the host *)
(* ===================================================================== *)

Module LayerQueries.
Import Layers.

(** Properties to be included when requesting layer descriptors. *)
Definition _layerProperties : list string :=
  ["layerID"; "name"; "visible"; "layerLocking"; "itemIndex"; "background";
   "boundsNoEffects"; "opacity"; "layerFXVisible"; "mode"].

(** Properties to be included if present. *)
Definition _optionalLayerProperties : list string :=
  ["adjustment"; "AGMStrokeStyleInfo"; "textKey"; "layerKind"; "keyOriginType";
   "fillEnabled"; "fillOpacity"; "layerEffects"].

(** A reference of the adapter: one of those of the commands, or a layer
    by its index. *)
Inductive Ref :=
  | ref (r : Reference)
  | layerLib_referenceBy_index (i : Z).

Record RefObj := {
  reference : list Ref;
  property : string
}.

(** A descriptor object under construction. *)
Abbreviation Descriptor := (gmap string Value).

(** [references.reduce(function (refs, reference) { return
    refs.concat(properties.map(...)); }, [])] *)
Definition refObjsFor (properties : list string) (references : list (list Ref))
  : list RefObj :=
  fold_left
    (fun refs reference =>
       refs ++ map (fun property => {| reference := reference; property := property |})
                   properties)
    references [].

(** The callback of the [reduce] over the host's answers: every
    [properties.length] values a new object is pushed, and the value goes
    into the last object under the property of its position. *)
Definition collect (properties : list string)
    (store : string -> Value -> Descriptor -> Descriptor)
    (results : list Descriptor) (index : nat) (value : Value) : list Descriptor :=
  let propertyIndex := (index mod List.length properties)%nat in
  let results := if (propertyIndex =? 0)%nat then results ++ [∅] else results in
  match properties !! propertyIndex with
  | Some property => alter (store property value) (List.length results - 1)%nat results
  | None => results
  end.

Definition regroup (properties : list string)
    (store : string -> Value -> Descriptor -> Descriptor) (values : list Value)
  : list Descriptor :=
  fold_left (fun results (entry : nat * Value) =>
               collect properties store results entry.1 entry.2)
            (imap (fun index value => (index, value)) values) [].

(** [result[property] = value] *)
Definition store_required (property : string) (value : Value) (result : Descriptor)
  : Descriptor :=
  <[property := value]> result.

Definition truthy (v : Value) : bool :=
  match v with
  | VUndefined | VNull => false
  | VBool b => b
  | VNum n => negb (n =? 0)
  | VStr s => negb (bool_decide (s = ""))
  | VArr _ | VObj _ => true
  end.

(** [if (value && value.hasOwnProperty(property)) result[property] =
    value[property]] *)
Definition owned (value : Value) (property : string) : option Value :=
  match truthy value, hasOwnProperty value property, get value property with
  | true, Ok true, Ok x => Some x
  | _, _, _ => None
  end.

Definition store_optional (property : string) (value : Value) (result : Descriptor)
  : Descriptor :=
  match owned value property with
  | Some x => <[property := x]> result
  | None => result
  end.

(** The object one reference's answers are gathered into. *)
Definition gather (properties : list string)
    (store : string -> Value -> Descriptor -> Descriptor)
    (answer : string -> Value) : Descriptor :=
  fold_left (fun result property => store property (answer property) result)
            properties ∅.

(** The document descriptor of the host, as far as the commands read it. *)
Record DocumentDescriptor := {
  doc_documentID : Z;
  doc_numberOfLayers : Z;
  doc_hasBackgroundLayer : bool
}.

(** The host: each call answers ([None] is a rejected promise).  With
    [continueOnError] the answer is the pair of results and errors, of which
    the command reads the results. *)
Record Host := {
  batchGetProperties : list RefObj -> option (list Value);
  batchGetPropertiesContinue : list RefObj -> option (list Value);
  playReorder : list Ref -> Ref -> option Value;
  getDocument : Ref -> option DocumentDescriptor;
  batchGetProperty : list (list Ref) -> string -> option (list Value)
}.

(** [_.assign(properties, optionalProperties)], where the second may be
    [undefined]. *)
Definition assign (properties : Descriptor) (optionalProperties : option Descriptor)
  : Descriptor :=
  match optionalProperties with
  | Some optionalProperties => optionalProperties ∪ properties
  | None => properties
  end.

Definition _getLayersByRef (host : Host) (references : list (list Ref))
  : option (list Descriptor) :=
  required ← batchGetProperties host (refObjsFor _layerProperties references);
  optional ← batchGetPropertiesContinue host
                (refObjsFor _optionalLayerProperties references);
  let allProperties := regroup _layerProperties store_required required in
  let allOptionalProperties :=
    regroup _optionalLayerProperties store_optional optional in
  Some (imap (fun index properties =>
                assign properties (allOptionalProperties !! index))
             allProperties).

(** The host answers position by position: the value at the place of a
    reference and a property is [required] (respectively [optional]) of the
    two. *)
Definition answers_in_order (host : Host)
    (required optional : list Ref -> string -> Value)
    (references : list (list Ref)) : Prop :=
  batchGetProperties host (refObjsFor _layerProperties references)
  = Some (map (fun ro => required (reference ro) (property ro))
              (refObjsFor _layerProperties references))
  /\ batchGetPropertiesContinue host (refObjsFor _optionalLayerProperties references)
     = Some (map (fun ro => optional (reference ro) (property ro))
                 (refObjsFor _optionalLayerProperties references)).

(** The payload of RESET_LAYERS. *)
Record ResetPayload := {
  reset_documentID : Z;
  reset_layers : list (Z * option Descriptor)
}.

(** The payload the command dispatches, if the host answered. *)
Definition resetLayersCommand (host : Host) (document : Document)
    (lyrs : list Layer) : option ResetPayload :=
  let layerRefs :=
    map (fun layer =>
           [ ref (documentLib_referenceBy_id (document_id document));
             ref (layerLib_referenceBy_id (layer_id layer)) ])
        lyrs in
  descriptors ← _getLayersByRef host layerRefs;
  Some {| reset_documentID := document_id document;
          reset_layers :=
            imap (fun index layer => (layer_id layer, descriptors !! index)) lyrs |}.

(** [_.range(start, stop, -1)]: from [start] down to just above [stop]. *)
Definition range_down (start stop : Z) : list Z :=
  map (fun i => start - Z.of_nat i) (seq 0 (Z.to_nat (start - stop))).

(** The references [_getLayerIDsForDocument] asks the layerID of, for a
    document descriptor with [numberOfLayers] and [hasBackgroundLayer]. *)
Definition layerIndexRefs (doc : DocumentDescriptor) : list (list Ref) :=
  let layerCount := doc_numberOfLayers doc in
  let startIndex := if doc_hasBackgroundLayer doc then 0 else 1 in
  map (fun i => [ ref (documentLib_referenceBy_id (doc_documentID doc));
                  layerLib_referenceBy_index i ])
      (range_down layerCount (startIndex - 1)).

(** What the reorder command issues, in order. *)
Inductive Call :=
  | PlayReorder (layerRef : list Ref) (targetRef : Ref)
  | GetDocument (reference : Ref)
  | BatchGetProperty (references : list (list Ref)) (property : string)
  | DispatchReorderLayers (documentID : Z) (layerIDs : list Value).

(** [layerSpec] is the list of layer IDs; a single ID is wrapped by the
    caller.  The references of [_getLayerIDsForDocument] are built from the
    document descriptor the host answers. *)
Definition reorderLayersCommand (host : Host) (documentID : Z)
    (layerSpec : list Z) (targetIndex : Z) : list Call :=
  let documentRef := ref (documentLib_referenceBy_id documentID) in
  let layerRef :=
    documentRef :: map (fun layerID => ref (layerLib_referenceBy_id layerID)) layerSpec in
  let targetRef := layerLib_referenceBy_index targetIndex in
  PlayReorder layerRef targetRef ::
    match playReorder host layerRef targetRef with
    | None => []
    | Some _ =>
        GetDocument documentRef ::
          match getDocument host documentRef with
          | None => []
          | Some doc =>
              let layerRefs := layerIndexRefs doc in
              BatchGetProperty layerRefs "layerID" ::
                match batchGetProperty host layerRefs "layerID" with
                | None => []
                | Some layerIDs => [DispatchReorderLayers documentID layerIDs]
                end
          end
    end.

(** A host that answers every property with its name (the optional ones
    wrapped in an object that owns them), and accepts every reordering. *)
Definition naming (ro : RefObj) : Value :=
  VStr (property ro).

Definition echo_host : Host :=
  {| batchGetProperties := fun ros => Some (map naming ros);
     batchGetPropertiesContinue :=
       fun ros => Some (map (fun ro => VObj [(property ro, naming ro)]) ros);
     playReorder := fun _ _ => Some VUndefined;
     getDocument := fun _ =>
       Some {| doc_documentID := 7; doc_numberOfLayers := 3;
               doc_hasBackgroundLayer := false |};
     batchGetProperty := fun refs _ => Some (map (fun _ => VNum 0) refs) |}.

(** A host that resolves every request with no value. *)
Definition silent_host : Host :=
  {| batchGetProperties := fun _ => Some [];
     batchGetPropertiesContinue := fun _ => Some [];
     playReorder := fun _ _ => Some VUndefined;
     getDocument := fun _ => None;
     batchGetProperty := fun _ _ => None |}.

End LayerQueries.

(* ===================================================================== *)
(** ** Menu bar: enable rules and updates of the menus *)
(* ===================================================================== *)

Module MenuBarUpdates.
Import MenuBar.

(** A segment of a menu item ID holds no dot. *)
Fixpoint dot_free (s : string) : bool :=
match s with
| EmptyString => true
| String c s' => negb (bool_decide (c = "."%char)) && dot_free s'
end.

(** The map of the roots answers, for an ID, the last root with that ID. *)
Definition indexed `{Collaborators} (mb : MenuBar) : Prop :=
  forall k, rootMap mb !! k = last_with item_id k (roots mb).

(** *** [_buildRuleResults] *)

Section Rules.
Context {L : Type} `{EqDecision L}.
(** [layer.isBackground] *)
Context (isBackground : L -> bool).

(** [document.layers], as far as the rules read it. *)
Record LayerTree := {
  selected : list L;
  selectedNormalized : list L;
  ancestors : L -> list L
}.

(** The current document model: its [layers] may be [null]. *)
Record DocumentModel := {
  doc_layers : option LayerTree
}.

(** [(document !== null) && (document.layers !== null) && p] *)
Definition with_layers (document : option DocumentModel) (p : LayerTree -> bool)
  : bool :=
  match document with
  | None => false
  | Some document =>
      match doc_layers document with
      | None => false
      | Some lyrs => p lyrs
      end
  end.

(** The object of rule results, its properties in the order they are
    written.  [openDocuments] is the object of the open documents as the
    list of its properties. *)
Definition _buildRuleResults (openDocuments : list (Z * DocumentModel))
    (document : option DocumentModel) : list (string * bool) :=
  [ ("always", true);
    ("have-document", match document with Some _ => true | None => false end);
    ("layer-selected",
     with_layers document
       (fun lyrs => negb (List.length (selected lyrs) =? 0)%nat));
    ("layers-selected-2",
     with_layers document
       (fun lyrs => (List.length (selectedNormalized lyrs) =? 2)%nat));
    ("layers-selected-2+",
     with_layers document
       (fun lyrs => (1 <? List.length (selectedNormalized lyrs))%nat));
    ("layers-selected-3+",
     with_layers document
       (fun lyrs => (2 <? List.length (selectedNormalized lyrs))%nat));
    ("no-background",
     with_layers document
       (fun lyrs => negb (existsb isBackground (selected lyrs))));
    ("no-nesting",
     with_layers document
       (fun lyrs =>
          negb (existsb
                  (fun layer =>
                     existsb (fun ancestor =>
                                negb (bool_decide (layer = ancestor))
                                && bool_decide (ancestor ∈ selected lyrs))
                             (ancestors lyrs layer))
                  (selected lyrs))));
    ("multiple-documents", (1 <? List.length openDocuments)%nat) ].

(** The result of a rule, [false] for a name that is no rule. *)
Definition holds (rules : list (string * bool)) (rule : string) : bool :=
  default false (assoc rule rules).

End Rules.

(** A menu bar of the small instance whose map of roots is filled from its
    roots. *)
Definition sample_roots : list (@MenuItem sample_collaborators) :=
  [sampleItem "FILE" None []; sample_window].

Definition sample_indexed_menubar : @MenuBar sample_collaborators :=
  {| id := VStr "MAIN";
     roots := sample_roots;
     enablers := ∅;
     actions := ∅;
     rootMap :=
       fold_left (fun m rootItem =>
                    <[@item_id sample_collaborators rootItem := rootItem]> m)
                 sample_roots ∅ |}.

(** A menu-actions tree with a label left among the descriptors. *)
Definition labelled_actions : Value :=
  VObj [("FILE", VObj [("label", VStr "File")])].

End MenuBarUpdates.

(* ===================================================================== *)
(** ** The ellipse tool *)
(* ===================================================================== *)

Module EllipseTool.

(** [UI.policyAction], [OS.eventKind] *)
Inductive PolicyAction := PROPAGATE_TO_BROWSER.
Inductive EventKind := KEY_DOWN.

(** The key of a policy: a character of the shortcuts table or a key code
    of the OS. *)
Inductive Key :=
  | KeyChar (c : string)
  | KeyCode (code : Z).

Record Modifiers := { shift : bool }.

Record KeyboardEventPolicy := {
  policy_action : PolicyAction;
  policy_eventKind : EventKind;
  policy_modifiers : option Modifiers;
  policy_key : Key
}.

(** The fields [Tool.call] and the constructor set. *)
Record Tool := {
  tool_id : string;
  nativeToolName : string;
  selectHandler : string;
  keyboardPolicyList : list KeyboardEventPolicy;
  activationKey : string;
  handleVectorMaskMode : bool
}.

(** [event.detail], as far as the handler reads it.  A property that is
    absent is [None]; [detail.modifiers.shift] is read only when the key
    character is the shape shortcut. *)
Record Detail := {
  keyChar : option string;
  keyCode : option Z;
  modifiers : option Modifiers
}.

(** The actions of the flux the handler calls. *)
Inductive ToolAction :=
  | tools_select (toolID : string)
  | tools_changeVectorMaskMode (mode : bool)
  | mask_handleDeleteVectorMask.

Section Tool.
(** [shortcuts.GLOBAL.TOOLS.SHAPE], [shortcuts.GLOBAL.TOOLS.ELLIPSE] and
    [OS.eventKeyCode.*], whose tables are elsewhere. *)
Context (SHAPE ELLIPSE : string) (ESCAPE DELETE BACKSPACE : Z).

Definition EllipseTool : Tool :=
  let shiftUKeyPolicy :=
    {| policy_action := PROPAGATE_TO_BROWSER; policy_eventKind := KEY_DOWN;
       policy_modifiers := Some {| shift := true |}; policy_key := KeyChar SHAPE |} in
  let escapeKeyPolicy :=
    {| policy_action := PROPAGATE_TO_BROWSER; policy_eventKind := KEY_DOWN;
       policy_modifiers := None; policy_key := KeyCode ESCAPE |} in
  let deleteKeyPolicy :=
    {| policy_action := PROPAGATE_TO_BROWSER; policy_eventKind := KEY_DOWN;
       policy_modifiers := None; policy_key := KeyCode DELETE |} in
  let backspaceKeyPolicy :=
    {| policy_action := PROPAGATE_TO_BROWSER; policy_eventKind := KEY_DOWN;
       policy_modifiers := None; policy_key := KeyCode BACKSPACE |} in
  {| tool_id := "ellipse";
     nativeToolName := "ellipseTool";
     selectHandler := "tool.ellipse.select";
     keyboardPolicyList :=
       [shiftUKeyPolicy; deleteKeyPolicy; backspaceKeyPolicy; escapeKeyPolicy];
     activationKey := ELLIPSE;
     handleVectorMaskMode := true |}.

(** The handler, as the actions it calls in order.  [getVectorMode] is
    what [toolStore.getVectorMode()] answers after the actions called so
    far: the handler asks it anew for each of its two tests. *)
Definition onKeyDown (getVectorMode : list ToolAction -> bool) (detail : Detail)
  : result (list ToolAction) :=
  selected ←
    (if bool_decide (keyChar detail = Some SHAPE)
     then match modifiers detail with
          | Some m => Ok (if shift m then [tools_select "rectangle"] else [])
          | None => TypeError
          end
     else Ok []);
  let escaped :=
    selected
    ++ (if getVectorMode selected && bool_decide (keyCode detail = Some ESCAPE)
        then [tools_changeVectorMaskMode false] else []) in
  Ok (escaped
      ++ (if getVectorMode escaped
             && (bool_decide (keyCode detail = Some DELETE)
                 || bool_decide (keyCode detail = Some BACKSPACE))
          then [mask_handleDeleteVectorMask] else [])).

End Tool.

(** A store that stays in vector mask mode until the mode is changed. *)
Definition until_changed (called : list ToolAction) : bool :=
  forallb (fun a => match a with tools_changeVectorMaskMode _ => false | _ => true end)
          called.

End EllipseTool.

(* ===================================================================== *)
(** ** Theorems: theme *)
(* ===================================================================== *)

Module ThemeFacts.
Import Theme.

Lemma font_size_standard (w : Z) :
  html_font_size 1 w =
    if w <? 801 then base_10 else if w <=? 1440 then base_8 else base_10.
Proof.
  unfold html_font_size, cascade, html_rules, matches; simpl.
  repeat match goal with
         | |- context [ ?a <=? ?b ] => destruct (Z.leb_spec a b)
         | |- context [ ?a <? ?b ] => destruct (Z.ltb_spec a b)
         end; simpl; try reflexivity; lia.
Qed.

Lemma font_size_retina (w : Z) :
  html_font_size 2 w =
    if w <? 801 then base_10
    else if w <=? 1440 then base_8
    else if w <=? 1680 then base_9
    else if w <=? 2560 then base_10
    else base_11.
Proof.
  unfold html_font_size, cascade, html_rules, matches; simpl.
  repeat match goal with
         | |- context [ ?a <=? ?b ] => destruct (Z.leb_spec a b)
         | |- context [ ?a <? ?b ] => destruct (Z.ltb_spec a b)
         end; simpl; try reflexivity; lia.
Qed.

Example font_size_samples :
  html_font_size 1 700 = 625 /\ html_font_size 1 1024 = 500
  /\ html_font_size 1 1680 = 625 /\ html_font_size 2 1680 = 563
  /\ html_font_size 2 2000 = 625 /\ html_font_size 2 2561 = 688.
Proof. repeat split. Qed.

Ltac split_widths :=
  repeat match goal with
         | |- context [ ?a <=? ?b ] => destruct (Z.leb_spec a b)
         | |- context [ ?a <? ?b ] => destruct (Z.ltb_spec a b)
         end.

(** C7. For pixel ratio 1 and for pixel ratio 2 the selected root font size
    is non-decreasing in the device width from 801px up, and on every width
    from 1441px to 1680px ratio 1 selects 62.5% while ratio 2 selects 56.3%. *)
Theorem C7_font_size_by_density :
  (forall ratio w1 w2 : Z,
      ratio = 1 \/ ratio = 2 ->
      801 <= w1 -> w1 <= w2 ->
      html_font_size ratio w1 <= html_font_size ratio w2)
  /\ (forall w : Z,
      1441 <= w <= 1680 ->
      html_font_size 1 w = 625 /\ html_font_size 2 w = 563).
Proof.
  split.
  - intros ratio w1 w2 [-> | ->] Hlo Hle.
    + rewrite !font_size_standard. unfold base_8, base_10.
      split_widths; lia.
    + rewrite !font_size_retina. unfold base_8, base_9, base_10, base_11.
      split_widths; lia.
  - intros w Hw. rewrite font_size_standard, font_size_retina.
    unfold base_8, base_9, base_10, base_11.
    split; split_widths; lia.
Qed.

Lemma C7_font_size_by_density_witness :
  html_font_size 2 1500 <= html_font_size 2 3000
  /\ html_font_size 1 1500 = 625 /\ html_font_size 2 1500 = 563.
Proof.
  destruct C7_font_size_by_density as [Hmono Hdens].
  split.
  - apply Hmono; [right; reflexivity | lia | lia].
  - apply Hdens; lia.
Defined.

End ThemeFacts.

(* ===================================================================== *)
(** ** Theorems: carousel *)
(* ===================================================================== *)

Module CarouselFacts.
Import Carousel.

Section Invariant.
Context {Item : Type} (props : Props Item).

Lemma next_index_wrap (st : State) :
  wrapNavigation props = true ->
  in_range props st ->
  index (_nextItem props st) = (index st + 1) mod length props.
Proof.
  unfold in_range, _nextItem; intros -> Hr; simpl.
  apply Z.rem_mod_nonneg; lia.
Qed.

Lemma prev_index_wrap (st : State) :
  wrapNavigation props = true ->
  in_range props st ->
  index (_prevItem props st) = (index st - 1) mod length props.
Proof.
  unfold in_range, _prevItem; intros -> Hr; simpl.
  destruct (Z.ltb_spec (index st - 1) 0); simpl.
  - apply Z.mod_unique with (q := -1); lia.
  - rewrite Z.mod_small by lia. lia.
Qed.

End Invariant.

(** C10. With a non-empty items list of length n and an index in [0, n),
    every navigation operation keeps 0 <= index < n: [_nextItem] and
    [_prevItem] wrap modulo n when wrapNavigation is set and clamp at the
    ends otherwise, [_gotoItem] with an argument in [0, n) sets an in-range
    index, and the initial index 0 is in range. *)
Theorem C10_navigation_keeps_index_in_range
    {Item : Type} (props : Props Item) (st : State) :
  items props <> [] ->
  in_range props st ->
  in_range props (_nextItem props st)
  /\ in_range props (_prevItem props st)
  /\ (wrapNavigation props = true ->
      index (_nextItem props st) = (index st + 1) mod length props
      /\ index (_prevItem props st) = (index st - 1) mod length props)
  /\ (wrapNavigation props = false ->
      index (_nextItem props st) = Z.min (index st + 1) (length props - 1)
      /\ index (_prevItem props st) = Z.max (index st - 1) 0)
  /\ (forall i, 0 <= i < length props ->
      in_range props (_gotoItem st i) /\ index (_gotoItem st i) = i)
  /\ in_range props getInitialState.
Proof.
  intros Hne Hr.
  assert (Hn : 0 < length props).
  { unfold length. destruct (items props); [congruence | simpl; lia]. }
  assert (Hwrap : wrapNavigation props = true ->
                  index (_nextItem props st) = (index st + 1) mod length props
                  /\ index (_prevItem props st) = (index st - 1) mod length props).
  { intros Hw. split; [by apply next_index_wrap | by apply prev_index_wrap]. }
  assert (Hclamp : wrapNavigation props = false ->
                   index (_nextItem props st) = Z.min (index st + 1) (length props - 1)
                   /\ index (_prevItem props st) = Z.max (index st - 1) 0).
  { intros Hw. unfold _nextItem, _prevItem. rewrite Hw. simpl. done. }
  unfold in_range in Hr.
  split; [| split; [| split; [exact Hwrap | split; [exact Hclamp | split]]]].
  - unfold in_range. destruct (wrapNavigation props) eqn:Hw.
    + destruct (Hwrap eq_refl) as [-> _]. apply Z.mod_pos_bound; lia.
    + destruct (Hclamp eq_refl) as [-> _]. lia.
  - unfold in_range. destruct (wrapNavigation props) eqn:Hw.
    + destruct (Hwrap eq_refl) as [_ ->]. apply Z.mod_pos_bound; lia.
    + destruct (Hclamp eq_refl) as [_ ->]. lia.
  - intros i Hi. unfold in_range. simpl. lia.
  - unfold in_range. simpl. lia.
Qed.

Example navigation_samples :
  index (_nextItem sample_props {| index := 2; direction := forward |}) = 0
  /\ index (_prevItem sample_props {| index := 0; direction := forward |}) = 2
  /\ index (_nextItem {| items := ["a"; "b"; "c"]; wrapNavigation := false |}
                      {| index := 2; direction := forward |}) = 2
  /\ index (_prevItem {| items := ["a"; "b"; "c"]; wrapNavigation := false |}
                      {| index := 0; direction := forward |}) = 0
  /\ direction (_prevItem sample_props {| index := 1; direction := forward |})
     = backward.
Proof. repeat split. Qed.

Lemma C10_navigation_keeps_index_in_range_witness :
  in_range sample_props (_nextItem sample_props {| index := 2; direction := forward |})
  /\ in_range sample_props (_prevItem sample_props {| index := 2; direction := forward |}).
Proof.
  destruct (C10_navigation_keeps_index_in_range sample_props
              {| index := 2; direction := forward |}) as (Hnext & Hprev & _).
  - discriminate.
  - unfold in_range, length. simpl. lia.
  - split; [exact Hnext | exact Hprev].
Defined.

End CarouselFacts.

(* ===================================================================== *)
(** ** Dictionaries filled by a loop of assignments *)
(* ===================================================================== *)

Section FoldInsert.
Context `{Countable K} {A V : Type} (key : A -> K) (val : A -> V).

Local Abbreviation assign_all l m :=
  (fold_left (fun acc a => <[key a := val a]> acc) l m).

Lemma lookup_assign_all_notin (l : list A) (m : gmap K V) (k : K) :
  k ∉ map key l -> assign_all l m !! k = m !! k.
Proof.
  revert m. induction l as [| x l IH]; intros m Hk; simpl; [done |].
  simpl in Hk. apply not_elem_of_cons in Hk as [Hne Hk].
  rewrite IH by done. by rewrite lookup_insert_ne.
Qed.

(** An assigned key holds the value of one of the elements with that key
    (the last one). *)
Lemma lookup_assign_all_in (l : list A) (m : gmap K V) (k : K) :
  k ∈ map key l ->
  exists x, x ∈ l /\ key x = k /\ assign_all l m !! k = Some (val x).
Proof.
  revert m. induction l as [| x l IH]; intros m Hk; simpl in *.
  - by apply elem_of_nil in Hk.
  - destruct (decide (k ∈ map key l)) as [Hin | Hnin].
    + destruct (IH (<[key x := val x]> m) Hin) as (y & Hy & Hky & Hl).
      exists y. split; [by apply list_elem_of_further | done].
    + apply elem_of_cons in Hk as [-> | Hk]; [| done].
      exists x. split; [apply list_elem_of_here |]. split; [done |].
      rewrite lookup_assign_all_notin by done. apply lookup_insert_eq.
Qed.

Lemma lookup_assign_all_nodup (l : list A) (m : gmap K V) (x : A) :
  NoDup (map key l) -> x ∈ l -> assign_all l m !! key x = Some (val x).
Proof.
  revert m. induction l as [| y l IH]; intros m Hnd Hx; simpl in *.
  - by apply elem_of_nil in Hx.
  - apply NoDup_cons in Hnd as [Hy Hnd].
    apply elem_of_cons in Hx as [-> | Hx].
    + rewrite lookup_assign_all_notin by done. apply lookup_insert_eq.
    + by apply IH.
Qed.

Lemma lookup_assign_all_is_Some (l : list A) (m : gmap K V) (k : K) :
  is_Some (assign_all l m !! k) <-> k ∈ map key l \/ is_Some (m !! k).
Proof.
  destruct (decide (k ∈ map key l)) as [Hin | Hnin].
  - destruct (lookup_assign_all_in l m k Hin) as (x & _ & _ & ->).
    split; [by left | by eexists].
  - rewrite lookup_assign_all_notin by done. split; [by right | by intros [? | ?]].
Qed.

Lemma lookup_assign_all_Some (l : list A) (k : K) (v : V) :
  assign_all l (∅ : gmap K V) !! k = Some v -> exists x, x ∈ l /\ key x = k /\ v = val x.
Proof.
  intros Hl. destruct (decide (k ∈ map key l)) as [Hin | Hnin].
  - destruct (lookup_assign_all_in l ∅ k Hin) as (x & Hx & Hk & Hv).
    exists x. split; [done |]. split; [done | congruence].
  - rewrite lookup_assign_all_notin in Hl by done.
    by rewrite lookup_empty in Hl.
Qed.

Lemma dom_assign_all (l : list A) (m : gmap K V) :
  dom (assign_all l m) = list_to_set (map key l) ∪ dom m.
Proof.
  apply set_eq; intros k.
  rewrite elem_of_dom, lookup_assign_all_is_Some, elem_of_union,
    elem_of_list_to_set, elem_of_dom. done.
Qed.

Lemma size_assign_all_nodup (l : list A) :
  NoDup (map key l) -> size (assign_all l (∅ : gmap K V)) = List.length l.
Proof.
  intros Hnd. rewrite <- size_dom, dom_assign_all, dom_empty_L.
  rewrite (right_id_L ∅ (∪)), size_list_to_set by done. apply length_map.
Qed.

End FoldInsert.

(** Elements of a list with distinct keys are told apart by their keys. *)
Lemma NoDup_fmap_eq {A B : Type} (f : A -> B) (l : list A) (x y : A) :
  NoDup (map f l) -> x ∈ l -> y ∈ l -> f x = f y -> x = y.
Proof.
  induction l as [| z l IH]; intros Hnd Hx Hy Hxy; simpl in Hnd.
  - by apply elem_of_nil in Hx.
  - apply NoDup_cons in Hnd as [Hz Hnd].
    apply elem_of_cons in Hx as [-> | Hx]; apply elem_of_cons in Hy as [-> | Hy].
    + done.
    + destruct Hz. rewrite Hxy. by apply (list_elem_of_fmap_2 f).
    + destruct Hz. rewrite <- Hxy. by apply (list_elem_of_fmap_2 f).
    + by apply IH.
Qed.

(** The last assignment to a key is the one that stays. *)
Section LastWins.
Context `{Countable K} {A V : Type} (key : A -> K) (val : A -> V).

Lemma last_with_snoc (k : K) (l : list A) (x : A) :
  last_with key k (l ++ [x])
  = if decide (key x = k) then Some x else last_with key k l.
Proof. unfold last_with. by rewrite fold_left_app. Qed.

Lemma last_with_Some (k : K) (l : list A) (x : A) :
  last_with key k l = Some x -> x ∈ l /\ key x = k.
Proof.
  induction l as [| y l IH] using rev_ind; [done |].
  rewrite last_with_snoc. destruct (decide (key y = k)) as [Hk | Hk].
  - intros [= <-]. split; [| done]. apply elem_of_app. right. apply list_elem_of_here.
  - intros Hl. destruct (IH Hl) as [Hin Hkey]. split; [| done].
    apply elem_of_app. by left.
Qed.

Lemma last_with_None (k : K) (l : list A) :
  last_with key k l = None <-> k ∉ map key l.
Proof.
  induction l as [| y l IH] using rev_ind.
  - split; [intros _ Hin; by apply elem_of_nil in Hin | done].
  - rewrite last_with_snoc, map_app. simpl.
    destruct (decide (key y = k)) as [Hk | Hk].
    + split; [done |]. intros Hnin. destruct Hnin. apply elem_of_app. right.
      rewrite Hk. apply list_elem_of_here.
    + rewrite IH. split.
      * intros Hnin Hin. apply elem_of_app in Hin as [Hin | Hin]; [done |].
        apply list_elem_of_singleton in Hin. congruence.
      * intros Hnin Hin. apply Hnin. apply elem_of_app. by left.
Qed.

(** After a loop of assignments a key holds the value of the last element
    with that key, or what it held before when there is none. *)
Lemma lookup_assign_all_last (l : list A) (m : gmap K V) (k : K) :
  fold_left (fun acc a => <[key a := val a]> acc) l m !! k
  = match last_with key k l with
    | Some x => Some (val x)
    | None => m !! k
    end.
Proof.
  induction l as [| y l IH] using rev_ind; [done |].
  rewrite fold_left_app, last_with_snoc. simpl.
  destruct (decide (key y = k)) as [<- | Hk].
  - apply lookup_insert_eq.
  - by rewrite lookup_insert_ne.
Qed.

Lemma assign_all_twice (l : list A) (m : gmap K V) :
  fold_left (fun acc a => <[key a := val a]> acc) l
    (fold_left (fun acc a => <[key a := val a]> acc) l m)
  = fold_left (fun acc a => <[key a := val a]> acc) l m.
Proof.
  apply map_eq. intros k. rewrite !lookup_assign_all_last.
  by destruct (last_with key k l).
Qed.

End LastWins.

(* ===================================================================== *)
(** ** Theorems: bounds store *)
(* ===================================================================== *)

Module BoundsStoreFacts.
Import BoundsStore.

Section Facts.
Context {Raw Bounds : Type} (newBounds : LayerObj Raw -> Bounds).

Local Abbreviation run := (run newBounds).
Local Abbreviation handle := (handle newBounds).
Local Abbreviation layerBoundsMap := (layerBoundsMap newBounds).

Lemma handle_reset (st : Store Bounds) (ev : Event Raw) :
  handle st ev = _resetDocumentLayerBounds newBounds st (payload_of ev).
Proof. by destruct ev. Qed.

Lemma run_snoc (evs : list (Event Raw)) (ev : Event Raw) :
  run (evs ++ [ev]) = handle (run evs) ev.
Proof. unfold BoundsStore.run. by rewrite fold_left_app. Qed.

Lemma handle_documentBounds (st : Store Bounds) (ev : Event Raw) :
  _documentBounds (handle st ev) = _documentBounds st.
Proof. by destruct ev. Qed.

Lemma run_documentBounds (evs : list (Event Raw)) :
  _documentBounds (run evs) = ∅.
Proof.
  induction evs as [| ev evs IH] using rev_ind; [done |].
  by rewrite run_snoc, handle_documentBounds.
Qed.

Lemma handle_layerBounds_is_Some (st : Store Bounds) (ev : Event Raw) (d : Z) :
  is_Some (_layerBounds (handle st ev) !! d)
  <-> d ∈ documentIDs (payload_of ev) \/ is_Some (_layerBounds st !! d).
Proof.
  rewrite handle_reset. simpl.
  apply (lookup_assign_all_is_Some
           (fun docObj : DocObj Raw => documentID (document docObj))
           (fun docObj => layerBoundsMap (layers docObj))).
Qed.

Lemma run_layerBounds_is_Some (evs : list (Event Raw)) (d : Z) :
  is_Some (_layerBounds (run evs) !! d) <-> processed d evs.
Proof.
  induction evs as [| ev evs IH] using rev_ind.
  - simpl. rewrite lookup_empty. split.
    + by intros [? ?].
    + intros (ev & Hev & _). by apply elem_of_nil in Hev.
  - rewrite run_snoc, handle_layerBounds_is_Some, IH. unfold processed.
    split.
    + intros [Hd | (ev' & Hev' & Hd)].
      * exists ev. split; [| done]. apply elem_of_app. right. apply list_elem_of_here.
      * exists ev'. split; [| done]. apply elem_of_app. by left.
    + intros (ev' & Hev' & Hd).
      apply elem_of_app in Hev' as [Hev' | Hev'].
      * right. by exists ev'.
      * apply list_elem_of_singleton in Hev' as ->. by left.
Qed.

(** What the handler stores for a document of the payload is built from
    the payload alone; when the payload repeats a document ID the last
    entry is the one stored. *)
Lemma reset_layerBounds_in (st : Store Bounds) (ev : Event Raw) (d : Z) :
  d ∈ documentIDs (payload_of ev) ->
  exists docObj,
    docObj ∈ documents (payload_of ev)
    /\ documentID (document docObj) = d
    /\ _layerBounds (handle st ev) !! d = Some (layerBoundsMap (layers docObj)).
Proof.
  intros Hd. rewrite handle_reset. simpl.
  apply (lookup_assign_all_in
           (fun docObj : DocObj Raw => documentID (document docObj))
           (fun docObj => layerBoundsMap (layers docObj))).
  exact Hd.
Qed.

(** C1. After any sequence of document-update events [getDocumentBounds]
    returns [undefined] for every document ID, those of the payloads
    included: the handler fills [_layerBounds] only and nothing ever
    assigns into [_documentBounds]. *)
Theorem C1_document_bounds_never_stored (evs : list (Event Raw)) (docID : Z) :
  getDocumentBounds (run evs) docID = None.
Proof.
  unfold getDocumentBounds. rewrite run_documentBounds. apply lookup_empty.
Qed.

Lemma layerBoundsMap_lookup (layerArray : list (LayerObj Raw)) (lID : Z) :
  layerBoundsMap layerArray !! lID = newBounds <$> last_with layerID lID layerArray.
Proof.
  unfold BoundsStore.layerBoundsMap.
  rewrite (lookup_assign_all_last layerID newBounds), lookup_empty.
  by destruct (last_with layerID lID layerArray).
Qed.

Lemma size_layerBoundsMap (layerArray : list (LayerObj Raw)) :
  size (layerBoundsMap layerArray)
  = List.length (remove_dups (map layerID layerArray)).
Proof.
  unfold BoundsStore.layerBoundsMap.
  rewrite <- size_dom, (dom_assign_all layerID newBounds), dom_empty_L.
  rewrite (right_id_L ∅ (∪)).
  rewrite <- (size_list_to_set (C := gset Z) (remove_dups (map layerID layerArray)))
    by apply NoDup_remove_dups.
  f_equal. apply set_eq. intros lID.
  by rewrite !elem_of_list_to_set, elem_of_remove_dups.
Qed.

(** C3 (as amended). Handling DOCUMENT_UPDATED or RESET_DOCUMENTS stores,
    for every document of the payload, a layer-bounds map built from the
    payload alone: that of the last payload entry with the document's ID,
    which is the document's own entry when the document IDs of the payload
    are distinct.  The map has one entry per distinct layer ID of that
    entry, from the ID to the Bounds built from the last layer descriptor
    with that ID; so when the layer IDs are distinct it has exactly one
    entry per payload layer, from its layerID to the Bounds built from its
    descriptor.  The maps of all other documents are untouched, and one
    "change" event is emitted. *)
Theorem C3_reset_replaces_layer_bounds (st : Store Bounds) (ev : Event Raw) :
  (forall docObj,
      docObj ∈ documents (payload_of ev) ->
      exists (lastObj : DocObj Raw) (boundsMap : gmap Z Bounds),
        last_with (fun docObj : DocObj Raw => documentID (document docObj))
                  (documentID (document docObj)) (documents (payload_of ev))
        = Some lastObj
        /\ (NoDup (documentIDs (payload_of ev)) -> lastObj = docObj)
        /\ _layerBounds (handle st ev) !! documentID (document docObj) = Some boundsMap
        /\ (forall lID,
              boundsMap !! lID = newBounds <$> last_with layerID lID (layers lastObj))
        /\ (forall lID, is_Some (boundsMap !! lID) <-> lID ∈ layerIDs lastObj)
        /\ size boundsMap = List.length (remove_dups (layerIDs lastObj))
        /\ (NoDup (layerIDs lastObj) ->
            size boundsMap = List.length (layers lastObj)
            /\ forall layerObj, layerObj ∈ layers lastObj ->
                 boundsMap !! layerID layerObj = Some (newBounds layerObj)))
  /\ (forall d, d ∉ documentIDs (payload_of ev) ->
        _layerBounds (handle st ev) !! d = _layerBounds st !! d)
  /\ emitted (handle st ev) = emitted st ++ ["change"%string]
  /\ _documentBounds (handle st ev) = _documentBounds st.
Proof.
  split; [| split; [| split]].
  - intros docObj Hin.
    set (d := documentID (document docObj)).
    destruct (last_with (fun docObj : DocObj Raw => documentID (document docObj)) d
                (documents (payload_of ev))) as [lastObj |] eqn:Hlast.
    2:{ apply (last_with_None (fun docObj : DocObj Raw => documentID (document docObj)))
          in Hlast.
        destruct Hlast.
        by apply (list_elem_of_fmap_2
                    (fun docObj : DocObj Raw => documentID (document docObj))). }
    exists lastObj, (layerBoundsMap (layers lastObj)).
    split; [done |]. split; [| split; [| split; [| split; [| split]]]].
    + intros Hnd.
      apply (last_with_Some (fun docObj : DocObj Raw => documentID (document docObj)))
        in Hlast as [Hlin Hlid].
      by apply (NoDup_fmap_eq
                  (fun docObj : DocObj Raw => documentID (document docObj))
                  (documents (payload_of ev))).
    + rewrite handle_reset. simpl.
      rewrite (lookup_assign_all_last
                 (fun docObj : DocObj Raw => documentID (document docObj))
                 (fun docObj => layerBoundsMap (layers docObj))).
      fold d. by rewrite Hlast.
    + apply layerBoundsMap_lookup.
    + intros lID. unfold BoundsStore.layerBoundsMap.
      rewrite (lookup_assign_all_is_Some layerID newBounds), lookup_empty.
      split; [intros [Hl | [? ?]]; done | by left].
    + apply size_layerBoundsMap.
    + intros Hnd. split.
      * by apply (size_assign_all_nodup layerID newBounds).
      * intros layerObj Hl.
        by apply (lookup_assign_all_nodup layerID newBounds).
  - intros d Hd. rewrite handle_reset. simpl.
    by apply (lookup_assign_all_notin
                (fun docObj : DocObj Raw => documentID (document docObj))
                (fun docObj => layerBoundsMap (layers docObj))).
  - by rewrite handle_reset.
  - apply handle_documentBounds.
Qed.

(** C8. [getLayerBounds] returns only for a document ID that appeared in
    an event the store processed: for such an ID the store holds a
    layer-bounds map and the call returns what that map holds for the layer
    ID ([undefined] for an unknown one); for any other ID the call indexes
    [undefined] and throws. *)
Theorem C8_getLayerBounds_needs_processed_document
    (evs : list (Event Raw)) (docID lID : Z) :
  (processed docID evs ->
     exists boundsMap : gmap Z Bounds,
       _layerBounds (run evs) !! docID = Some boundsMap
       /\ getLayerBounds (run evs) docID lID = Ok (boundsMap !! lID))
  /\ (~ processed docID evs ->
        _layerBounds (run evs) !! docID = None
        /\ getLayerBounds (run evs) docID lID = TypeError)
  /\ (is_Ok (getLayerBounds (run evs) docID lID) <-> processed docID evs).
Proof.
  pose proof (run_layerBounds_is_Some evs docID) as Hiff.
  unfold getLayerBounds.
  destruct (_layerBounds (run evs) !! docID) as [boundsMap |] eqn:Hlb.
  - assert (Hp : processed docID evs) by (apply Hiff; by eexists).
    split; [| split].
    + intros _. by exists boundsMap.
    + intros Hn. by destruct Hn.
    + simpl. done.
  - assert (Hn : ~ processed docID evs).
    { intros Hp. apply Hiff in Hp as [? ?]. congruence. }
    split; [| split].
    + intros Hp. by destruct Hn.
    + done.
    + simpl. split; [done | intros Hp; by destruct Hn].
Qed.

End Facts.

Example C1_document_bounds_undefined_after_update :
  getDocumentBounds (run (fun l : LayerObj unit => l) [sample_event]) 1 = None
  /\ getLayerBounds (run (fun l : LayerObj unit => l) [sample_event]) 1 7
     = Ok (Some {| layerID := 7; properties := () |}).
Proof. split; reflexivity. Qed.

(** C3 (as stated) fails when a layer ID is repeated: the document comes
    with two layer descriptors but its map has one entry, built from the
    second; the first descriptor has no entry of its own. *)
Lemma C3_counterexample_repeated_layer_id :
  exists boundsMap : gmap Z bool,
    _layerBounds (handle properties initialize repeated_event) !! 1 = Some boundsMap
    /\ size boundsMap = 1%nat
    /\ boundsMap !! 7 = Some true
    /\ ~ (forall layerObj : LayerObj bool,
            layerObj ∈ [ {| layerID := 7; properties := false |};
                         {| layerID := 7; properties := true |} ] ->
            boundsMap !! layerID layerObj = Some (properties layerObj)).
Proof.
  eexists. split; [reflexivity |]. split; [reflexivity |]. split; [reflexivity |].
  intros Hall.
  specialize (Hall {| layerID := 7; properties := false |} (list_elem_of_here _ _)).
  vm_compute in Hall. discriminate.
Qed.

Lemma C3_reset_replaces_layer_bounds_witness :
  emitted (handle (fun l : LayerObj unit => l) initialize sample_event)
  = ["change"%string]
  /\ exists boundsMap,
       _layerBounds (handle (fun l : LayerObj unit => l) initialize sample_event) !! 1
       = Some boundsMap
       /\ size boundsMap = 2%nat.
Proof.
  destruct (C3_reset_replaces_layer_bounds (fun l : LayerObj unit => l)
              initialize sample_event) as (Hdocs & _ & Hemit & _).
  split; [exact Hemit |].
  destruct (Hdocs _ (list_elem_of_here _ _))
    as (lastObj & boundsMap & Hlast & _ & Hm & _ & _ & Hsize & _).
  exists boundsMap. split; [exact Hm |].
  rewrite Hsize. vm_compute in Hlast. injection Hlast as <-. reflexivity.
Defined.

Lemma C8_getLayerBounds_needs_processed_document_witness :
  getLayerBounds (run (fun l : LayerObj unit => l) [sample_event]) 2 7 = TypeError
  /\ is_Ok (getLayerBounds (run (fun l : LayerObj unit => l) [sample_event]) 1 9).
Proof.
  split.
  - apply (C8_getLayerBounds_needs_processed_document
             (fun l : LayerObj unit => l) [sample_event] 2 7).
    intros (ev & Hev & Hd).
    apply list_elem_of_singleton in Hev as ->. simpl in Hd.
    apply list_elem_of_singleton in Hd. discriminate.
  - apply (C8_getLayerBounds_needs_processed_document
             (fun l : LayerObj unit => l) [sample_event] 1 9).
    exists sample_event. split; [apply list_elem_of_here |].
    simpl. apply list_elem_of_here.
Defined.

End BoundsStoreFacts.

(* ===================================================================== *)
(** ** Theorems: layer actions *)
(* ===================================================================== *)

Module LayersFacts.
Import Layers.

Section Facts.
Context (env : Environment).

Lemma effects_after (es : list Effect) (p : Promise) :
  effects (after es p) = es ++ effects p.
Proof. reflexivity. Qed.

Lemma effects_playObject_then (obj : PlayObject) (callback : Value -> Promise) :
  effects (then_ (descriptor_playObject env obj) callback)
  = PlayObjectCall obj ::
      match playObject env obj with
      | Some v => effects (callback v)
      | None => []
      end.
Proof.
  unfold descriptor_playObject, then_.
  destruct (playObject env obj) as [v |]; [| reflexivity].
  destruct (callback v) as [es r]. reflexivity.
Qed.

Lemma effects_selectLayer_plain (document : Document) (layerSpec : list Layer) :
  effects (selectLayerCommand env document layerSpec None)
  = [ NextTickDispatch SELECT_LAYERS_BY_ID
        [("documentID"%string, VNum (document_id document));
         ("selectedIDs"%string, pluck_id layerSpec)];
      PlayObjectCall
        (layerLib_select
           (documentLib_referenceBy_id (document_id document)
              :: map (fun layer => layerLib_referenceBy_id (layer_id layer)) layerSpec)
           false None) ].
Proof.
  unfold selectLayerCommand. rewrite effects_after, effects_playObject_then.
  simpl. by destruct (playObject env _).
Qed.

Lemma effects_unlockBackground (document : Document) (layer : Layer) :
  effects (_unlockBackgroundLayer env document layer)
  = PlayObjectCall (layerLib_unlockBackground (layer_id layer)) ::
      match playObject env (layerLib_unlockBackground (layer_id layer)) with
      | Some _ => [TransferUpdateDocument (document_id document)]
      | None => []
      end.
Proof. unfold _unlockBackgroundLayer. by rewrite effects_playObject_then. Qed.

(** C5. [renameLayer] schedules one dispatch, of RENAME_LAYER with the
    payload {documentID: document.id, layerID: layer.id, name: newName},
    and hands the host one play object: the rename descriptor of the
    references to that document and layer and of the same name.  The
    promise it returns is the host's. *)
Theorem C5_rename_dispatches_and_plays
    (document : Document) (layer : Layer) (newName : string) :
  let renameObj :=
    layerLib_rename [documentLib_referenceBy_id (document_id document);
                     layerLib_referenceBy_id (layer_id layer)] newName in
  effects (renameLayerCommand env document layer newName)
  = [ NextTickDispatch RENAME_LAYER
        [("documentID"%string, VNum (document_id document));
         ("layerID"%string, VNum (layer_id layer));
         ("name"%string, VStr newName)];
      PlayObjectCall renameObj ]
  /\ played (effects (renameLayerCommand env document layer newName)) = [renameObj]
  /\ filter (fun e => is_dispatch e = true)
            (effects (renameLayerCommand env document layer newName))
     = [ NextTickDispatch RENAME_LAYER
           [("documentID"%string, VNum (document_id document));
            ("layerID"%string, VNum (layer_id layer));
            ("name"%string, VStr newName)] ]
  /\ (renameLayerCommand env document layer newName).2 = playObject env renameObj.
Proof. repeat split. Qed.

(** C9. On a background layer [setLocking] hands the host the
    unlock-background play object, whatever [locked] is, and no
    set-locking play object; once the host has answered it transfers to
    the document update. *)
Theorem C9_setLocking_background_unlocks
    (document : Document) (layer : Layer) (locked : bool) :
  isBackground layer = true ->
  played (effects (setLockingCommand env document layer locked))
  = [layerLib_unlockBackground (layer_id layer)]
  /\ (forall ref l,
        PlayObjectCall (layerLib_setLocking ref l)
          ∉ effects (setLockingCommand env document layer locked))
  /\ (forall answer,
        playObject env (layerLib_unlockBackground (layer_id layer)) = Some answer ->
        effects (setLockingCommand env document layer locked)
        = [ NextTickDispatch LOCK_CHANGED
              [("documentID"%string, VNum (document_id document));
               ("layerID"%string, VNum (layer_id layer));
               ("locked"%string, VBool locked)];
            PlayObjectCall (layerLib_unlockBackground (layer_id layer));
            TransferUpdateDocument (document_id document) ]).
Proof.
  intros Hbg. unfold setLockingCommand. rewrite Hbg, effects_after, effects_unlockBackground.
  split; [| split].
  - simpl. by destruct (playObject env _).
  - intros ref l Hin. simpl in Hin.
    apply elem_of_cons in Hin as [Heq | Hin]; [discriminate |].
    apply elem_of_cons in Hin as [Heq | Hin]; [discriminate |].
    destruct (playObject env _).
    + apply list_elem_of_singleton in Hin. discriminate.
    + by apply elem_of_nil in Hin.
  - intros answer ->. reflexivity.
Qed.

Lemma marshals_and_dispatches_intro (p : Promise) (e1 e2 : Effect) :
  e1 ∈ effects p -> is_host_call e1 = true ->
  e2 ∈ effects p -> is_dispatch e2 = true ->
  marshals_and_dispatches p.
Proof. intros ????. split; eauto. Qed.

Lemma deselectAll_guarded (arg : DocumentArg) :
  if has_layers (resolveDocument env arg)
  then marshals_and_dispatches (deselectAllLayersCommand env arg)
  else effects (deselectAllLayersCommand env arg) = [].
Proof.
  unfold deselectAllLayersCommand, has_layers.
  destruct (resolveDocument env arg) as [document |]; [| reflexivity].
  destruct (bool_decide (all (layers document) = [])); simpl; [reflexivity |].
  eapply marshals_and_dispatches_intro.
  - apply list_elem_of_further, list_elem_of_here.
  - reflexivity.
  - apply list_elem_of_here.
  - reflexivity.
Qed.

Lemma selectAll_guarded (arg : DocumentArg) :
  if has_layers (resolveDocument env arg)
  then marshals_and_dispatches (selectAllLayersCommand env arg)
  else effects (selectAllLayersCommand env arg) = [].
Proof.
  unfold selectAllLayersCommand, has_layers.
  destruct (resolveDocument env arg) as [document |]; [| reflexivity].
  destruct (bool_decide (all (layers document) = [])); simpl; [reflexivity |].
  unfold marshals_and_dispatches. rewrite effects_selectLayer_plain.
  split; eexists.
  - split; [apply list_elem_of_further, list_elem_of_here | reflexivity].
  - split; [apply list_elem_of_here | reflexivity].
Qed.

Lemma deleteSelected_guarded (arg : DocumentArg) :
  if has_layers (resolveDocument env arg) && deletable (resolveDocument env arg)
  then marshals_and_dispatches (deleteSelectedLayersCommand env arg)
  else effects (deleteSelectedLayersCommand env arg) = [].
Proof.
  unfold deleteSelectedLayersCommand, has_layers, deletable.
  destruct (resolveDocument env arg) as [document |]; [| reflexivity].
  destruct (bool_decide (all (layers document) = [])); simpl; [reflexivity |].
  destruct (selectedLayersDeletable (layers document)); simpl; [| reflexivity].
  eapply marshals_and_dispatches_intro.
  - apply list_elem_of_further, list_elem_of_here.
  - reflexivity.
  - apply list_elem_of_here.
  - reflexivity.
Qed.

Lemma groupSelected_guarded (document : Document) :
  if bool_decide (selected (layers document) = [])
  then effects (groupSelectedLayersCommand env document) = []
  else
    played (effects (groupSelectedLayersCommand env document))
    = [layerLib_groupSelected]
    /\ if answered_with_descriptor (playObject env layerLib_groupSelected)
       then marshals_and_dispatches (groupSelectedLayersCommand env document)
       else effects (groupSelectedLayersCommand env document)
            = [PlayObjectCall layerLib_groupSelected].
Proof.
  unfold groupSelectedLayersCommand.
  destruct (bool_decide (selected (layers document) = [])); [reflexivity |].
  unfold marshals_and_dispatches. rewrite effects_playObject_then.
  destruct (playObject env layerLib_groupSelected) as [groupResult |];
    [| split; reflexivity].
  destruct groupResult; simpl; (split; [reflexivity |]); try reflexivity;
    (split; eexists;
     [split; [apply list_elem_of_here | reflexivity]
     |split; [apply list_elem_of_further, list_elem_of_here | reflexivity]]).
Qed.

Lemma has_layers_Some (document : Document) :
  all (layers document) ≠ [] -> bool_decide (all (layers document) = []) = false.
Proof. intros Hne. by apply bool_decide_eq_false. Qed.

Lemma has_layers_false (arg : DocumentArg) :
  has_layers (resolveDocument env arg) = false ->
  match resolveDocument env arg with
  | Some document => bool_decide (all (layers document) = []) = true
  | None => True
  end.
Proof.
  unfold has_layers. destruct (resolveDocument env arg) as [document |]; [| done].
  by intros Hno%negb_false_iff.
Qed.

(** C2 (as amended). deselectAll, selectAll and deleteSelected work on the
    document they are given, or on the current one when none is given, and
    first check that there is such a document and that it has layers,
    deleteSelected also that the selected layers are deletable;
    groupSelected works on the document it is given and first checks that
    its selection is not empty.  When the check fails the command returns
    a resolved promise and issues no host call and no dispatch.  When it
    passes, deselectAll, selectAll and deleteSelected schedule their
    dispatch on the next tick and then issue their host call, and
    groupSelected plays the group object and, once the host has answered
    with a descriptor, dispatches GROUP_SELECTED with what it reads from
    the answer; it dispatches nothing when the host rejects or answers
    [undefined] or [null]. *)
Theorem C2_guarded_commands_marshal_and_dispatch
    (arg : DocumentArg) (document : Document) :
  (has_layers (resolveDocument env arg) = false ->
   deselectAllLayersCommand env arg = Promise_resolve
   /\ selectAllLayersCommand env arg = Promise_resolve
   /\ deleteSelectedLayersCommand env arg = Promise_resolve)
  /\ (deletable (resolveDocument env arg) = false ->
      deleteSelectedLayersCommand env arg = Promise_resolve)
  /\ (forall doc,
        resolveDocument env arg = Some doc ->
        all (layers doc) ≠ [] ->
        (deselectAllLayersCommand env arg
         = ([ NextTickDispatch SELECT_LAYERS_BY_ID
                [("documentID"%string, VNum (document_id doc));
                 ("selectedIDs"%string, VArr [])];
              PlayObjectCall layerLib_deselectAll ],
            playObject env layerLib_deselectAll)
         /\ marshals_and_dispatches (deselectAllLayersCommand env arg))
        /\ (effects (selectAllLayersCommand env arg)
            = [ NextTickDispatch SELECT_LAYERS_BY_ID
                  [("documentID"%string, VNum (document_id doc));
                   ("selectedIDs"%string, pluck_id (all (layers doc)))];
                PlayObjectCall
                  (layerLib_select
                     (documentLib_referenceBy_id (document_id doc)
                        :: map (fun layer => layerLib_referenceBy_id (layer_id layer))
                               (all (layers doc)))
                     false None) ]
            /\ marshals_and_dispatches (selectAllLayersCommand env arg))
        /\ (selectedLayersDeletable (layers doc) = true ->
            let options :=
              {| historyStateInfo :=
                   {| name := DELETE_LAYERS;
                      target := documentLib_referenceBy_id (document_id doc) |} |} in
            deleteSelectedLayersCommand env arg
            = ([ NextTickDispatch DELETE_SELECTED
                   [("documentID"%string, VNum (document_id doc));
                    ("layerIDs"%string, pluck_id (allSelected (layers doc)))];
                 PlayWithLockOverride doc (allSelected (layers doc))
                   (layerLib_delete layerLib_referenceBy_current) options true ],
               playWithLockOverride env doc (allSelected (layers doc))
                 (layerLib_delete layerLib_referenceBy_current) options true)
            /\ marshals_and_dispatches (deleteSelectedLayersCommand env arg)))
  /\ (selected (layers document) = [] ->
      groupSelectedLayersCommand env document = Promise_resolve)
  /\ (selected (layers document) ≠ [] ->
      played (effects (groupSelectedLayersCommand env document))
      = [layerLib_groupSelected]
      /\ (forall groupResult,
            playObject env layerLib_groupSelected = Some groupResult ->
            groupResult ≠ VUndefined -> groupResult ≠ VNull ->
            exists groupID groupEndID groupname,
              get groupResult "layerSectionStart" = Ok groupID
              /\ get groupResult "layerSectionEnd" = Ok groupEndID
              /\ get groupResult "name" = Ok groupname
              /\ effects (groupSelectedLayersCommand env document)
                 = [ PlayObjectCall layerLib_groupSelected;
                     Dispatch GROUP_SELECTED
                       [("documentID"%string, VNum (document_id document));
                        ("groupID"%string, groupID);
                        ("groupEndID"%string, groupEndID);
                        ("groupname"%string, groupname)] ]
              /\ marshals_and_dispatches (groupSelectedLayersCommand env document))
      /\ (answered_with_descriptor (playObject env layerLib_groupSelected) = false ->
          effects (groupSelectedLayersCommand env document)
          = [PlayObjectCall layerLib_groupSelected])).
Proof.
  split; [| split; [| split; [| split]]].
  - intros Hno. apply has_layers_false in Hno.
    unfold deselectAllLayersCommand, selectAllLayersCommand,
      deleteSelectedLayersCommand.
    destruct (resolveDocument env arg) as [doc |]; [| done].
    by rewrite Hno.
  - unfold deletable, deleteSelectedLayersCommand.
    destruct (resolveDocument env arg) as [doc |]; [| done].
    intros ->. by rewrite orb_true_r.
  - intros doc Hdoc Hlayers. apply has_layers_Some in Hlayers.
    split; [| split].
    + pose proof (deselectAll_guarded arg) as Hm. revert Hm.
      unfold has_layers, deselectAllLayersCommand. rewrite Hdoc, Hlayers. done.
    + pose proof (selectAll_guarded arg) as Hm. revert Hm.
      unfold has_layers, selectAllLayersCommand. rewrite Hdoc, Hlayers. simpl.
      intros Hm. split; [apply effects_selectLayer_plain | done].
    + intros Hdel options. pose proof (deleteSelected_guarded arg) as Hm. revert Hm.
      unfold has_layers, deletable, deleteSelectedLayersCommand.
      rewrite Hdoc, Hlayers, Hdel. done.
  - unfold groupSelectedLayersCommand. intros ->. reflexivity.
  - intros Hsel.
    assert (Hsel' : bool_decide (selected (layers document) = []) = false)
      by (by apply bool_decide_eq_false).
    clear Hsel. rename Hsel' into Hsel.
    pose proof (groupSelected_guarded document) as Hm. rewrite Hsel in Hm.
    destruct Hm as [Hplayed Hm]. split; [done |]. split.
    + intros groupResult Hanswer Hu Hn. rewrite Hanswer in Hm. 
      assert (Hdesc : answered_with_descriptor (Some groupResult) = true)
        by (by destruct groupResult).
      rewrite Hdesc in Hm.
      unfold groupSelectedLayersCommand. rewrite Hsel.
      rewrite effects_playObject_then, Hanswer.
      destruct groupResult as [| | bv | n | sv | xs | ps]; try done;
        eexists _, _, _; (split; [reflexivity |]); (split; [reflexivity |]);
        (split; [reflexivity |]); (split; [reflexivity |]);
        revert Hm; unfold groupSelectedLayersCommand; by rewrite Hsel.
    + intros Hno. by rewrite Hno in Hm.
Qed.

End Facts.

Lemma not_marshals_nil (p : Promise) :
  effects p = [] -> ~ marshals_and_dispatches p.
Proof.
  intros Hnil [(e & Hin & _) _]. rewrite Hnil in Hin. by apply elem_of_nil in Hin.
Qed.

(** C2 (as stated) fails: with no document open, or on a flat document,
    the four commands issue no host call and no dispatch. *)
Lemma C2_counterexample_nothing_to_do :
  ~ marshals_and_dispatches (deselectAllLayersCommand (quiet None) Omitted)
  /\ ~ marshals_and_dispatches (selectAllLayersCommand (quiet None) (Given flat_document))
  /\ ~ marshals_and_dispatches (deleteSelectedLayersCommand (quiet None) (Given flat_document))
  /\ ~ marshals_and_dispatches (groupSelectedLayersCommand (quiet None) flat_document).
Proof. repeat split; apply not_marshals_nil; reflexivity. Qed.

Example C2_sample_runs :
  marshals_and_dispatches (deselectAllLayersCommand (quiet None) (Given sample_document))
  /\ marshals_and_dispatches (selectAllLayersCommand (quiet (Some sample_document)) Omitted)
  /\ marshals_and_dispatches (deleteSelectedLayersCommand (quiet None) (Given sample_document))
  /\ marshals_and_dispatches (groupSelectedLayersCommand (grouping None) sample_document).
Proof.
  split; [apply (deselectAll_guarded (quiet None) (Given sample_document)) |].
  split; [apply (selectAll_guarded (quiet (Some sample_document)) Omitted) |].
  split; [apply (deleteSelected_guarded (quiet None) (Given sample_document)) |].
  pose proof (groupSelected_guarded (grouping None) sample_document) as H.
  simpl in H. apply H.
Qed.

Lemma C9_setLocking_background_unlocks_witness :
  played (effects (setLockingCommand (quiet None) sample_document sample_background true))
  = [layerLib_unlockBackground 1]
  /\ effects (setLockingCommand (quiet None) sample_document sample_background true)
     = [ NextTickDispatch LOCK_CHANGED
           [("documentID"%string, VNum 5); ("layerID"%string, VNum 1);
            ("locked"%string, VBool true)];
         PlayObjectCall (layerLib_unlockBackground 1);
         TransferUpdateDocument 5 ].
Proof.
  destruct (C9_setLocking_background_unlocks (quiet None) sample_document
              sample_background true eq_refl) as (Hplayed & _ & Hall).
  split; [exact Hplayed | exact (Hall VUndefined eq_refl)].
Defined.

End LayersFacts.

(* ===================================================================== *)
(** ** Theorems: menu bar, open documents *)
(* ===================================================================== *)

Module OpenDocumentsFacts.
Import MenuBar.

Section Facts.
Context `{Collaborators}.

Lemma getMenuItem_root (mb : MenuBar) :
  getMenuItem mb "WINDOW" = rootMap mb !! "WINDOW".
Proof. reflexivity. Qed.

#[local] Instance openDocumentID_inj :
  Inj (=) (=) (fun index => KStr (openDocumentID index)).
Proof.
  intros i j Hij. apply (f_equal key_string) in Hij.
  change (openDocumentID i = openDocumentID j) in Hij.
  unfold openDocumentID in Hij.
  apply (inj (String.app "WINDOW.OPEN_DOCUMENT.")) in Hij.
  by apply (inj pretty) in Hij.
Qed.

Lemma indexed_keys (docs : list Document) :
  map (fun entry : nat * Document => KStr (openDocumentID entry.1))
      (imap (fun index document => (index, document)) docs)
  = (fun index => KStr (openDocumentID index)) <$> seq 0 (List.length docs).
Proof.
  change (map ?f ?l) with (f <$> l).
  rewrite fmap_imap.
  rewrite <- (imap_seq_0 docs (fun index => KStr (openDocumentID index))).
  reflexivity.
Qed.

Lemma newActions_lookup (acts : gmap Key Action) (docs : list Document)
    (i : nat) (document : Document) :
  docs !! i = Some document ->
  fold_left (fun newActions (entry : nat * Document) =>
               <[KStr (openDocumentID entry.1) := selectDocumentAction entry.2]>
                 newActions)
            (imap (fun index document => (index, document)) docs) acts
    !! KStr (openDocumentID i)
  = Some (selectDocumentAction document).
Proof.
  intros Hi.
  apply (lookup_assign_all_nodup
           (fun entry : nat * Document => KStr (openDocumentID entry.1))
           (fun entry : nat * Document => selectDocumentAction entry.2)
           _ _ (i, document)).
  - rewrite indexed_keys. apply NoDup_fmap_2; [apply _ | apply NoDup_seq].
  - by apply (elem_of_lookup_imap_2 (fun index document => (index, document))).
Qed.

Lemma newActions_lookup_other (acts : gmap Key Action) (docs : list Document)
    (k : Key) :
  (forall i, (i < List.length docs)%nat -> k ≠ KStr (openDocumentID i)) ->
  fold_left (fun newActions (entry : nat * Document) =>
               <[KStr (openDocumentID entry.1) := selectDocumentAction entry.2]>
                 newActions)
            (imap (fun index document => (index, document)) docs) acts
    !! k
  = acts !! k.
Proof.
  intros Hk.
  apply (lookup_assign_all_notin
           (fun entry : nat * Document => KStr (openDocumentID entry.1))
           (fun entry : nat * Document => selectDocumentAction entry.2)).
  rewrite indexed_keys. intros Hin.
  apply list_elem_of_fmap in Hin as (i & -> & Hi).
  apply elem_of_seq in Hi. apply (Hk i); [lia | done].
Qed.

(** C6. [updateOpenDocuments] builds one WINDOW.OPEN_DOCUMENT.<i> item per
    open document, in enumeration order, after the items of the WINDOW menu
    that precede the open-document entries.  The items at the indices below
    9 carry a shortcut, of key (i+1) and the command+option modifiers; the
    later ones carry none.  An item is checked, 1, exactly when its document
    is the current one, and 0 otherwise.  The actions map takes, for every
    i, the entry from WINDOW.OPEN_DOCUMENT.<i> to documents.selectDocument
    with the document as payload; the other entries stay. *)
Theorem C6_open_documents_menu (mb : MenuBar) (documents : list (Z * Document))
    (currentDocument : option Document) (windowMenu : MenuItem) :
  rootMap mb !! "WINDOW" = Some windowMenu ->
  exists (mb' : MenuBar) (descriptors : list ItemDescriptor.t),
    updateOpenDocuments mb documents currentDocument = Ok mb'
    /\ rootMap mb' !! "WINDOW"
       = Some (merge_submenu windowMenu
                 (takeUntil (fun item =>
                               String.prefix "WINDOW.OPEN_DOCUMENT." (item_id item))
                            (submenu windowMenu)
                  ++ map MenuItem_new descriptors))
    /\ List.length descriptors = List.length documents
    /\ (forall (i : nat) (key : Z) (document : Document),
          documents !! i = Some (key, document) ->
          exists descriptor : ItemDescriptor.t,
            descriptors !! i = Some descriptor
            /\ ItemDescriptor.id descriptor = "WINDOW.OPEN_DOCUMENT." +:+ pretty i
            /\ ItemDescriptor.command descriptor = "WINDOW.OPEN_DOCUMENT." +:+ pretty i
            /\ ItemDescriptor.label descriptor = document_name document
            /\ ((i < 9)%nat ->
                ItemDescriptor.shortcut descriptor
                = Some {| ItemDescriptor.keyChar := pretty (i + 1)%nat;
                          ItemDescriptor.modifiers :=
                            modifiersToBits [("command", true); ("option", true)] |})
            /\ ((9 <= i)%nat -> ItemDescriptor.shortcut descriptor = None)
            /\ (ItemDescriptor.checked descriptor = 1 <-> currentDocument = Some document)
            /\ (ItemDescriptor.checked descriptor = 0 <-> currentDocument ≠ Some document)
            /\ actions mb' !! KStr ("WINDOW.OPEN_DOCUMENT." +:+ pretty i)
               = Some {| _action := VStr "documents.selectDocument";
                         _payload := Some (DocumentPayload document) |})
    /\ (forall k : Key,
          (forall i, (i < List.length documents)%nat ->
                     k ≠ KStr ("WINDOW.OPEN_DOCUMENT." +:+ pretty i)) ->
          actions mb' !! k = actions mb !! k).
Proof.
  intros Hwindow. unfold updateOpenDocuments.
  rewrite getMenuItem_root, Hwindow.
  eexists. exists (imap (openDocumentDescriptor currentDocument) (map snd documents)).
  split; [reflexivity |]. simpl.
  split; [| split; [| split]].
  - rewrite lookup_insert_eq. do 3 f_equal.
    change (map ?f ?l) with (f <$> l). by rewrite fmap_imap.
  - by rewrite length_imap, length_map.
  - intros i key document Hi.
    assert (Hdoc : map snd documents !! i = Some document).
    { change (map ?f ?l) with (f <$> l). by rewrite list_lookup_fmap, Hi. }
    exists (openDocumentDescriptor currentDocument i document).
    split; [by rewrite list_lookup_imap, Hdoc |].
    split; [reflexivity |]. split; [reflexivity |]. split; [reflexivity |].
    split; [| split; [| split; [| split]]].
    + intros Hlt. simpl. apply Nat.ltb_lt in Hlt. rewrite Hlt.
      unfold _switchDocModifiersMac, _switchDocModifiersWin. by destruct isMac.
    + intros Hge. simpl. apply Nat.ltb_ge in Hge. by rewrite Hge.
    + simpl. destruct (decide (currentDocument = Some document)); split; done.
    + simpl. destruct (decide (currentDocument = Some document)); split; done.
    + by apply newActions_lookup.
  - intros k Hk. apply newActions_lookup_other.
    intros i Hi. apply Hk. by rewrite length_map in Hi.
Qed.

End Facts.

#[local] Existing Instance sample_collaborators.

Lemma C6_open_documents_menu_witness :
  exists mb' : MenuBar,
    updateOpenDocuments sample_menubar [(3, "a.psd"); (7, "b.psd")] (Some "b.psd")
    = Ok mb'
    /\ actions mb' !! KStr "WINDOW.OPEN_DOCUMENT.1"
       = Some {| _action := VStr "documents.selectDocument";
                 _payload := Some (DocumentPayload ("b.psd" : Document)) |}.
Proof.
  destruct (C6_open_documents_menu sample_menubar [(3, "a.psd"); (7, "b.psd")]
              (Some "b.psd") sample_window)
    as (mb' & descriptors & Hrun & _ & _ & Hitems & _).
  - reflexivity.
  - exists mb'. split; [exact Hrun |].
    destruct (Hitems 1%nat 7 "b.psd" eq_refl) as (descriptor & _ & _ & _ & _ & _ & _ & _ & _ & Hact).
    exact Hact.
Defined.

End OpenDocumentsFacts.

(* ===================================================================== *)
(** ** Theorems: menu bar, menu actions *)
(* ===================================================================== *)

Module MenuActionsFacts.
Import MenuBar.

(** Unfold the sequencing of [result]. *)
Ltac run_result := unfold mbind, result_bind; simpl.

Lemma bind_Ok {A B : Type} (a : A) (k : A -> result B) : (Ok a ≫= k) = k a.
Proof. reflexivity. Qed.

Lemma bind_TypeError {A B : Type} (k : A -> result B) : (TypeError ≫= k) = TypeError.
Proof. reflexivity. Qed.

Lemma bind_RangeError {A B : Type} (k : A -> result B) : (RangeError ≫= k) = RangeError.
Proof. reflexivity. Qed.

Lemma bind_ErrorThrown {A B : Type} (message : string) (k : A -> result B) :
  (ErrorThrown message ≫= k) = ErrorThrown message.
Proof. reflexivity. Qed.

(** Run the sequencing where the outcome of the first step is known. *)
Ltac bind_simpl :=
  repeat (rewrite bind_Ok || rewrite bind_TypeError
          || rewrite bind_RangeError || rewrite bind_ErrorThrown).

Lemma concat_map_result_Ok_inv {A B : Type} (f : A -> result (list B))
    (es : list A) (l : list B) :
  concat_map_result f es = Ok l ->
  (forall e, e ∈ es -> exists le, f e = Ok le /\ forall x, x ∈ le -> x ∈ l)
  /\ (forall x, x ∈ l -> exists e le, e ∈ es /\ f e = Ok le /\ x ∈ le).
Proof.
  revert l. induction es as [| e es IH]; intros l Hl; simpl in Hl.
  - injection Hl as <-. split.
    + intros e He. by apply elem_of_nil in He.
    + intros x Hx. by apply elem_of_nil in Hx.
  - revert Hl. run_result.
    destruct (f e) as [le | | |] eqn:Hfe; try discriminate.
    destruct (concat_map_result f es) as [l' | | |] eqn:Hes; try discriminate.
    intros [= <-]. destruct (IH l' eq_refl) as [IH1 IH2]. split.
    + intros e' He'. apply elem_of_cons in He' as [-> | He'].
      * exists le. split; [done |]. intros x Hx. apply elem_of_app. by left.
      * destruct (IH1 e' He') as (le' & Hfe' & Hsub).
        exists le'. split; [done |]. intros x Hx. apply elem_of_app. right. auto.
    + intros x Hx. apply elem_of_app in Hx as [Hx | Hx].
      * exists e, le. split; [apply list_elem_of_here | done].
      * destruct (IH2 x Hx) as (e' & le' & He' & Hfe' & Hx').
        exists e', le'. split; [by apply list_elem_of_further | done].
Qed.

Lemma concat_map_result_is_Ok {A B : Type} (f : A -> result (list B)) (es : list A) :
  (forall e, e ∈ es -> is_Ok (f e)) -> is_Ok (concat_map_result f es).
Proof.
  induction es as [| e es IH]; intros Hes; simpl; [done |].
  run_result.
  pose proof (Hes e (list_elem_of_here _ _)) as He.
  destruct (f e); try done.
  assert (Hrest : is_Ok (concat_map_result f es)).
  { apply IH. intros e' He'. apply Hes. by apply list_elem_of_further. }
  destruct (concat_map_result f es); done.
Qed.

Section Facts.
Context `{Collaborators}.

(** *** Descriptors *)

Lemma ruleArray_Ok (d : Value) (rules : list string) :
  ruleArray d = Ok rules ->
  rules = enable_rules d
  /\ exists has, hasOwnProperty d "$action" = Ok has
                 /\ (has = true <-> has_action d)
                 /\ menuAction d = Ok (behavior d).
Proof.
  unfold ruleArray, menuAction, enable_rules, has_action, behavior.
  destruct d as [| | b | n | s | xs | ps]; run_result; try discriminate;
    try (intros [= <-]; split; [done |]; exists false; by repeat split).
  destruct (assoc "$enable-rule" ps) as [rule |] eqn:Hrule; simpl.
  - intros Hr.
    assert (Hrules : rules = match rule with VStr r => split_on ","%char r | _ => [] end).
    { destruct rule; simpl in Hr; try discriminate; by injection Hr as <-. }
    assert (Hstr : exists r, rule = VStr r).
    { destruct rule; simpl in Hr; try discriminate. by eexists. }
    destruct Hstr as [r ->]. split; [done |].
    exists (bool_decide (is_Some (assoc "$action" ps))).
    split; [done |]. split; [apply bool_decide_eq_true |].
    destruct (assoc "$payload" ps); simpl; done.
  - intros [= <-]. split; [done |].
    exists (bool_decide (is_Some (assoc "$action" ps))).
    split; [done |]. split; [apply bool_decide_eq_true |].
    destruct (assoc "$payload" ps); simpl; done.
Qed.

Lemma visit_of_Ok (id : Key) (d : Value) (v : Visit) :
  visit_of id d = Ok v ->
  visit_id v = id
  /\ visit_descriptor v = d
  /\ visit_rules v = enable_rules d
  /\ is_Ok (ruleArray d)
  /\ (visit_action v = None -> hasOwnProperty d "$action" = Ok false /\ ~ has_action d)
  /\ (forall a, visit_action v = Some a ->
        hasOwnProperty d "$action" = Ok true /\ has_action d /\ a = behavior d).
Proof.
  unfold visit_of. run_result.
  destruct (ruleArray d) as [rules | | |] eqn:Hr; try discriminate.
  destruct (ruleArray_Ok d rules Hr) as (-> & has & Hhas & Hiff & Hact).
  rewrite Hhas, Hact. destruct has; simpl; intros [= <-]; simpl.
  - split; [done |]. split; [done |]. split; [done |]. split; [done |].
    split; [discriminate |].
    intros act [= <-]. split; [done |]. split; [by apply Hiff | done].
  - split; [done |]. split; [done |]. split; [done |]. split; [done |].
    split; [| discriminate].
    intros _. split; [done |]. intros Ha. apply Hiff in Ha. discriminate.
Qed.

Lemma visit_of_is_Ok (id : Key) (d : Value) :
  is_Ok (ruleArray d) -> is_Ok (visit_of id d).
Proof.
  intros Hok. unfold visit_of. run_result.
  destruct (ruleArray d) as [rules | | |] eqn:Hr; try done.
  destruct (ruleArray_Ok d rules Hr) as (_ & has & -> & _ & ->).
  by destruct has.
Qed.

(** *** The traversal performs the assignments of its visits *)

Lemma assigned_nil (maps : Maps) : assigned [] maps = maps.
Proof. by destruct maps. Qed.

Lemma assigned_app (l1 l2 : list Visit) (maps : Maps) :
  assigned (l1 ++ l2) maps = assigned l2 (assigned l1 maps).
Proof.
  unfold assigned, action_assignments. simpl.
  by rewrite omap_app, !fold_left_app.
Qed.

Lemma assigned_cons (v : Visit) (l : list Visit) (maps : Maps) :
  assigned (v :: l) maps = assigned l (assigned [v] maps).
Proof. apply (assigned_app [v] l). Qed.

Lemma fold_left_fixed {A E : Type} (f : A -> E -> A) (a : A) (es : list E) :
  (forall e, f a e = a) -> fold_left f es a = a.
Proof. intros Hf. induction es as [| e es IH]; simpl; [done |]. by rewrite Hf. Qed.

Lemma process_visits (stack : nat) :
  forall (raw : Value) (maps : Maps) (prefix : option Key),
    _processMenuActions stack raw maps prefix
    = l ← visits stack raw prefix; Ok (assigned l maps).
Proof.
  induction stack as [| stack IH]; intros raw maps prefix; [reflexivity |].
  simpl. generalize (entries raw). intros es. revert maps.
  induction es as [| [prop d] es IHes]; intros maps.
  - simpl. bind_simpl. by rewrite assigned_nil.
  - simpl fold_left. simpl concat_map_result. cbv beta iota. simpl fst. simpl snd.
    unfold visit_of. bind_simpl.
    destruct (ruleArray d) as [rules | | |] eqn:Hr; bind_simpl;
      try (by apply fold_left_fixed).
    destruct (ruleArray_Ok d rules Hr) as (_ & has & Hhas & _ & Hact).
    rewrite Hhas. bind_simpl. destruct has.
    + rewrite Hact. bind_simpl. simpl visit_action. cbv iota. bind_simpl.
      rewrite IHes.
      destruct (concat_map_result _ es) as [l | | |]; bind_simpl; try done;
        by rewrite (assigned_app [_] l).
    + bind_simpl. simpl visit_action. cbv iota.
      destruct (bool_decide (prop ≠ KStr "$enable-rule")).
      * rewrite IH.
        destruct (visits stack d (Some (item_path prefix prop))) as [below | | |];
          bind_simpl; try (by apply fold_left_fixed).
        rewrite IHes.
        destruct (concat_map_result _ es) as [l | | |]; bind_simpl; try done;
          rewrite (assigned_app (_ :: below) l);
          by rewrite (assigned_cons _ below).
      * bind_simpl. rewrite IHes.
        destruct (concat_map_result _ es) as [l | | |]; bind_simpl; try done;
          by rewrite (assigned_app [_] l).
Qed.

(** *** The visits are the descriptors the tree reaches *)

(** What one entry contributes to the visits. *)
Lemma entry_visits (stack : nat) (prefix : option Key) (prop : Key)
    (d : Value) (le : list Visit) :
  (v ← visit_of (item_path prefix prop) d;
   match visit_action v with
   | Some _ => Ok [v]
   | None =>
       if bool_decide (prop ≠ KStr "$enable-rule")
       then below ← visits stack d (Some (item_path prefix prop)); Ok (v :: below)
       else Ok [v]
   end) = Ok le ->
  exists v, visit_of (item_path prefix prop) d = Ok v
    /\ ((le = [v]
         /\ (hasOwnProperty d "$action" = Ok true \/ prop = KStr "$enable-rule"))
        \/ (exists below,
              le = v :: below
              /\ hasOwnProperty d "$action" = Ok false
              /\ prop ≠ KStr "$enable-rule"
              /\ visits stack d (Some (item_path prefix prop)) = Ok below)).
Proof.
  destruct (visit_of (item_path prefix prop) d) as [v | | |] eqn:Hv;
    bind_simpl; try discriminate.
  intros Hle. exists v. split; [done |].
  destruct (visit_of_Ok _ _ _ Hv) as (_ & _ & _ & _ & Hnone & Hsome).
  destruct (visit_action v) as [a |].
  - injection Hle as <-. left. split; [done |]. left. by apply (Hsome a).
  - destruct (bool_decide_reflect (prop ≠ KStr "$enable-rule")) as [Hne | Heq].
    + destruct (visits stack d (Some (item_path prefix prop))) as [below | | |];
        revert Hle; bind_simpl; try discriminate.
      intros [= <-]. right. exists below.
      split; [done |]. split; [by apply Hnone |]. done.
    + injection Hle as <-. left. split; [done |]. right.
      by destruct (decide (prop = KStr "$enable-rule")).
Qed.

Lemma visits_complete (stack : nat) :
  forall (raw : Value) (prefix : option Key) (l : list Visit),
    visits stack raw prefix = Ok l ->
    forall path d,
      visited raw path d ->
      (List.length path <= stack)%nat
      /\ exists id v,
           join_under prefix path = Some id /\ visit_of id d = Ok v /\ v ∈ l.
Proof.
  induction stack as [| stack IH]; intros raw prefix l Hl path d Hvis;
    [discriminate |].
  simpl in Hl. apply concat_map_result_Ok_inv in Hl as [Hentries _].
  inversion Hvis as [raw' prop d' Hin | raw' prop d0 path' d' Hin Hno Hne Hbelow];
    subst.
  - destruct (Hentries _ Hin) as (le & Hle & Hsub). simpl in Hle.
    apply entry_visits in Hle as (v & Hv & Hcases).
    split; [simpl; lia |].
    exists (item_path prefix prop), v. split; [done |]. split; [done |].
    apply Hsub. destruct Hcases as [[-> _] | (below & -> & _)];
      apply list_elem_of_here.
  - destruct (Hentries _ Hin) as (le & Hle & Hsub). simpl in Hle.
    apply entry_visits in Hle as (v0 & Hv0 & Hcases).
    destruct Hcases as [[_ [Hyes | Heq]] | (below & -> & _ & _ & Hrec)];
      [congruence | done |].
    destruct (IH _ _ _ Hrec _ _ Hbelow) as (Hlen & id & v & Hid & Hv & Hvin).
    split; [simpl; lia |].
    exists id, v. split; [done |]. split; [done |].
    apply Hsub. by apply list_elem_of_further.
Qed.

Lemma visits_sound (stack : nat) :
  forall (raw : Value) (prefix : option Key) (l : list Visit),
    visits stack raw prefix = Ok l ->
    forall v,
      v ∈ l ->
      exists path,
        visited raw path (visit_descriptor v)
        /\ join_under prefix path = Some (visit_id v)
        /\ visit_of (visit_id v) (visit_descriptor v) = Ok v.
Proof.
  induction stack as [| stack IH]; intros raw prefix l Hl v Hv; [discriminate |].
  simpl in Hl. apply concat_map_result_Ok_inv in Hl as [_ Hfrom].
  destruct (Hfrom v Hv) as ([prop d] & le & Hin & Hle & Hvle). simpl in Hle.
  apply entry_visits in Hle as (v0 & Hv0 & Hcases).
  destruct (visit_of_Ok _ _ _ Hv0) as (Hid0 & Hd0 & _).
  assert (Hhere : v = v0 ->
                  exists path,
                    visited raw path (visit_descriptor v)
                    /\ join_under prefix path = Some (visit_id v)
                    /\ visit_of (visit_id v) (visit_descriptor v) = Ok v).
  { intros ->. exists [prop]. rewrite Hid0, Hd0.
    split; [by apply visited_here |]. split; [done | done]. }
  destruct Hcases as [[-> _] | (below & -> & Hno & Hne & Hrec)].
  - apply list_elem_of_singleton in Hvle. by apply Hhere.
  - apply elem_of_cons in Hvle as [Heq | Hvbelow]; [by apply Hhere |].
    destruct (IH _ _ _ Hrec v Hvbelow) as (path & Hvis & Hjoin & Hvof).
    exists (prop :: path). split; [by eapply visited_below |]. split; done.
Qed.

Lemma visits_total (stack : nat) :
  forall (raw : Value) (prefix : option Key),
    (0 < stack)%nat ->
    (forall path d,
        visited raw path d ->
        (List.length path < stack)%nat /\ is_Ok (ruleArray d)) ->
    is_Ok (visits stack raw prefix).
Proof.
  induction stack as [| stack IH]; intros raw prefix Hpos Hwf; [lia |].
  simpl. apply concat_map_result_is_Ok. intros [prop d] Hin. simpl.
  destruct (Hwf [prop] d (visited_here _ _ _ Hin)) as [Hlen Hrule]. simpl in Hlen.
  pose proof (visit_of_is_Ok (item_path prefix prop) d Hrule) as Hok.
  destruct (visit_of (item_path prefix prop) d) as [v | | |] eqn:Hv; try done.
  bind_simpl.
  destruct (visit_of_Ok _ _ _ Hv) as (_ & _ & _ & _ & Hnone & _).
  destruct (visit_action v) as [a |]; [done |].
  destruct (bool_decide_reflect (prop ≠ KStr "$enable-rule")) as [Hne | Heq]; [| done].
  assert (Hrec : is_Ok (visits stack d (Some (item_path prefix prop)))).
  { apply IH; [lia |]. intros path d' Hvis.
    destruct (Hwf (prop :: path) d') as [Hl Hr].
    - eapply visited_below; [done | by apply Hnone | done | done].
    - simpl in Hl. split; [lia | done]. }
  destruct (visits stack d (Some (item_path prefix prop))); done.
Qed.

(** *** Dot-joined paths *)

Lemma append_assoc (a b c : string) : (a +:+ b) +:+ c = a +:+ (b +:+ c).
Proof.
  induction a as [| x a IH]; [done |].
  change (String x ((a +:+ b) +:+ c) = String x (a +:+ b +:+ c)).
  by rewrite IH.
Qed.

Lemma join_under_Some (path : list Key) :
  forall p : Key,
    join_under (Some p) path
    = Some (match path with
            | [] => p
            | _ => KStr (key_string p +:+ "." +:+ dot_join (map key_string path))
            end).
Proof.
  induction path as [| x path IH]; intros p; [done |].
  change (join_under (Some p) (x :: path))
    with (join_under (Some (KStr (key_string p +:+ "." +:+ key_string x))) path).
  rewrite IH. destruct path as [| y path]; [done |].
  do 2 f_equal.
  change (dot_join (map key_string (x :: y :: path)))
    with (key_string x +:+ "." +:+ dot_join (map key_string (y :: path))).
  simpl key_string. by rewrite !append_assoc.
Qed.

Lemma join_under_None (path : list Key) :
  path ≠ [] -> join_under None path = Some (key_join path).
Proof.
  destruct path as [| x path]; [done |]. intros _.
  change (join_under None (x :: path)) with (join_under (Some x) path).
  rewrite join_under_Some. by destruct path.
Qed.

Lemma visited_nonempty (raw : Value) (path : list Key) (d : Value) :
  visited raw path d -> path ≠ [].
Proof. by destruct 1. Qed.

Lemma visited_join (raw : Value) (path : list Key) (d : Value) :
  visited raw path d -> join_under None path = Some (key_join path).
Proof. intros Hvis. apply join_under_None. by eapply visited_nonempty. Qed.

(** *** From a finished traversal to the conditions on the tree *)

Lemma well_formed_of_visits (n stack : nat) (raw : Value) (l : list Visit) :
  visits n raw None = Ok l -> (n < stack)%nat -> well_formed stack raw.
Proof.
  intros Hl Hn. split; [lia |]. intros path d Hvis.
  destruct (visits_complete n raw None l Hl path d Hvis) as (Hlen & id & v & _ & Hv & _).
  split; [lia |]. by destruct (visit_of_Ok _ _ _ Hv) as (_ & _ & _ & Hok & _).
Qed.

Lemma distinct_visits_of_visits (n : nat) (raw : Value) (l : list Visit) :
  visits n raw None = Ok l -> NoDup (map visit_id l) -> distinct_visits raw.
Proof.
  intros Hl Hnd path1 d1 path2 d2 Hvis1 Hvis2 Hjoin.
  destruct (visits_complete n raw None l Hl path1 d1 Hvis1)
    as (_ & id1 & v1 & Hid1 & Hv1 & Hin1).
  destruct (visits_complete n raw None l Hl path2 d2 Hvis2)
    as (_ & id2 & v2 & Hid2 & Hv2 & Hin2).
  rewrite (visited_join _ _ _ Hvis1) in Hid1.
  rewrite (visited_join _ _ _ Hvis2) in Hid2.
  destruct (visit_of_Ok _ _ _ Hv1) as (Hi1 & <- & _).
  destruct (visit_of_Ok _ _ _ Hv2) as (Hi2 & <- & _).
  f_equal. apply (NoDup_fmap_eq visit_id l); [done | done | done |]. congruence.
Qed.

(** *** The maps of the menu bar *)

Section Built.
Context (stack : nat) (raw : Value) (l : list Visit).
Hypothesis Hvisits : visits stack raw None = Ok l.
Hypothesis Hdistinct : distinct_visits raw.

Let built : Maps := assigned l {| actionMap := ∅; enablerMap := ∅ |}.

(** A visit with the path of a descriptor of the tree is a visit of that
    descriptor. *)
Lemma visit_at_path (x : Visit) (path : list Key) (d : Value) :
  x ∈ l -> visited raw path d -> visit_id x = key_join path ->
  visit_descriptor x = d
  /\ visit_of (key_join path) d = Ok x.
Proof.
  intros Hx Hvis Hid.
  destruct (visits_sound stack raw None l Hvisits x Hx) as (path' & Hvis' & Hjoin & Hof).
  rewrite (visited_join _ _ _ Hvis') in Hjoin. injection Hjoin as Hjoin.
  assert (Hd : visit_descriptor x = d).
  { apply (Hdistinct path' _ path _ Hvis' Hvis). congruence. }
  split; [done |]. by rewrite <- Hid, <- Hd.
Qed.

Lemma visit_for_path (path : list Key) (d : Value) :
  visited raw path d ->
  exists v, v ∈ l /\ visit_of (key_join path) d = Ok v.
Proof.
  intros Hvis.
  destruct (visits_complete stack raw None l Hvisits path d Hvis)
    as (_ & id & v & Hid & Hv & Hin).
  rewrite (visited_join _ _ _ Hvis) in Hid. injection Hid as <-.
  by exists v.
Qed.

Lemma built_enablers (path : list Key) (d : Value) :
  visited raw path d ->
  enablerMap built !! key_join path = Some (enable_rules d).
Proof.
  intros Hvis. destruct (visit_for_path path d Hvis) as (v & Hin & Hv).
  destruct (visit_of_Ok _ _ _ Hv) as (Hid & _).
  destruct (lookup_assign_all_in visit_id visit_rules l ∅ (key_join path))
    as (x & Hx & Hxid & Hlookup).
  { rewrite <- Hid. by apply (list_elem_of_fmap_2 visit_id). }
  unfold built. simpl. rewrite Hlookup. f_equal.
  destruct (visit_at_path x path d Hx Hvis Hxid) as [_ Hxof].
  by destruct (visit_of_Ok _ _ _ Hxof) as (_ & _ & Hrules & _).
Qed.

Lemma action_assignments_in (k : Key) (a : Action) :
  (k, a) ∈ action_assignments l <->
  exists x, x ∈ l /\ visit_id x = k /\ visit_action x = Some a.
Proof.
  unfold action_assignments. rewrite list_elem_of_omap. split.
  - intros (x & Hx & Hsome). exists x. split; [done |].
    destruct (visit_action x); simpl in Hsome; [| discriminate].
    injection Hsome as <- <-. done.
  - intros (x & Hx & <- & Ha). exists x. split; [done |]. by rewrite Ha.
Qed.

Lemma built_actions (path : list Key) (d : Value) :
  visited raw path d -> has_action d ->
  actionMap built !! key_join path = Some (behavior d).
Proof.
  intros Hvis Hhas. destruct (visit_for_path path d Hvis) as (v & Hin & Hv).
  destruct (visit_of_Ok _ _ _ Hv) as (Hid & _ & _ & _ & Hnone & _).
  destruct (visit_action v) as [a |] eqn:Ha; [| by destruct (Hnone eq_refl)].
  destruct (lookup_assign_all_in (fst : Key * Action -> Key) snd
              (action_assignments l) ∅ (key_join path))
    as ([k a'] & Hy & Hk & Hlookup).
  { apply (list_elem_of_fmap_2' fst _ (key_join path, a)); [| done].
    apply action_assignments_in. by exists v. }
  simpl in Hk. subst k.
  unfold built. simpl. rewrite Hlookup. simpl. f_equal.
  apply action_assignments_in in Hy as (x & Hx & Hxid & Hxa).
  destruct (visit_at_path x path d Hx Hvis Hxid) as [_ Hxof].
  destruct (visit_of_Ok _ _ _ Hxof) as (_ & _ & _ & _ & _ & Hsome).
  by destruct (Hsome a' Hxa) as (_ & _ & ->).
Qed.

Lemma built_enablers_from (k : Key) (rules : list string) :
  enablerMap built !! k = Some rules ->
  exists path d, visited raw path d /\ key_join path = k.
Proof.
  intros Hk. apply (lookup_assign_all_Some visit_id visit_rules) in Hk
    as (x & Hx & Hxid & _).
  destruct (visits_sound stack raw None l Hvisits x Hx) as (path & Hvis & Hjoin & _).
  rewrite (visited_join _ _ _ Hvis) in Hjoin. injection Hjoin as Hjoin.
  exists path, (visit_descriptor x). split; [done | congruence].
Qed.

Lemma built_actions_from (k : Key) (a : Action) :
  actionMap built !! k = Some a ->
  exists path d, visited raw path d /\ has_action d /\ key_join path = k.
Proof.
  intros Hk.
  apply (lookup_assign_all_Some (fst : Key * Action -> Key) snd) in Hk
    as ([k' a'] & Hy & Hk' & _).
  simpl in Hk'. subst k'.
  apply action_assignments_in in Hy as (x & Hx & Hxid & Hxa).
  destruct (visits_sound stack raw None l Hvisits x Hx) as (path & Hvis & Hjoin & Hof).
  rewrite (visited_join _ _ _ Hvis) in Hjoin. injection Hjoin as Hjoin.
  destruct (visit_of_Ok _ _ _ Hof) as (_ & _ & _ & _ & _ & Hsome).
  exists path, (visit_descriptor x).
  split; [done |]. split; [by destruct (Hsome a' Hxa) as (_ & ? & _) | congruence].
Qed.

End Built.

Lemma fromJSONObjects_described (stack : nat) (menuObj raw menuID : Value)
    (rootItems : list MenuItem) (l : list Visit) :
  menu_described menuObj menuID rootItems ->
  visits stack raw None = Ok l ->
  exists mb : MenuBar,
    fromJSONObjects stack menuObj raw = Ok mb
    /\ id mb = menuID
    /\ roots mb = rootItems
    /\ enablers mb = enablerMap (assigned l {| actionMap := ∅; enablerMap := ∅ |})
    /\ actions mb = actionMap (assigned l {| actionMap := ∅; enablerMap := ∅ |}).
Proof.
  intros (ps & rawMenus & -> & Hid & Hmenu & Hroots) Hl.
  unfold fromJSONObjects. simpl hasOwnProperty. simpl get.
  rewrite Hid, Hmenu. bind_simpl.
  rewrite !bool_decide_eq_true_2 by (by eexists). simpl.
  rewrite Hroots. bind_simpl.
  rewrite process_visits, Hl. bind_simpl.
  eexists. split; [reflexivity |]. done.
Qed.

Lemma fromJSONObjects_Ok (stack : nat) (menuObj raw : Value) (mb : MenuBar) :
  fromJSONObjects stack menuObj raw = Ok mb ->
  exists l : list Visit,
    visits stack raw None = Ok l
    /\ enablers mb = enablerMap (assigned l {| actionMap := ∅; enablerMap := ∅ |})
    /\ actions mb = actionMap (assigned l {| actionMap := ∅; enablerMap := ∅ |}).
Proof.
  unfold fromJSONObjects.
  destruct (hasOwnProperty menuObj "id") as [hasId | | |]; bind_simpl; try discriminate.
  destruct (hasOwnProperty menuObj "menu") as [hasMenu | | |]; bind_simpl;
    try discriminate.
  destruct (negb hasId || negb hasMenu); try discriminate.
  destruct (get menuObj "id") as [menuID | | |]; bind_simpl; try discriminate.
  destruct (get menuObj "menu") as [menu | | |]; bind_simpl; try discriminate.
  destruct menu as [| | | | | rawMenus |]; try discriminate.
  destruct (map_result MenuItem_fromDescriptor rawMenus) as [rootItems | | |];
    bind_simpl; try discriminate.
  rewrite process_visits.
  destruct (visits stack raw None) as [l | | |]; bind_simpl; try discriminate.
  intros [= <-]. by exists l.
Qed.

(** *** The described tree and the traversal *)

Lemma entries_plain (v : Value) :
  array_like v = false ->
  entries v = (fun p : string * Value => (KStr p.1, p.2)) <$> own_properties v.
Proof.
  destruct v as [| | b | n | s | xs | ps]; simpl; try done.
  - intros Hs. apply negb_false_iff, bool_decide_eq_true in Hs. by subst s.
  - unfold entries, each. by destruct (isLength _).
Qed.

Lemma hasOwnProperty_action_false (d : Value) :
  hasOwnProperty d "$action" = Ok false -> ~ has_action d.
Proof.
  destruct d as [| | b | n | s | xs | ps]; simpl; try (by intros _ []).
  intros [= Hno]. by apply bool_decide_eq_false in Hno.
Qed.

Lemma node_nonempty (raw : Value) (path : list string) (d : Value) :
  node raw path d -> path ≠ [].
Proof. by destruct 1. Qed.

Lemma node_of_object (raw : Value) (path : list string) (d : Value) :
  node raw path d -> exists ps, raw = VObj ps.
Proof.
  destruct 1 as [raw prop d Hin | raw prop d path d' Hin _ _ _];
    (destruct raw; simpl in Hin; try (by apply elem_of_nil in Hin); by eexists).
Qed.

Lemma last_cons_nonempty {A : Type} (x : A) (l : list A) :
  l ≠ [] -> last (x :: l) = last l.
Proof. by destruct l. Qed.

Lemma plain_tree_below (raw : Value) (prop : string) (d : Value) :
  plain_tree raw ->
  (prop, d) ∈ own_properties raw -> ~ has_action d -> prop ≠ "$enable-rule" ->
  plain_tree d.
Proof.
  intros [_ Hbelow] Hin Hno Hne. split.
  - apply (Hbelow [prop] d); [by apply node_here | done |].
    simpl. by intros [= ->].
  - intros path d' Hnode Hno' Hlast.
    apply (Hbelow (prop :: path) d'); [by eapply node_below | done |].
    rewrite last_cons_nonempty; [done |]. by eapply node_nonempty.
Qed.

Lemma node_visited (raw : Value) (path : list string) (d : Value) :
  node raw path d -> plain_tree raw -> visited raw (map KStr path) d.
Proof.
  induction 1 as [raw prop d Hin | raw prop d path d' Hin Hno Hne Hbelow IH];
    intros Hplain.
  - apply visited_here. rewrite entries_plain by apply Hplain.
    apply list_elem_of_fmap. by exists (prop, d).
  - simpl. eapply visited_below.
    + rewrite entries_plain by apply Hplain.
      apply list_elem_of_fmap. by exists (prop, d).
    + destruct (node_of_object _ _ _ Hbelow) as [ps ->]. simpl.
      by rewrite bool_decide_eq_false_2.
    + by intros [= ->].
    + apply IH. by eapply plain_tree_below.
Qed.

Lemma visited_node (raw : Value) (kpath : list Key) (d : Value) :
  visited raw kpath d -> plain_tree raw ->
  exists path, kpath = map KStr path /\ node raw path d.
Proof.
  induction 1 as [raw prop d Hin | raw prop d kpath d' Hin Hno Hne Hbelow IH];
    intros Hplain.
  - rewrite entries_plain in Hin by apply Hplain.
    apply list_elem_of_fmap in Hin as ([s x] & [= -> ->] & Hin).
    exists [s]. split; [done | by apply node_here].
  - rewrite entries_plain in Hin by apply Hplain.
    apply list_elem_of_fmap in Hin as ([s x] & [= -> ->] & Hin). simpl in *.
    apply hasOwnProperty_action_false in Hno.
    assert (Hs : s ≠ "$enable-rule") by (by intros ->).
    destruct IH as (path & -> & Hnode); [by eapply plain_tree_below |].
    exists (s :: path). split; [done | by eapply node_below].
Qed.

Lemma key_strings (path : list string) : map key_string (map KStr path) = path.
Proof. induction path as [| x path IH]; simpl; [done | by rewrite IH]. Qed.

Lemma key_join_strings (path : list string) :
  path ≠ [] -> key_join (map KStr path) = KStr (dot_join path).
Proof.
  destruct path as [| x [| y path]]; [done | done |]. intros _.
  unfold key_join. by rewrite key_strings.
Qed.

Lemma distinct_visits_of_paths (raw : Value) :
  plain_tree raw -> distinct_paths raw -> distinct_visits raw.
Proof.
  intros Hplain Hdistinct kpath1 d1 kpath2 d2 Hvis1 Hvis2 Hjoin.
  destruct (visited_node _ _ _ Hvis1 Hplain) as (path1 & -> & Hnode1).
  destruct (visited_node _ _ _ Hvis2 Hplain) as (path2 & -> & Hnode2).
  rewrite !key_join_strings in Hjoin by (by eapply node_nonempty).
  injection Hjoin as Hjoin. by eapply Hdistinct.
Qed.

Lemma well_formed_of_walkable (stack : nat) (raw : Value) :
  plain_tree raw -> walkable stack raw -> well_formed stack raw.
Proof.
  intros Hplain [Hpos Hwalk]. split; [done |]. intros kpath d Hvis.
  destruct (visited_node _ _ _ Hvis Hplain) as (path & -> & Hnode).
  rewrite length_map. by apply Hwalk.
Qed.


End Facts.

#[local] Existing Instance sample_collaborators.

Lemma sample_visits :
  visits 2 sample_actions None
  = Ok [ {| visit_id := KStr "FILE";
            visit_descriptor :=
              VObj [("$enable-rule", VStr "always");
                    ("NEW",
                     VObj [("$enable-rule", VStr "always,have-document");
                           ("$action", VStr "documents.createNew");
                           ("$payload", VNum 1)])];
            visit_rules := ["always"];
            visit_action := None |};
         {| visit_id := KStr "FILE.$enable-rule";
            visit_descriptor := VStr "always";
            visit_rules := [];
            visit_action := None |};
         {| visit_id := KStr "FILE.NEW";
            visit_descriptor :=
              VObj [("$enable-rule", VStr "always,have-document");
                    ("$action", VStr "documents.createNew");
                    ("$payload", VNum 1)];
            visit_rules := ["always"; "have-document"];
            visit_action :=
              Some {| _action := VStr "documents.createNew";
                      _payload := Some (JSONPayload (VNum 1)) |} |} ].
Proof. reflexivity. Qed.

(** A [null] descriptor makes the traversal throw, and so does a string
    property of a group other than "$enable-rule": its characters are gone
    into without end. *)
Example traversal_throws :
  _processMenuActions 5 (VObj [("FILE", VNull)])
    {| actionMap := ∅; enablerMap := ∅ |} None = TypeError
  /\ _processMenuActions 5 (VObj [("FILE", VObj [("label", VStr "File")])])
       {| actionMap := ∅; enablerMap := ∅ |} None = RangeError.
Proof. split; reflexivity. Qed.

(** The items of the sample tree. *)
Lemma sample_nodes (path : list string) (d : Value) :
  node sample_actions path d ->
  (path = ["FILE"] /\ ~ has_action d /\ array_like d = false)
  \/ (path = ["FILE"; "$enable-rule"] /\ d = VStr "always")
  \/ (path = ["FILE"; "NEW"] /\ has_action d
      /\ d = VObj [("$enable-rule", VStr "always,have-document");
                   ("$action", VStr "documents.createNew");
                   ("$payload", VNum 1)]).
Proof.
  unfold sample_actions. intros Hnode.
  inversion Hnode as [raw prop d0 Hin | raw prop d0 path' d' Hin Hno Hne Hbelow];
    subst; cbn [own_properties] in Hin;
    apply list_elem_of_singleton in Hin; injection Hin as -> ->.
  - left. split; [done |]. split; [by intros [? ?] | done].
  - right.
    inversion Hbelow as [raw prop d0 Hin | raw prop d0 path'' d'' Hin Hno' Hne' Hbelow'];
      subst; cbn [own_properties] in Hin;
      (apply elem_of_cons in Hin as [Hin | Hin];
       [| apply list_elem_of_singleton in Hin]); injection Hin as -> ->.
    + by left.
    + right. split; [done |]. split; [by eexists | done].
    + done.
    + destruct Hno'. by eexists.
Qed.

Lemma sample_plain : plain_tree sample_actions.
Proof.
  split; [done |]. intros path d Hnode Hno Hlast.
  destruct (sample_nodes path d Hnode)
    as [(_ & _ & Hd) | [(-> & _) | (_ & Hhas & _)]]; done.
Qed.

Lemma sample_distinct : distinct_paths sample_actions.
Proof.
  intros path1 d1 path2 d2 Hnode1 Hnode2 Hjoin.
  assert (Hfile : forall d,
             node sample_actions ["FILE"] d ->
             d = VObj [("$enable-rule", VStr "always");
                       ("NEW",
                        VObj [("$enable-rule", VStr "always,have-document");
                              ("$action", VStr "documents.createNew");
                              ("$payload", VNum 1)])]).
  { unfold sample_actions. intros d Hd.
    inversion Hd as [raw prop d0 Hin | raw prop d0 path' d' Hin Hno Hne Hbelow]; subst.
    - cbn [own_properties] in Hin. apply list_elem_of_singleton in Hin.
      by injection Hin as ->.
    - by apply node_nonempty in Hbelow. }
  destruct (sample_nodes path1 d1 Hnode1)
    as [(-> & _) | [(-> & ->) | (-> & _ & ->)]];
    destruct (sample_nodes path2 d2 Hnode2)
      as [(-> & _) | [(-> & ->) | (-> & _ & ->)]];
    try done.
  by rewrite (Hfile d1 Hnode1), (Hfile d2 Hnode2).
Qed.

Lemma sample_walkable : walkable 3 sample_actions.
Proof.
  split; [lia |]. intros path d Hnode.
  assert (Hvis : visited sample_actions (map KStr path) d)
    by (apply node_visited; [done | apply sample_plain]).
  destruct (visits_complete 2 _ None _ sample_visits _ _ Hvis)
    as (Hlen & id & v & _ & Hv & _).
  rewrite length_map in Hlen. split; [lia |].
  by destruct (visit_of_Ok _ _ _ Hv) as (_ & _ & _ & Hok & _).
Qed.



End MenuActionsFacts.

(* ===================================================================== *)
(** ** More on the carousel *)
(* ===================================================================== *)

Module CarouselViewFacts.
Import Carousel CarouselView.

Section Facts.
Context {Item : Type} (props : Props Item).

Lemma next_in_range (st : State) :
  in_range props st -> in_range props (_nextItem props st).
Proof.
  unfold in_range, _nextItem. intros Hr. simpl.
  destruct (wrapNavigation props).
  - rewrite Z.rem_mod_nonneg by lia. apply Z.mod_pos_bound. lia.
  - lia.
Qed.

Lemma prev_in_range (st : State) :
  in_range props st -> in_range props (_prevItem props st).
Proof.
  unfold in_range, _prevItem. intros Hr. simpl.
  destruct (wrapNavigation props); simpl; [| lia].
  destruct (Z.ltb_spec (index st - 1) 0); lia.
Qed.

Lemma next_index (st : State) :
  in_range props st ->
  index (_nextItem props st)
  = if wrapNavigation props
    then (index st + 1) mod length props
    else Z.min (index st + 1) (length props - 1).
Proof.
  unfold in_range, _nextItem. intros Hr. simpl.
  destruct (wrapNavigation props); [| done].
  apply Z.rem_mod_nonneg; lia.
Qed.

Lemma prev_index (st : State) :
  in_range props st ->
  index (_prevItem props st)
  = if wrapNavigation props
    then (index st - 1) mod length props
    else Z.max (index st - 1) 0.
Proof.
  unfold in_range, _prevItem. intros Hr. simpl.
  destruct (wrapNavigation props); simpl; [| done].
  destruct (Z.ltb_spec (index st - 1) 0).
  - apply Z.mod_unique with (q := -1); lia.
  - rewrite Z.mod_small by lia. lia.
Qed.

(** X1.  With wrapping navigation next and previous undo each other. *)
Theorem wrap_next_prev_round_trip (st : State) :
  wrapNavigation props = true ->
  in_range props st ->
  index (_prevItem props (_nextItem props st)) = index st
  /\ index (_nextItem props (_prevItem props st)) = index st.
Proof.
  intros Hw Hr.
  pose proof (next_in_range st Hr) as Hn. pose proof (prev_in_range st Hr) as Hp.
  rewrite (prev_index _ Hn), (next_index _ Hp), (next_index _ Hr), (prev_index _ Hr), Hw.
  unfold in_range in Hr. split.
  - rewrite Zminus_mod_idemp_l. replace (index st + 1 - 1) with (index st) by lia.
    apply Z.mod_small. lia.
  - rewrite Zplus_mod_idemp_l. replace (index st - 1 + 1) with (index st) by lia.
    apply Z.mod_small. lia.
Qed.

Lemma iter_next_in_range (k : nat) (st : State) :
  in_range props st -> in_range props (Nat.iter k (_nextItem props) st).
Proof. intros Hr. induction k as [| k IH]; simpl; [done | by apply next_in_range]. Qed.

Lemma iter_prev_in_range (k : nat) (st : State) :
  in_range props st -> in_range props (Nat.iter k (_prevItem props) st).
Proof. intros Hr. induction k as [| k IH]; simpl; [done | by apply prev_in_range]. Qed.

(** X2.  Pressing next k times: with wrapping the index advances by k modulo the
    number of items, so that many presses as there are items come back to
    where they started; without wrapping it advances by k and stops at the
    last item.  Pressing previous k times is the mirror image. *)
Theorem repeated_navigation (k : nat) (st : State) :
  in_range props st ->
  index (Nat.iter k (_nextItem props) st)
  = (if wrapNavigation props
     then (index st + Z.of_nat k) mod length props
     else Z.min (index st + Z.of_nat k) (length props - 1))
  /\ index (Nat.iter k (_prevItem props) st)
     = (if wrapNavigation props
        then (index st - Z.of_nat k) mod length props
        else Z.max (index st - Z.of_nat k) 0)
  /\ (wrapNavigation props = true ->
      index (Nat.iter (List.length (items props)) (_nextItem props) st) = index st).
Proof.
  intros Hr.
  assert (Hnext : forall k,
             index (Nat.iter k (_nextItem props) st)
             = if wrapNavigation props
               then (index st + Z.of_nat k) mod length props
               else Z.min (index st + Z.of_nat k) (length props - 1)).
  { clear k. intros k. induction k as [| k IH].
    - simpl. unfold in_range in Hr. destruct (wrapNavigation props).
      + rewrite Z.add_0_r, Z.mod_small; lia.
      + lia.
    - simpl Nat.iter. rewrite (next_index _ (iter_next_in_range k st Hr)), IH.
      destruct (wrapNavigation props).
      + rewrite Zplus_mod_idemp_l. f_equal. lia.
      + lia. }
  assert (Hprev : forall k,
             index (Nat.iter k (_prevItem props) st)
             = if wrapNavigation props
               then (index st - Z.of_nat k) mod length props
               else Z.max (index st - Z.of_nat k) 0).
  { clear k. intros k. induction k as [| k IH].
    - simpl. unfold in_range in Hr. destruct (wrapNavigation props).
      + rewrite Z.sub_0_r, Z.mod_small; lia.
      + lia.
    - simpl Nat.iter. rewrite (prev_index _ (iter_prev_in_range k st Hr)), IH.
      destruct (wrapNavigation props).
      + rewrite Zminus_mod_idemp_l. f_equal. lia.
      + lia. }
  split; [apply Hnext |]. split; [apply Hprev |].
  intros Hw. rewrite Hnext, Hw. fold (length props).
  unfold in_range in Hr.
  rewrite <- (Z.mul_1_l (length props)) at 1.
  rewrite Z.mod_add by lia. apply Z.mod_small. lia.
Qed.

(** X3.  The direction of travel follows the indices, not the key pressed: past
    the last item wrapping navigation goes to the first one "backward", and
    before the first to the last "forward"; without wrapping next is always
    "forward" and previous is "backward" except on the first item, where
    nothing moves. *)
Theorem direction_of_navigation (st : State) :
  in_range props st ->
  (wrapNavigation props = true ->
   (direction (_nextItem props st) = backward
    <-> index st = length props - 1 /\ 1 < length props)
   /\ (direction (_prevItem props st) = forward
       <-> index st = 0))
  /\ (wrapNavigation props = false ->
      direction (_nextItem props st) = forward
      /\ (direction (_prevItem props st) = backward <-> 0 < index st)).
Proof.
  unfold in_range. intros Hr. split; intros Hw.
  - split.
    + unfold _nextItem, _gotoItem. rewrite Hw. simpl.
      rewrite Z.rem_mod_nonneg by lia.
      destruct (Z.eq_dec (index st) (length props - 1)) as [Heq | Hne].
      * replace (index st + 1) with (1 * length props) by lia.
        rewrite Z.mod_mul by lia.
        destruct (Z.gtb_spec (index st) 0); split; try done; lia.
      * rewrite Z.mod_small by lia.
        destruct (Z.gtb_spec (index st) (index st + 1)); [lia |].
        split; [done | lia].
    + unfold _prevItem, _gotoItem. rewrite Hw. simpl.
      destruct (Z.ltb_spec (index st - 1) 0); simpl.
      * destruct (Z.gtb_spec (index st) (length props + (index st - 1)));
          split; try done; lia.
      * destruct (Z.gtb_spec (index st) (Z.max (index st - 1) 0));
          split; try done; lia.
  - split.
    + unfold _nextItem, _gotoItem. rewrite Hw. simpl.
      destruct (Z.gtb_spec (index st) (Z.min (index st + 1) (length props - 1)));
        [lia | done].
    + unfold _prevItem, _gotoItem. rewrite Hw. simpl.
      destruct (Z.gtb_spec (index st) (Z.max (index st - 1) 0));
        split; try done; lia.
Qed.

(** X4.  A click outside the box of the component, or with no DOM node, changes
    nothing.  Inside, the columns up to and including the middle one go to
    the previous item and those right of it, up to the right edge, to the
    next.  The index stays within the items whatever the click. *)
Theorem click_navigates (elt : option ClientRect) (event : MouseEvent) (st : State) :
  (elt = None -> _handleClick props elt event st = st)
  /\ (forall bounds,
        elt = Some bounds ->
        (clientY event < top bounds \/ bottom bounds < clientY event
         \/ clientX event < left bounds \/ right bounds < clientX event
            /\ left bounds + width bounds / 2 < clientX event ->
         _handleClick props elt event st = st)
        /\ (top bounds <= clientY event <= bottom bounds ->
            left bounds <= clientX event <= left bounds + width bounds / 2 ->
            _handleClick props elt event st = _prevItem props st)
        /\ (top bounds <= clientY event <= bottom bounds ->
            left bounds <= clientX event ->
            left bounds + width bounds / 2 < clientX event <= right bounds ->
            _handleClick props elt event st = _nextItem props st))
  /\ (in_range props st -> in_range props (_handleClick props elt event st)).
Proof.
  split; [by intros -> |]. split.
  - intros bounds ->. unfold _handleClick.
    destruct (Z.leb_spec (top bounds) (clientY event));
      destruct (Z.leb_spec (clientY event) (bottom bounds));
      destruct (Z.leb_spec (left bounds) (clientX event));
      destruct (Z.leb_spec (clientX event) (left bounds + width bounds / 2));
      destruct (Z.leb_spec (clientX event) (right bounds));
      simpl; (split; [| split]); intros; try done; lia.
  - intros Hr. unfold _handleClick. destruct elt as [bounds |]; [| done].
    destruct (_ && _); [| done].
    destruct (_ <=? _); [by apply prev_in_range |].
    destruct (_ <=? _); [by apply next_in_range | done].
Qed.

(** X5.  The navigation has one link per item, in order; the link at position j
    carries the key "link<j>", goes to item j, and is the one marked
    "current" exactly when j is the index.  So a state within the items
    marks one link, and a state outside them marks none. *)
Theorem navigation_links (st : State) :
  List.length (_buildNav props st) = List.length (items props)
  /\ (forall j link,
        _buildNav props st !! j = Some link ->
        key link = "link" +:+ pretty j
        /\ target link = j
        /\ (className link = "current" <-> Z.of_nat j = index st)
        /\ (className link = "" <-> Z.of_nat j ≠ index st))
  /\ (in_range props st ->
      exists link,
        _buildNav props st !! Z.to_nat (index st) = Some link
        /\ className link = "current")
  /\ (~ in_range props st ->
      forall link, link ∈ _buildNav props st -> className link = "").
Proof.
  assert (Hlink : forall j link,
             _buildNav props st !! j = Some link ->
             key link = "link" +:+ pretty j
             /\ target link = j
             /\ (className link = "current" <-> Z.of_nat j = index st)
             /\ (className link = "" <-> Z.of_nat j ≠ index st)).
  { intros j link Hj. unfold _buildNav in Hj.
    apply list_lookup_imap_Some in Hj as (item & _ & ->). simpl.
    split; [done |]. split; [done |].
    destruct (bool_decide_reflect (Z.of_nat j = index st)); split; split; done. }
  split; [apply length_imap |]. split; [exact Hlink |]. split.
  - unfold in_range, length. intros Hr.
    destruct (lookup_lt_is_Some_2 (_buildNav props st) (Z.to_nat (index st)))
      as [link Hl].
    { unfold _buildNav. rewrite length_imap. lia. }
    exists link. split; [done |].
    apply (Hlink _ _ Hl). lia.
  - intros Hout link Hin.
    apply list_elem_of_lookup in Hin as [j Hj].
    apply (Hlink _ _ Hj). intros Heq. apply Hout.
    apply lookup_lt_Some in Hj. unfold _buildNav in Hj. rewrite length_imap in Hj.
    unfold in_range, length. lia.
Qed.

Lemma gesture_in_range (st : State) (g : Gesture) :
  in_range props st ->
  match g with
  | ClickLink link => link ∈ _buildNav props st
  | _ => True
  end ->
  in_range props (gesture props st g).
Proof.
  intros Hr Hg. destruct g as [| | elt event | link]; simpl.
  - by apply next_in_range.
  - by apply prev_in_range.
  - by apply click_navigates.
  - unfold _buildNav in Hg. apply elem_of_lookup_imap_1 in Hg as (j & item & -> & Hj).
    apply lookup_lt_Some in Hj. unfold in_range, length. simpl. lia.
Qed.

Lemma render_in_range (st : State) :
  in_range props st ->
  exists item,
    items props !! Z.to_nat (index st) = Some item
    /\ render props st
       = Ok (Some {| shown := item; shown_key := index st;
                     classSet := direction st; nav := _buildNav props st |}).
Proof.
  unfold in_range, length. intros Hr.
  destruct (lookup_lt_is_Some_2 (items props) (Z.to_nat (index st))) as [item Hitem];
    [lia |].
  exists item. split; [done |]. unfold render, item_at.
  rewrite bool_decide_eq_false_2.
  - destruct (Z.ltb_spec (index st) 0); [lia |]. by rewrite Hitem.
  - intros Hnil. rewrite Hnil in Hr. simpl in Hr. lia.
Qed.

(** X6.  A mounted carousel with items never fails to render: after any
    sequence of arrow keys, clicks on the component and clicks on the links
    it rendered, the index designates an item and [render] returns that
    item.  An empty carousel renders nothing, in any state; and outside the
    items [render] throws. *)
Theorem render_after_gestures (gs : list Gesture) (st : State) :
  (items props <> [] ->
   session props getInitialState gs = Some st ->
   in_range props st
   /\ exists item,
        items props !! Z.to_nat (index st) = Some item
        /\ render props st
           = Ok (Some {| shown := item; shown_key := index st;
                         classSet := direction st; nav := _buildNav props st |}))
  /\ (items props = [] -> render props st = Ok None)
  /\ (items props <> [] -> ~ in_range props st -> render props st = TypeError).
Proof.
  split; [| split].
  - intros Hne Hs.
    assert (Hinit : in_range props getInitialState).
    { unfold in_range, length. simpl. destruct (items props); [done | simpl; lia]. }
    assert (Hr : in_range props st).
    { revert Hs Hinit. generalize getInitialState. induction gs as [| g gs IH];
        intros st0 Hs Hr0; simpl in Hs.
      - by injection Hs as <-.
      - destruct g as [| | elt event | link];
          try (apply (IH _ Hs); by apply gesture_in_range).
        destruct (bool_decide_reflect (link ∈ _buildNav props st0)); [| done].
        apply (IH _ Hs). by apply gesture_in_range. }
    split; [done | by apply render_in_range].
  - intros Hnil. unfold render. by rewrite bool_decide_eq_true_2.
  - intros Hne Hout. unfold render, item_at.
    rewrite bool_decide_eq_false_2 by done.
    destruct (Z.ltb_spec (index st) 0); [done |].
    destruct (items props !! Z.to_nat (index st)) as [item |] eqn:Hitem; [| done].
    destruct Hout. apply lookup_lt_Some in Hitem. unfold in_range, length. lia.
Qed.

End Facts.

Lemma click_navigates_witness :
  _handleClick sample_props
    (Some {| top := 0; bottom := 100; left := 0; right := 200; width := 200 |})
    {| clientX := 100; clientY := 50 |} {| index := 1; direction := forward |}
  = _prevItem sample_props {| index := 1; direction := forward |}.
Proof.
  destruct (click_navigates sample_props
              (Some {| top := 0; bottom := 100; left := 0; right := 200; width := 200 |})
              {| clientX := 100; clientY := 50 |}
              {| index := 1; direction := forward |}) as (_ & Hin & _).
  destruct (Hin _ eq_refl) as (_ & Hprev & _).
  apply Hprev; vm_compute; split; discriminate.
Defined.

Lemma navigation_links_witness :
  exists link,
    _buildNav sample_props {| index := 1; direction := forward |} !! 1%nat = Some link
    /\ className link = "current".
Proof.
  destruct (navigation_links sample_props {| index := 1; direction := forward |})
    as (_ & _ & Hcur & _).
  apply Hcur. unfold in_range, length. simpl. lia.
Defined.

Lemma render_after_gestures_witness :
  exists item,
    items sample_props !! 0%nat = Some item
    /\ is_Ok (render sample_props (_nextItem sample_props (_nextItem sample_props
                (_nextItem sample_props getInitialState)))).
Proof.
  destruct (render_after_gestures sample_props [ArrowRight; ArrowRight; ArrowRight]
              (_nextItem sample_props (_nextItem sample_props
                 (_nextItem sample_props getInitialState)))) as (Hrun & _ & _).
  destruct Hrun as (_ & item & Hitem & Hrender).
  - discriminate.
  - reflexivity.
  - exists item. split; [exact Hitem |]. by rewrite Hrender.
Defined.

Lemma wrap_next_prev_round_trip_witness :
  index (_prevItem sample_props
           (_nextItem sample_props {| index := 2; direction := forward |})) = 2.
Proof.
  apply (wrap_next_prev_round_trip sample_props {| index := 2; direction := forward |}).
  - reflexivity.
  - unfold in_range, length. simpl. lia.
Defined.

Lemma repeated_navigation_witness :
  index (Nat.iter 3 (_nextItem sample_props) {| index := 1; direction := forward |}) = 1.
Proof.
  destruct (repeated_navigation sample_props 0 {| index := 1; direction := forward |})
    as (_ & _ & Hcycle).
  - unfold in_range, length. simpl. lia.
  - exact (Hcycle eq_refl).
Defined.

Lemma direction_of_navigation_witness :
  direction (_nextItem sample_props {| index := 2; direction := forward |}) = backward.
Proof.
  destruct (direction_of_navigation sample_props {| index := 2; direction := forward |})
    as [Hwrap _].
  - unfold in_range, length. simpl. lia.
  - destruct (Hwrap eq_refl) as [Hnext _]. apply Hnext.
    unfold length. simpl. lia.
Defined.

End CarouselViewFacts.

(* ===================================================================== *)
(** ** More on the theme *)
(* ===================================================================== *)

Module ThemePanelsFacts.
Import Theme ThemePanels.

Ltac split_bounds :=
  repeat match goal with
         | |- context [ ?a <=? ?b ] => destruct (Z.leb_spec a b)
         | |- context [ ?a <? ?b ] => destruct (Z.ltb_spec a b)
         end.

(** Settle every comparison the hypotheses decide. *)
Ltac settle_bounds :=
  repeat match goal with
         | |- context [ ?a <=? ?b ] =>
             first [ rewrite (proj2 (Z.leb_le a b)) by lia
                   | rewrite (proj2 (Z.leb_gt a b)) by lia ]
         end.

Lemma width_cases (width : Z) :
  width <= 800 \/ 801 <= width <= 1280 \/ 1281 <= width <= 1440
  \/ 1441 <= width <= 1680 \/ 1681 <= width <= 2560 \/ 2561 <= width.
Proof. lia. Qed.

(** X7.  The width ranges of the font-size blocks tile the widths from 801px up
    without gap or overlap: on a standard display exactly one block applies
    to each such width, on a display of ratio 2 or more exactly two, the
    standard one and the retina one after it.  Below 801px, and for a ratio
    below 1, no block applies. *)
Theorem font_size_blocks_tile (ratio width : Z) :
  (801 <= width -> ratio = 1 -> List.length (matching ratio width) = 1%nat)
  /\ (801 <= width -> 2 <= ratio ->
      exists standard retina,
        matching ratio width = [standard; retina]
        /\ min_device_pixel_ratio standard = 1
        /\ min_device_pixel_ratio retina = 2)
  /\ (width <= 800 \/ ratio <= 0 -> matching ratio width = []).
Proof.
  unfold matching, html_rules, matches. simpl.
  split; [| split].
  - intros Hw ->.
    destruct (width_cases width) as [H | [H | [H | [H | [H | H]]]]];
      settle_bounds; try reflexivity; lia.
  - intros Hw Hr.
    destruct (width_cases width) as [H | [H | [H | [H | [H | H]]]]];
      settle_bounds; simpl; try lia;
      (eexists _, _; split; [reflexivity |]; split; reflexivity).
  - intros [Hw | Hr].
    + destruct (Z.leb_spec 1 ratio); destruct (Z.leb_spec 2 ratio);
        try lia; settle_bounds; reflexivity.
    + rewrite !(proj2 (Z.leb_gt 1 ratio)), !(proj2 (Z.leb_gt 2 ratio)) by lia.
      reflexivity.
Qed.

Lemma font_size_dense (ratio width : Z) :
  2 <= ratio -> html_font_size ratio width = html_font_size 2 width.
Proof.
  intros Hr. unfold html_font_size, cascade, html_rules, matches. simpl.
  rewrite !(proj2 (Z.leb_le 1 ratio)), !(proj2 (Z.leb_le 2 ratio)) by lia.
  reflexivity.
Qed.

Lemma font_size_coarse (ratio width : Z) :
  ratio <= 0 -> html_font_size ratio width = base_10.
Proof.
  intros Hr. unfold html_font_size, cascade, html_rules, matches. simpl.
  rewrite !(proj2 (Z.leb_gt 1 ratio)), !(proj2 (Z.leb_gt 2 ratio)) by lia.
  reflexivity.
Qed.

(** X8.  Whatever the display, the root font size is one of 50%, 56.3%, 62.5%
    and 68.8% ([@base-12] is never selected); it depends on the pixel ratio
    only through the class of the display (below 1, standard, 2 and more);
    and it is not monotone over all widths: at 800px the unconditional 62.5%
    applies, at 801px the first block brings it down to 50%. *)
Theorem font_size_range (ratio width : Z) :
  (html_font_size ratio width = base_8 \/ html_font_size ratio width = base_9
   \/ html_font_size ratio width = base_10 \/ html_font_size ratio width = base_11)
  /\ html_font_size ratio width <> base_12
  /\ (2 <= ratio -> html_font_size ratio width = html_font_size 2 width)
  /\ (ratio <= 0 -> html_font_size ratio width = base_10)
  /\ (1 <= ratio ->
      html_font_size ratio 800 = base_10 /\ html_font_size ratio 801 = base_8).
Proof.
  assert (Hclass : ratio <= 0 \/ ratio = 1 \/ 2 <= ratio) by lia.
  assert (Hvalue : html_font_size ratio width = base_8
                   \/ html_font_size ratio width = base_9
                   \/ html_font_size ratio width = base_10
                   \/ html_font_size ratio width = base_11).
  { destruct Hclass as [H | [-> | H]].
    - rewrite font_size_coarse by done. auto.
    - rewrite ThemeFacts.font_size_standard. split_bounds; auto.
    - rewrite font_size_dense, ThemeFacts.font_size_retina by done.
      split_bounds; auto. }
  split; [exact Hvalue |]. split.
  { unfold base_8, base_9, base_10, base_11, base_12 in *. lia. }
  split; [apply font_size_dense |]. split; [apply font_size_coarse |].
  intros Hr. destruct Hclass as [H | [-> | H]]; [lia | |].
  - rewrite !ThemeFacts.font_size_standard. split; reflexivity.
  - rewrite !(font_size_dense ratio) by done.
    rewrite !ThemeFacts.font_size_retina. split; reflexivity.
Qed.

Ltac settle_ltb :=
  repeat match goal with
         | |- context [ ?a <? ?b ] =>
             first [ rewrite (proj2 (Z.ltb_lt a b)) by lia
                   | rewrite (proj2 (Z.ltb_ge a b)) by lia ]
         end.

Lemma height_cases (h : Z) :
  h < 200 \/ 200 <= h < 300 \/ 300 <= h < 460 \/ 460 <= h < 580 \/ 580 <= h.
Proof. lia. Qed.

Lemma declared_values (h : Z) :
  declared appearance height h
  = (if h <? 200 then None else if h <? 300 then Some 60
     else if h <? 460 then Some 80 else Some 120)
  /\ declared appearance min_height h = (if h <? 580 then None else Some 220)
  /\ declared export_effects min_height h
     = (if h <? 200 then None else if h <? 460 then Some 0 else Some 46)
  /\ declared export_effects height h = (if h <? 580 then None else Some 80).
Proof.
  unfold declared, height_blocks. simpl.
  repeat split; split_bounds; simpl; try reflexivity; lia.
Qed.

(** X9.  Every declared height and minimum height of the two panel sections
    grows with the viewport height, and nothing is declared below 200px.
    From 580px on the appearance section keeps the height of 12rem the 460px
    block gave it, next to a minimum height of 22rem. *)
Theorem panel_heights_grow (sel : Section_) (prop : Property) (h1 h2 : Z) :
  (h1 <= h2 -> le_declared (declared sel prop h1) (declared sel prop h2))
  /\ (h1 < 200 -> declared sel prop h1 = None)
  /\ (580 <= h1 ->
      declared appearance height h1 = Some 120
      /\ declared appearance min_height h1 = Some 220).
Proof.
  destruct (declared_values h1) as (Ha1 & Hb1 & Hc1 & Hd1).
  destruct (declared_values h2) as (Ha2 & Hb2 & Hc2 & Hd2).
  split; [| split].
  - intros Hle.
    destruct (height_cases h1) as [H1 | [H1 | [H1 | [H1 | H1]]]];
      destruct (height_cases h2) as [H2 | [H2 | [H2 | [H2 | H2]]]];
      try lia;
      destruct sel, prop; rewrite ?Ha1, ?Hb1, ?Hc1, ?Hd1, ?Ha2, ?Hb2, ?Hc2, ?Hd2;
      settle_ltb; simpl; lia.
  - intros Hlt.
    destruct sel, prop; rewrite ?Ha1, ?Hb1, ?Hc1, ?Hd1; settle_ltb; reflexivity.
  - intros Hge. rewrite Ha1, Hb1. settle_ltb. done.
Qed.

Lemma font_size_blocks_tile_witness :
  List.length (matching 1 1500) = 1%nat /\ matching 2 700 = [].
Proof.
  destruct (font_size_blocks_tile 1 1500) as (Hone & _ & _).
  destruct (font_size_blocks_tile 2 700) as (_ & _ & Hnone).
  split; [apply Hone; [lia | reflexivity] | apply Hnone; left; lia].
Defined.

Lemma font_size_range_witness :
  html_font_size 3 2000 = html_font_size 2 2000 /\ html_font_size 1 801 = base_8.
Proof.
  destruct (font_size_range 3 2000) as (_ & _ & Hclass & _).
  destruct (font_size_range 1 0) as (_ & _ & _ & _ & Hdrop).
  split; [apply Hclass; lia | apply Hdrop; lia].
Defined.

Lemma panel_heights_grow_witness :
  le_declared (declared appearance height 250) (declared appearance height 500)
  /\ declared appearance min_height 600 = Some 220.
Proof.
  destruct (panel_heights_grow appearance height 250 500) as (Hgrow & _ & _).
  destruct (panel_heights_grow appearance height 600 600) as (_ & _ & Hboth).
  split; [apply Hgrow; lia | apply Hboth; lia].
Defined.

End ThemePanelsFacts.

(* ===================================================================== *)
(** ** More on the bounds store *)
(* ===================================================================== *)


Module BoundsStoreMoreFacts.
Import BoundsStore.

Section Facts.
Context {Raw Bounds : Type} (newBounds : LayerObj Raw -> Bounds).

Local Abbreviation run := (run newBounds).
Local Abbreviation handle := (handle newBounds).
Local Abbreviation layerBoundsMap := (layerBoundsMap newBounds).

Lemma handle_is_reset (st : Store Bounds) (ev : Event Raw) :
  handle st ev = _resetDocumentLayerBounds newBounds st (payload_of ev).
Proof. by destruct ev. Qed.

Lemma run_app (evs : list (Event Raw)) (ev : Event Raw) :
  run (evs ++ [ev]) = handle (run evs) ev.
Proof. unfold BoundsStore.run. by rewrite fold_left_app. Qed.

(** The store emits one "change" per event it handles, whatever the
    payload, an empty one included. *)
Theorem one_change_per_event (evs : list (Event Raw)) :
  emitted (run evs) = replicate (List.length evs) "change".
Proof.
  induction evs as [| ev evs IH] using rev_ind; [done |].
  rewrite run_app, handle_is_reset, length_app. simpl. rewrite IH.
  rewrite Nat.add_1_r. by rewrite replicate_S_end.
Qed.

(** X10.  What the store holds after an event, duplicates included: a document
    of the payload holds the map built from the last payload entry with its
    ID, every other document what it held; and in such a map a layer ID
    holds the Bounds of the last layer descriptor with that ID. *)
Theorem last_entry_wins (st : Store Bounds) (ev : Event Raw) (d lID : Z)
    (layerArray : list (LayerObj Raw)) :
  _layerBounds (handle st ev) !! d
  = match last_with (fun docObj : DocObj Raw => documentID (document docObj)) d
            (documents (payload_of ev)) with
    | Some docObj => Some (layerBoundsMap (layers docObj))
    | None => _layerBounds st !! d
    end
  /\ layerBoundsMap layerArray !! lID
     = newBounds <$> last_with layerID lID layerArray.
Proof.
  split.
  - rewrite handle_is_reset. simpl.
    apply (lookup_assign_all_last
             (fun docObj : DocObj Raw => documentID (document docObj))
             (fun docObj => layerBoundsMap (layers docObj))).
  - unfold BoundsStore.layerBoundsMap.
    rewrite (lookup_assign_all_last layerID newBounds), lookup_empty.
    by destruct (last_with layerID lID layerArray).
Qed.

(** X11.  Handling the same event again changes no bounds: it only emits
    another "change". *)
Theorem handle_idempotent (st : Store Bounds) (ev : Event Raw) :
  _layerBounds (handle (handle st ev) ev) = _layerBounds (handle st ev)
  /\ _documentBounds (handle (handle st ev) ev) = _documentBounds (handle st ev)
  /\ emitted (handle (handle st ev) ev) = emitted (handle st ev) ++ ["change"].
Proof.
  rewrite !handle_is_reset. simpl. split; [| done].
  apply (assign_all_twice
           (fun docObj : DocObj Raw => documentID (document docObj))
           (fun docObj => layerBoundsMap (layers docObj))).
Qed.

(** X12.  An update replaces the bounds of a document, it does not merge them: a
    layer that is absent from the document's entry in the latest payload
    has no bounds afterwards, whatever the store held for it before. *)
Theorem update_drops_absent_layers (st : Store Bounds) (ev : Event Raw)
    (docObj : DocObj Raw) (lID : Z) :
  docObj ∈ documents (payload_of ev) ->
  NoDup (documentIDs (payload_of ev)) ->
  lID ∉ layerIDs docObj ->
  getLayerBounds (handle st ev) (documentID (document docObj)) lID = Ok None.
Proof.
  intros Hin Hnd Hl. unfold getLayerBounds.
  assert (Hm : _layerBounds (handle st ev) !! documentID (document docObj)
               = Some (layerBoundsMap (layers docObj))).
  { rewrite handle_is_reset. simpl.
    apply (lookup_assign_all_nodup
             (fun docObj : DocObj Raw => documentID (document docObj))
             (fun docObj => layerBoundsMap (layers docObj))); done. }
  rewrite Hm. f_equal.
  apply (lookup_assign_all_notin layerID newBounds). done.
Qed.

(** X13.  The store never forgets a document: once an ID has a layer-bounds map
    it keeps one through every later event, RESET_DOCUMENTS with a payload
    that leaves the document out included. *)
Theorem documents_never_forgotten (st : Store Bounds) (evs : list (Event Raw))
    (d : Z) :
  is_Some (_layerBounds st !! d) ->
  is_Some (_layerBounds (fold_left handle evs st) !! d).
Proof.
  revert st. induction evs as [| ev evs IH]; intros st Hst; [done |].
  simpl. apply IH. rewrite handle_is_reset. simpl.
  apply (lookup_assign_all_is_Some
           (fun docObj : DocObj Raw => documentID (document docObj))
           (fun docObj => layerBoundsMap (layers docObj))).
  by right.
Qed.

End Facts.

Lemma update_drops_absent_layers_witness :
  getLayerBounds
    (handle (fun l : LayerObj unit => l)
       (handle (fun l : LayerObj unit => l) initialize
          (RESET_DOCUMENTS
             {| documents :=
                  [ {| document := {| documentID := 1 |};
                       layers := [ {| layerID := 9; properties := () |} ] |} ] |}))
       sample_event) 1 9
  = Ok None.
Proof.
  apply (update_drops_absent_layers (fun l : LayerObj unit => l) _ sample_event
           {| document := {| documentID := 1 |};
              layers := [ {| layerID := 7; properties := () |};
                          {| layerID := 8; properties := () |} ] |}).
  - apply list_elem_of_here.
  - simpl. apply NoDup_singleton.
  - simpl. intros Hin. apply elem_of_cons in Hin as [Heq | Hin]; [discriminate |].
    apply list_elem_of_singleton in Hin. discriminate.
Defined.

Lemma documents_never_forgotten_witness :
  is_Some (_layerBounds
             (fold_left (handle (fun l : LayerObj unit => l))
                [RESET_DOCUMENTS {| documents := [] |}]
                (handle (fun l : LayerObj unit => l) initialize sample_event)) !! 1).
Proof.
  apply (documents_never_forgotten (fun l : LayerObj unit => l)).
  by eexists.
Defined.

End BoundsStoreMoreFacts.

(* ===================================================================== *)
(** ** More on the layer actions *)
(* ===================================================================== *)

(** How lodash walks: an object by its properties, unless it owns a
    "length" that is a length; an array, a string and such an object by
    index.  [_.pluck] reads the property of each element walked. *)
Example each_samples :
  each (VObj [("a", VNum 1); ("b", VNum 2)]) = [(KStr "a", VNum 1); (KStr "b", VNum 2)]
  /\ each (VObj [("length", VNum 0); ("a", VNum 1)]) = []
  /\ each (VObj [("length", VNum 2); ("0", VStr "x")])
     = [(KNum 0, VStr "x"); (KNum 1, VUndefined)]
  /\ each (VObj [("length", VNum (-1)); ("a", VNum 1)])
     = [(KStr "length", VNum (-1)); (KStr "a", VNum 1)]
  /\ each (VArr [VNum 5; VNull]) = [(KNum 0, VNum 5); (KNum 1, VNull)]
  /\ each (VStr "ab") = [(KNum 0, VStr "a"); (KNum 1, VStr "b")]
  /\ each (VNum 7) = [] /\ each VNull = [] /\ each VUndefined = [].
Proof. repeat split. Qed.

Example pluck_samples :
  Layers.pluck (VArr [VObj [("index", VNum 3)]; VObj [("index", VNum 1)]]) "index"
  = VArr [VNum 3; VNum 1]
  /\ Layers.pluck (VObj [("a", VObj [("index", VNum 3)]);
                         ("b", VObj [("index", VNum 1)])]) "index"
     = VArr [VNum 3; VNum 1]
  /\ Layers.pluck (VArr [VNull; VNum 4]) "index" = VArr [VUndefined; VUndefined]
  /\ Layers.pluck (VStr "ab") "index" = VArr [VUndefined; VUndefined]
  /\ Layers.pluck VUndefined "index" = VArr [].
Proof. repeat split. Qed.

Module LayersMoreFacts.
Import Layers.

Section Facts.
Context (env : Environment).

Lemma effects_then_playObject (obj : PlayObject) (callback : Value -> Promise) :
  effects (then_ (descriptor_playObject env obj) callback)
  = PlayObjectCall obj ::
      match playObject env obj with
      | Some v => effects (callback v)
      | None => []
      end.
Proof.
  unfold descriptor_playObject, then_.
  destruct (playObject env obj) as [v |]; [| reflexivity].
  destruct (callback v) as [es r]. reflexivity.
Qed.

Lemma settled_then_playObject (obj : PlayObject) (callback : Value -> Promise) :
  (then_ (descriptor_playObject env obj) callback).2
  = match playObject env obj with
    | Some v => (callback v).2
    | None => None
    end.
Proof.
  unfold descriptor_playObject, then_.
  destruct (playObject env obj) as [v |]; [| reflexivity].
  destruct (callback v) as [es r]. reflexivity.
Qed.

(** X14.  The select command hands the host one play object, whose reference is
    the document followed by the layers in order.  A plain selection (no
    modifier, or "select") tells the stores at once, by IDs, and asks the
    host nothing more.  Any other modifier tells the stores nothing until
    the host has answered: then the command reads the document's
    targetLayers and dispatches their indices.  The promise settles with
    the selection alone: a failed read of targetLayers is not reported. *)
Theorem select_by_modifier (document : Document) (layerSpec : list Layer)
    (modifier : option string) :
  let docRef := documentLib_referenceBy_id (document_id document) in
  let selectObj :=
    layerLib_select
      (docRef :: map (fun layer => layerLib_referenceBy_id (layer_id layer)) layerSpec)
      false modifier in
  let command := selectLayerCommand env document layerSpec modifier in
  played (effects command) = [selectObj]
  /\ command.2 = (if playObject env selectObj is Some _ then Some VUndefined else None)
  /\ (plain_select modifier = true ->
      effects command
      = [ NextTickDispatch SELECT_LAYERS_BY_ID
            [("documentID", VNum (document_id document));
             ("selectedIDs", pluck_id layerSpec)];
          PlayObjectCall selectObj ])
  /\ (plain_select modifier = false ->
      effects command
      = PlayObjectCall selectObj ::
          match playObject env selectObj with
          | None => []
          | Some _ =>
              GetPropertyCall docRef "targetLayers" ::
                match getProperty env docRef "targetLayers" with
                | None => []
                | Some targetLayers =>
                    [ Dispatch SELECT_LAYERS_BY_INDEX
                        [("documentID", VNum (document_id document));
                         ("selectedIndices", pluck targetLayers "index")] ]
                end
          end).
Proof.
  intros docRef selectObj command. subst command. unfold selectLayerCommand.
  fold docRef. fold selectObj.
  change (effects (after ?es ?p)) with (es ++ effects p).
  change ((after ?es ?p).2) with (p.2).
  rewrite effects_then_playObject, settled_then_playObject.
  destruct (plain_select modifier) eqn:Hplain.
  - destruct (playObject env selectObj); simpl; repeat split; done.
  - destruct (playObject env selectObj); simpl; [| repeat split; done].
    unfold descriptor_getProperty, then_, effects.
    destruct (getProperty env docRef "targetLayers"); simpl; repeat split; done.
Qed.

(** X15.  The descriptors the host gets from deselectAll, deleteSelected and the
    unlocking of a background layer do not name the document: deselectAll
    plays the same object for any document that has layers, deleteSelected
    always deletes the host's current selection, and the unlocking names
    the layer only. *)
Theorem host_calls_ignore_document (document1 document2 : Document) (layer : Layer) :
  (all (layers document1) <> [] -> all (layers document2) <> [] ->
   played (effects (deselectAllLayersCommand env (Given document1)))
   = played (effects (deselectAllLayersCommand env (Given document2))))
  /\ (forall d lyrs obj options flag,
        PlayWithLockOverride d lyrs obj options flag
          ∈ effects (deleteSelectedLayersCommand env (Given document1)) ->
        obj = layerLib_delete layerLib_referenceBy_current)
  /\ played (effects (_unlockBackgroundLayer env document1 layer))
     = played (effects (_unlockBackgroundLayer env document2 layer)).
Proof.
  split; [| split].
  - intros H1 H2. unfold deselectAllLayersCommand, resolveDocument.
    rewrite !bool_decide_eq_false_2 by done. reflexivity.
  - intros d lyrs obj options flag. unfold deleteSelectedLayersCommand, resolveDocument.
    destruct (_ || _); simpl.
    + intros Hin. by apply elem_of_nil in Hin.
    + intros Hin. apply elem_of_cons in Hin as [Heq | Hin]; [discriminate |].
      apply list_elem_of_singleton in Hin. by injection Hin as _ _ <- _ _.
  - unfold _unlockBackgroundLayer. rewrite !effects_then_playObject. simpl.
    by destruct (playObject env _).
Qed.

Import LayersOrder.

Lemma stores_first_sound (es : list Effect) :
  stores_first_b es = true -> stores_first es.
Proof.
  destruct es as [| e rest]; intros Hb i ev payload Hi.
  - by rewrite lookup_nil in Hi.
  - destruct i as [| i]; [done |]. simpl in Hi, Hb.
    apply list_elem_of_lookup_2 in Hi.
    rewrite forallb_forall in Hb. apply list_elem_of_In, Hb in Hi. done.
Qed.

Lemma host_before_dispatch_sound (es : list Effect) :
  forall called,
    host_before_dispatch_b called es = true ->
    forall i ev payload,
      es !! i = Some (Dispatch ev payload) ->
      called = true
      \/ exists j e, (j < i)%nat /\ es !! j = Some e /\ is_host_call e = true.
Proof.
  induction es as [| e rest IH]; intros called Hb i ev payload Hi.
  - by rewrite lookup_nil in Hi.
  - simpl in Hb. apply andb_true_iff in Hb as [Hhere Hrest].
    destruct i as [| i].
    + simpl in Hi. injection Hi as ->. simpl in Hhere. by left.
    + simpl in Hi. destruct (IH _ Hrest i ev payload Hi) as [Hc | (j & e' & Hj & He' & Hcall)].
      * apply orb_true_iff in Hc as [Hc | Hc]; [by left |].
        right. exists 0%nat, e. split; [lia | done].
      * right. exists (S j), e'. split; [lia | done].
Qed.

Lemma ordered_sound (p : Promise) :
  stores_first_b (effects p) && host_before_dispatch_b false (effects p) = true ->
  ordered p.
Proof.
  intros Hb. apply andb_true_iff in Hb as [H1 H2]. split.
  - by apply stores_first_sound.
  - intros i ev payload Hi.
    by destruct (host_before_dispatch_sound _ _ H2 i ev payload Hi).
Qed.

Ltac settle_order :=
  apply ordered_sound;
  cbv [effects after then_ descriptor_playObject descriptor_getProperty
       Promise_resolve fst snd];
  repeat case_match; simplify_eq; reflexivity.

(** X16.  Every command tells the stores before the host or after it, never in
    between: a dispatch scheduled for the next tick is the first thing the
    command does, ahead of any host call, and a dispatch made in a callback
    comes after a host call has been issued. *)
Theorem commands_ordered (document : Document) (layerSpec : list Layer)
    (modifier : option string) (layer : Layer) (newName : string)
    (arg : DocumentArg) (flag : bool) :
  ordered (selectLayerCommand env document layerSpec modifier)
  /\ ordered (renameLayerCommand env document layer newName)
  /\ ordered (deselectAllLayersCommand env arg)
  /\ ordered (selectAllLayersCommand env arg)
  /\ ordered (deleteSelectedLayersCommand env arg)
  /\ ordered (groupSelectedLayersCommand env document)
  /\ ordered (groupSelectedLayersInCurrentDocumentCommand env)
  /\ ordered (setVisibilityCommand env document layer flag)
  /\ ordered (setLockingCommand env document layer flag).
Proof.
  repeat split.
  all: try (unfold selectLayerCommand; settle_order).
  all: try (unfold renameLayerCommand; settle_order).
  all: try (unfold deselectAllLayersCommand; settle_order).
  all: try (unfold selectAllLayersCommand, selectLayerCommand; settle_order).
  all: try (unfold deleteSelectedLayersCommand; settle_order).
  all: try (unfold groupSelectedLayersCommand; settle_order).
  all: try (unfold groupSelectedLayersInCurrentDocumentCommand,
              groupSelectedLayersCommand; settle_order).
  all: try (unfold setVisibilityCommand; settle_order).
  all: try (unfold setLockingCommand, _unlockBackgroundLayer; settle_order).
Qed.

End Facts.

Lemma host_calls_ignore_document_witness :
  played (effects (deselectAllLayersCommand (quiet None) (Given sample_document)))
  = played (effects (deselectAllLayersCommand (quiet None)
                       (Given {| document_id := 77;
                                 layers := layers sample_document |}))).
Proof.
  destruct (host_calls_ignore_document (quiet None) sample_document
              {| document_id := 77; layers := layers sample_document |}
              sample_layer) as (Hsame & _ & _).
  apply Hsame; discriminate.
Defined.

Lemma select_by_modifier_witness :
  effects (selectLayerCommand (quiet None) sample_document [sample_layer] (Some "add"))
  = [ PlayObjectCall
        (layerLib_select [documentLib_referenceBy_id 5; layerLib_referenceBy_id 2]
           false (Some "add"));
      GetPropertyCall (documentLib_referenceBy_id 5) "targetLayers";
      Dispatch SELECT_LAYERS_BY_INDEX
        [("documentID", VNum 5); ("selectedIndices", VArr [])] ].
Proof.
  destruct (select_by_modifier (quiet None) sample_document [sample_layer] (Some "add"))
    as (_ & _ & _ & Hother).
  exact (Hother eq_refl).
Defined.

End LayersMoreFacts.

(* ===================================================================== *)
(** ** Theorems: descriptors read from the host *)
(* ===================================================================== *)

Module LayerQueriesFacts.
Import Layers LayerQueries.

Lemma refObjsFor_acc (props : list string) (references : list (list Ref))
    (acc : list RefObj) :
  fold_left
    (fun refs reference =>
       refs ++ map (fun property => {| reference := reference; property := property |})
                   props)
    references acc
  = acc ++ concat (map (fun reference =>
                          map (fun property =>
                                 {| reference := reference; property := property |})
                              props)
                       references).
Proof.
  revert acc. induction references as [|r references IH]; intros acc; simpl.
  - by rewrite app_nil_r.
  - rewrite IH. by rewrite <- app_assoc.
Qed.

Lemma refObjsFor_flat (props : list string) (references : list (list Ref)) :
  refObjsFor props references
  = concat (map (fun reference =>
                   map (fun property =>
                          {| reference := reference; property := property |})
                       props)
                references).
Proof. unfold refObjsFor. by rewrite refObjsFor_acc. Qed.

Lemma length_refObjsFor (props : list string) (references : list (list Ref)) :
  List.length (refObjsFor props references)
  = (List.length references * List.length props)%nat.
Proof.
  rewrite refObjsFor_flat.
  induction references as [|r references IH]; simpl; [done|].
  rewrite length_app, length_map, IH. done.
Qed.

Section Regroup.
Context (props : list string)
        (store : string -> Value -> Descriptor -> Descriptor).
Hypothesis props_nonempty : props <> [].

Local Abbreviation step :=
  (fun results (entry : nat * Value) => collect props store results entry.1 entry.2).

Lemma alter_last (f : Descriptor -> Descriptor) (results : list Descriptor)
    (x : Descriptor) :
  alter f (List.length (results ++ [x]) - 1)%nat (results ++ [x]) = results ++ [f x].
Proof.
  replace (List.length (results ++ [x]) - 1)%nat with (List.length results + 0)%nat
    by (rewrite length_app; simpl; lia).
  by rewrite alter_app_r.
Qed.

Lemma chunk_rest (answer : string -> Value) (k : nat) (results : list Descriptor) :
  forall (todo seen : list string) (partial : Descriptor),
    props = seen ++ todo -> seen <> [] ->
    fold_left step
      (imap (fun i v => ((k * List.length props + List.length seen + i)%nat, v))
            (map answer todo))
      (results ++ [partial])
    = results ++ [fold_left (fun result property =>
                               store property (answer property) result)
                            todo partial].
Proof.
  induction todo as [|p todo IH]; intros seen partial Hp Hd; [done|].
  rewrite fmap_cons, imap_cons. cbn [fold_left].
  assert (Hlt : (List.length seen < List.length props)%nat)
    by (rewrite Hp, length_app; simpl; lia).
  assert (Hpos : (List.length seen =? 0)%nat = false)
    by (destruct seen; [done | reflexivity]).
  unfold collect at 2. simpl fst. simpl snd.
  replace (k * List.length props + List.length seen + 0)%nat
    with (List.length seen + k * List.length props)%nat by lia.
  rewrite Nat.Div0.mod_add, Nat.mod_small by exact Hlt.
  rewrite Hpos.
  rewrite Hp at 1. rewrite (list_lookup_middle seen todo p) by reflexivity.
  rewrite alter_last.
  rewrite (imap_ext _
             (fun i v => ((k * List.length props + List.length (seen ++ [p]) + i)%nat, v))).
  - rewrite (IH (seen ++ [p])).
    + reflexivity.
    + by rewrite <- app_assoc.
    + by destruct seen.
  - intros i x _. simpl. rewrite length_app. simpl. f_equal. lia.
Qed.

Lemma chunk (answer : string -> Value) (k : nat) (results : list Descriptor) :
  List.length results = k ->
  fold_left step
    (imap (fun i v => ((k * List.length props + i)%nat, v)) (map answer props))
    results
  = results ++ [gather props store answer].
Proof.
  intros Hk. unfold gather.
  assert (H : forall l, props = l ->
            fold_left step
              (imap (fun i v => ((k * List.length props + i)%nat, v)) (map answer l))
              results
            = results ++ [fold_left (fun result property =>
                                       store property (answer property) result)
                                    l ∅]); [|by apply H].
  intros [|p rest] Hp; [done|].
  rewrite fmap_cons, imap_cons. cbn [fold_left].
  unfold collect at 2. simpl fst. simpl snd.
  rewrite Nat.add_0_r, Nat.Div0.mod_mul. simpl Nat.eqb. cbv iota.
  rewrite Hp at 1. simpl lookup. cbv iota.
  rewrite alter_last.
  rewrite (imap_ext _
             (fun i v => ((k * List.length props + List.length [p] + i)%nat, v))).
  - rewrite (chunk_rest answer k results rest [p]); [reflexivity | done | done].
  - intros i x _. simpl. f_equal. lia.
Qed.

Lemma regroup_acc (g : list Ref -> string -> Value) (references : list (list Ref)) :
  fold_left step
    (imap (fun index value => (index, value))
          (concat (map (fun reference => map (g reference) props) references)))
    []
  = map (fun reference => gather props store (g reference)) references.
Proof.
  induction references as [|r references IH] using rev_ind; [done|].
  rewrite !map_app, concat_app, imap_app, fold_left_app, IH.
  simpl. rewrite app_nil_r.
  rewrite (imap_ext _
             (fun i v => ((List.length references * List.length props + i)%nat, v))).
  - rewrite chunk; [reflexivity|]. by rewrite length_map.
  - intros i x _. f_equal. f_equal.
    clear. induction references as [|r' references IH]; simpl; [done|].
    rewrite length_app, length_map, IH. done.
Qed.

Lemma regroup_chunks (g : list Ref -> string -> Value) (references : list (list Ref)) :
  regroup props store
    (map (fun ro => g (reference ro) (property ro)) (refObjsFor props references))
  = map (fun reference => gather props store (g reference)) references.
Proof.
  unfold regroup. rewrite <- regroup_acc. do 2 f_equal.
  rewrite refObjsFor_flat.
  induction references as [|r references IH]; simpl; [done|].
  rewrite map_app, IH. f_equal.
  rewrite map_map. done.
Qed.

End Regroup.

Ltac settle_elem :=
  exfalso;
  repeat match goal with
         | H : _ ∈ [] |- _ => apply elem_of_nil in H
         | H : _ ∈ _ :: _ |- _ => apply elem_of_cons in H
         | H : ¬ (_ ∈ _ :: _) |- _ => rewrite elem_of_cons in H
         end;
  tauto.

Ltac split_decide :=
  repeat match goal with
         | |- context [ decide ?P ] => destruct (decide P)
         end.

Lemma lookup_gather_required (props : list string) (answer : string -> Value)
    (q : string) :
  gather props store_required answer !! q
  = if decide (q ∈ props) then Some (answer q) else None.
Proof.
  unfold gather.
  assert (H : forall m : Descriptor,
             fold_left (fun result property =>
                          store_required property (answer property) result) props m !! q
             = if decide (q ∈ props) then Some (answer q) else m !! q).
  { induction props as [|p props IH]; intros m; cbn [fold_left].
    - case_decide; [settle_elem | done].
    - rewrite IH. unfold store_required.
      destruct (decide (q = p)) as [->|Hne].
      + rewrite lookup_insert_eq. split_decide; try done; settle_elem.
      + rewrite lookup_insert_ne by done.
        split_decide; try done; settle_elem. }
  rewrite H. by case_decide.
Qed.

Lemma lookup_gather_optional (props : list string) (answer : string -> Value)
    (q : string) :
  gather props store_optional answer !! q
  = if decide (q ∈ props) then owned (answer q) q else None.
Proof.
  unfold gather.
  assert (H : forall m : Descriptor,
             fold_left (fun result property =>
                          store_optional property (answer property) result) props m !! q
             = if decide (q ∈ props)
               then match owned (answer q) q with Some x => Some x | None => m !! q end
               else m !! q).
  { induction props as [|p props IH]; intros m; cbn [fold_left].
    - case_decide; [settle_elem | done].
    - rewrite IH. unfold store_optional.
      destruct (decide (q = p)) as [->|Hne].
      + destruct (owned (answer p) p) eqn:Hq;
          rewrite ?lookup_insert_eq; split_decide; try done; settle_elem.
      + destruct (owned (answer p) p) eqn:Hp;
          rewrite ?lookup_insert_ne by done;
          split_decide; try done; settle_elem. }
  rewrite H. case_decide; [|done]. by destruct (owned _ _).
Qed.

Lemma properties_disjoint (p : string) :
  p ∈ _layerProperties -> p ∈ _optionalLayerProperties -> False.
Proof.
  unfold _layerProperties, _optionalLayerProperties.
  rewrite !elem_of_cons, !elem_of_nil. intros H1 H2.
  repeat (destruct H1 as [->|H1]);
    try (repeat (destruct H2 as [H2|H2]; [discriminate|]); done).
Qed.

Section Host.
Context (host : Host) (required optional : list Ref -> string -> Value).

Lemma getLayersByRef_value (references : list (list Ref)) :
  answers_in_order host required optional references ->
  _getLayersByRef host references
  = Some (map (fun reference =>
                 gather _optionalLayerProperties store_optional (optional reference)
                 ∪ gather _layerProperties store_required (required reference))
              references).
Proof.
  intros [Hreq Hopt]. unfold _getLayersByRef. rewrite Hreq, Hopt. simpl.
  rewrite !regroup_chunks by done. f_equal.
  apply list_eq. intros i.
  rewrite list_lookup_imap.
  change (map ?f references) with (f <$> references).
  rewrite !list_lookup_fmap.
  by destruct (references !! i) as [r|].
Qed.



End Host.

(** The answer of the host is not checked against the request: when the
    host answers the required properties with no value at all,
    RESET_LAYERS is still dispatched, with every layer's descriptor
    undefined. *)
Theorem reset_with_empty_answer (host : Host) (document : Document)
    (lyrs : list Layer) (optional : list Value) :
  let layerRefs :=
    map (fun layer =>
           [ ref (documentLib_referenceBy_id (document_id document));
             ref (layerLib_referenceBy_id (layer_id layer)) ])
        lyrs in
  batchGetProperties host (refObjsFor _layerProperties layerRefs) = Some [] ->
  batchGetPropertiesContinue host (refObjsFor _optionalLayerProperties layerRefs)
  = Some optional ->
  resetLayersCommand host document lyrs
  = Some {| reset_documentID := document_id document;
            reset_layers := map (fun layer => (layer_id layer, None)) lyrs |}.
Proof.
  intros layerRefs Hreq Hopt. unfold resetLayersCommand, _getLayersByRef.
  fold layerRefs. rewrite Hreq, Hopt. simpl. do 2 f_equal.
  apply list_eq. intros i. rewrite list_lookup_imap.
  change (map ?f lyrs) with (f <$> lyrs). rewrite list_lookup_fmap.
  by destruct (lyrs !! i).
Qed.

Lemma elem_of_range_down (start stop i : Z) :
  i ∈ range_down start stop <-> stop < i <= start.
Proof.
  unfold range_down. change (map ?f ?l) with (f <$> l).
  rewrite list_elem_of_fmap. split.
  - intros (n & -> & Hn). apply elem_of_seq in Hn. lia.
  - intros Hi. exists (Z.to_nat (start - i)). split; [lia|].
    apply elem_of_seq. lia.
Qed.

Lemma lookup_range_down (start stop : Z) (j : nat) (i : Z) :
  range_down start stop !! j = Some i ->
  i = start - Z.of_nat j /\ (j < Z.to_nat (start - stop))%nat.
Proof.
  unfold range_down. change (map ?f ?l) with (f <$> l).
  rewrite list_lookup_fmap. intros H.
  destruct (seq 0 (Z.to_nat (start - stop)) !! j) as [n|] eqn:Hn; [|done].
  apply lookup_seq in Hn. simpl in *. destruct Hn as [-> Hlt].
  by injection H as <-.
Qed.

(** X19.  The layers whose ID [_getLayerIDsForDocument] asks of the host
    are referenced by index in the document the descriptor names: exactly
    the indices from [numberOfLayers] down to 0 when the document has a
    background layer and down to 1 when it has none, each once, in
    descending order. *)
Theorem layer_indices_asked (doc : DocumentDescriptor) :
  let lowest := if doc_hasBackgroundLayer doc then 0 else 1 in
  (forall reference, reference ∈ layerIndexRefs doc ->
     exists i, reference = [ ref (documentLib_referenceBy_id (doc_documentID doc));
                             layerLib_referenceBy_index i ])
  /\ (forall i,
        [ ref (documentLib_referenceBy_id (doc_documentID doc));
          layerLib_referenceBy_index i ] ∈ layerIndexRefs doc
        <-> lowest <= i <= doc_numberOfLayers doc)
  /\ List.length (layerIndexRefs doc)
     = Z.to_nat (doc_numberOfLayers doc - lowest + 1)
  /\ (forall (j k : nat) d1 d2 i1 i2,
        (j < k)%nat ->
        layerIndexRefs doc !! j = Some [d1; layerLib_referenceBy_index i1] ->
        layerIndexRefs doc !! k = Some [d2; layerLib_referenceBy_index i2] ->
        i2 < i1).
Proof.
  intros lowest. unfold layerIndexRefs. fold lowest.
  change (map ?f ?l) with (f <$> l).
  split; [|split; [|split]].
  - intros reference Hin. apply list_elem_of_fmap in Hin as (i & -> & _). by exists i.
  - intros i. rewrite list_elem_of_fmap. split.
    + intros (i' & Heq & Hin). injection Heq as <-.
      apply elem_of_range_down in Hin. lia.
    + intros Hi. exists i. split; [done|]. apply elem_of_range_down. lia.
  - rewrite length_fmap. unfold range_down. rewrite length_map, length_seq.
    f_equal. lia.
  - intros j k d1 d2 i1 i2 Hjk H1 H2.
    rewrite list_lookup_fmap in H1, H2.
    destruct (range_down _ _ !! j) as [a|] eqn:Ha; [|done].
    destruct (range_down _ _ !! k) as [b|] eqn:Hb; [|done].
    simpl in H1, H2. injection H1 as _ <-. injection H2 as _ <-.
    apply lookup_range_down in Ha, Hb. lia.
Qed.

(** X20.  [reorderLayersCommand] first plays the reorder of the document's
    reference followed by the layers' references in the given order;
    REORDER_LAYERS is dispatched exactly when the host resolves the reorder,
    then the document descriptor, then the layer IDs asked by index, and it
    then carries the command's document ID and the host's layer IDs as
    received; nothing follows the dispatch. *)
Theorem reorder_dispatches_after_host (host : Host) (documentID : Z)
    (layerSpec : list Z) (targetIndex : Z) :
  let documentRef := ref (documentLib_referenceBy_id documentID) in
  let layerRef :=
    documentRef :: map (fun layerID => ref (layerLib_referenceBy_id layerID)) layerSpec in
  let targetRef := layerLib_referenceBy_index targetIndex in
  let calls := reorderLayersCommand host documentID layerSpec targetIndex in
  head calls = Some (PlayReorder layerRef targetRef)
  /\ (forall d ids,
        DispatchReorderLayers d ids ∈ calls
        <-> d = documentID
            /\ exists v doc,
                 playReorder host layerRef targetRef = Some v
                 /\ getDocument host documentRef = Some doc
                 /\ batchGetProperty host (layerIndexRefs doc) "layerID" = Some ids)
  /\ (forall d ids, DispatchReorderLayers d ids ∈ calls ->
        last calls = Some (DispatchReorderLayers d ids)
        /\ List.length calls = 4%nat).
Proof.
  intros documentRef layerRef targetRef calls.
  subst calls. unfold reorderLayersCommand.
  fold documentRef. fold layerRef. fold targetRef.
  split; [reflexivity|].
  destruct (playReorder host layerRef targetRef) as [v|] eqn:Hplay.
  2:{ split.
      - intros d ids. split.
        + intros Hin. apply list_elem_of_singleton in Hin. discriminate.
        + intros (_ & v & doc & Hv & _). discriminate.
      - intros d ids Hin. apply list_elem_of_singleton in Hin. discriminate. }
  destruct (getDocument host documentRef) as [doc|] eqn:Hdoc.
  2:{ split.
      - intros d ids. split.
        + intros Hin. repeat (apply elem_of_cons in Hin as [Hin|Hin]; [discriminate|]).
          by apply elem_of_nil in Hin.
        + intros (_ & v' & doc & _ & Hd & _). discriminate.
      - intros d ids Hin.
        repeat (apply elem_of_cons in Hin as [Hin|Hin]; [discriminate|]).
        by apply elem_of_nil in Hin. }
  destruct (batchGetProperty host (layerIndexRefs doc) "layerID") as [layerIDs|]
    eqn:Hids.
  2:{ split.
      - intros d ids. split.
        + intros Hin. repeat (apply elem_of_cons in Hin as [Hin|Hin]; [discriminate|]).
          by apply elem_of_nil in Hin.
        + intros (_ & v' & doc' & _ & Hd & Hi). injection Hd as <-.
          rewrite Hids in Hi. discriminate.
      - intros d ids Hin.
        repeat (apply elem_of_cons in Hin as [Hin|Hin]; [discriminate|]).
        by apply elem_of_nil in Hin. }
  split.
  - intros d ids. split.
    + intros Hin. repeat (apply elem_of_cons in Hin as [Hin|Hin]; [discriminate|]).
      apply list_elem_of_singleton in Hin. injection Hin as -> ->.
      split; [done|]. by exists v, doc.
    + intros (-> & v' & doc' & _ & Hd & Hi). injection Hd as <-.
      rewrite Hids in Hi. injection Hi as <-.
      do 3 apply list_elem_of_further. apply list_elem_of_here.
  - intros d ids Hin. repeat (apply elem_of_cons in Hin as [Hin|Hin]; [discriminate|]).
    apply list_elem_of_singleton in Hin. injection Hin as -> ->. done.
Qed.



Lemma reset_with_empty_answer_witness :
  resetLayersCommand silent_host sample_document [sample_layer; sample_background]
  = Some {| reset_documentID := document_id sample_document;
            reset_layers := [ (layer_id sample_layer, None);
                              (layer_id sample_background, None) ] |}.
Proof.
  apply (reset_with_empty_answer silent_host sample_document
           [sample_layer; sample_background] []); reflexivity.
Defined.

End LayerQueriesFacts.

(* ===================================================================== *)
(** ** Theorems: menu bar, what is built and how it is updated *)
(* ===================================================================== *)

Module MenuBarMoreFacts.
Import MenuBar MenuBarUpdates MenuActionsFacts.

Section Facts.
Context `{Collaborators}.

Lemma action_assignment_visit (l : list Visit) (k : Key) :
  k ∈ map fst (action_assignments l) -> k ∈ map visit_id l.
Proof.
  unfold action_assignments. induction l as [|v l IH]; simpl; [done|].
  destruct (visit_action v) as [a|]; simpl.
  - intros Hin. apply elem_of_cons in Hin as [->|Hin].
    + apply list_elem_of_here.
    + apply list_elem_of_further. by apply IH.
  - intros Hin. apply list_elem_of_further. by apply IH.
Qed.

(** X21.  In a menu bar [fromJSONObjects] built, every menu item that has an
    action has an entry of enable rules: the traversal sets the rules of a
    descriptor before it looks for its "$action". *)
Theorem actions_have_enablers (stack : nat) (menuObj raw : Value) (mb : MenuBar) :
  fromJSONObjects stack menuObj raw = Ok mb ->
  dom (actions mb) ⊆ dom (enablers mb).
Proof.
  intros Hmb. destruct (fromJSONObjects_Ok stack menuObj raw mb Hmb) as (l & _ & -> & ->).
  intros k Hk. apply elem_of_dom in Hk. apply elem_of_dom.
  simpl in *.
  apply (lookup_assign_all_is_Some fst snd) in Hk as [Hk|Hk].
  - apply (lookup_assign_all_is_Some visit_id visit_rules). left.
    by apply action_assignment_visit.
  - rewrite lookup_empty in Hk. by destruct Hk.
Qed.

Lemma hasOwnProperty_true (v : Value) (k : string) :
  hasOwnProperty v k = Ok true ->
  exists ps x, v = VObj ps /\ assoc k ps = Some x /\ get v k = Ok x.
Proof.
  destruct v as [| | b | n | s | xs | ps]; simpl; try discriminate.
  intros [= Hk]. apply bool_decide_eq_true in Hk as [x Hx].
  exists ps, x. by rewrite Hx.
Qed.

Lemma fromJSONObjects_Ok_described (stack : nat) (menuObj raw : Value) (mb : MenuBar) :
  fromJSONObjects stack menuObj raw = Ok mb ->
  menu_described menuObj (id mb) (roots mb).
Proof.
  unfold fromJSONObjects, menu_described.
  destruct (hasOwnProperty menuObj "id") as [hasId | | |] eqn:Hid; bind_simpl;
    try discriminate.
  destruct (hasOwnProperty menuObj "menu") as [hasMenu | | |] eqn:Hmenu; bind_simpl;
    try discriminate.
  destruct hasId, hasMenu; simpl; try discriminate.
  apply hasOwnProperty_true in Hid as (ps & menuID & -> & Hid & ->).
  apply hasOwnProperty_true in Hmenu as (ps' & menu & [= <-] & Hmenu & ->).
  bind_simpl.
  destruct menu as [| | | | | rawMenus |]; try discriminate.
  destruct (map_result MenuItem_fromDescriptor rawMenus) as [rootItems | | |] eqn:Hroots;
    bind_simpl; try discriminate.
  destruct (_processMenuActions _ _ _ _) as [maps | | |]; bind_simpl; try discriminate.
  intros [= <-]. simpl. by exists ps, rawMenus.
Qed.

(** X22.  [fromJSONObjects] returns a menu bar only for a menu description with
    an "id" and an array "menu" whose elements [MenuItem.fromDescriptor]
    accepts, and a menu-actions tree the traversal can walk: no descriptor
    it reaches is [null] or [undefined] or has an "$enable-rule" that is
    not a string, and no path is longer than the stack is deep. *)
Theorem built_only_if_walkable (stack : nat) (menuObj raw : Value) (mb : MenuBar) :
  fromJSONObjects stack menuObj raw = Ok mb ->
  menu_described menuObj (id mb) (roots mb)
  /\ well_formed (S stack) raw.
Proof.
  intros Hmb. split; [by eapply fromJSONObjects_Ok_described|].
  destruct (fromJSONObjects_Ok stack menuObj raw mb Hmb) as (l & Hl & _).
  apply (well_formed_of_visits stack (S stack) raw l Hl). lia.
Qed.

Lemma visited_snoc (raw : Value) (path : list Key) (d : Value) :
  visited raw path d ->
  forall prop d',
    hasOwnProperty d "$action" = Ok false ->
    last path ≠ Some (KStr "$enable-rule") ->
    (prop, d') ∈ entries d ->
    visited raw (path ++ [prop]) d'.
Proof.
  induction 1 as [raw prop0 d Hin | raw prop0 d0 path d Hin Hno Hne Hbelow IH];
    intros prop d' Hact Hlast Hin'.
  - simpl. eapply visited_below; [done | done | | by apply visited_here].
    intros ->. by apply Hlast.
  - simpl. eapply visited_below; [done | done | done |].
    apply IH; [done | | done].
    intros Hl. apply Hlast. destruct path as [|x path]; [done|]. exact Hl.
Qed.

Lemma visited_characters (raw : Value) (c : ascii) (n : nat) :
  forall (path : list Key) (s : string),
    visited raw path (VStr (String c s)) ->
    last path ≠ Some (KStr "$enable-rule") ->
    exists path', visited raw path' (VStr (String c EmptyString))
                  /\ List.length path' = (List.length path + S n)%nat.
Proof.
  induction n as [|n IH]; intros path s Hvis Hlast.
  - exists (path ++ [KNum 0]). split.
    + apply (visited_snoc raw path _ Hvis); [done | done |]. apply list_elem_of_here.
    + rewrite length_app. simpl. lia.
  - destruct (IH (path ++ [KNum 0]) EmptyString) as (path' & Hvis' & Hlen).
    + apply (visited_snoc raw path _ Hvis); [done | done |]. apply list_elem_of_here.
    + rewrite last_snoc. discriminate.
    + exists path'. split; [done|]. rewrite Hlen, length_app. simpl. lia.
Qed.

(** X23.  A non-empty string left among the descriptors, under a property other
    than "$enable-rule", cannot be walked whatever the depth of the stack:
    the traversal goes into its characters, each of which is again a
    string, so [fromJSONObjects] never returns a menu bar. *)
Theorem string_property_never_built (stack : nat) (menuObj raw : Value)
    (path : list Key) (s : string) :
  visited raw path (VStr s) ->
  s ≠ "" ->
  last path ≠ Some (KStr "$enable-rule") ->
  ~ is_Ok (fromJSONObjects stack menuObj raw).
Proof.
  intros Hvis Hs Hlast Hok.
  destruct (fromJSONObjects stack menuObj raw) as [mb | | |] eqn:Hmb; try done.
  destruct (fromJSONObjects_Ok stack menuObj raw mb Hmb) as (l & Hl & _).
  destruct s as [|c s]; [done|].
  destruct (visited_characters raw c stack path s Hvis Hlast) as (path' & Hvis' & Hlen).
  destruct (visits_complete stack raw None l Hl path' _ Hvis') as [Hle _].
  lia.
Qed.

Lemma fromJSONObjects_Ok_rootMap (stack : nat) (menuObj raw : Value) (mb : MenuBar) :
  fromJSONObjects stack menuObj raw = Ok mb ->
  rootMap mb
  = fold_left (fun m rootItem => <[item_id rootItem := rootItem]> m) (roots mb) ∅.
Proof.
  unfold fromJSONObjects.
  destruct (hasOwnProperty menuObj "id") as [hasId | | |]; bind_simpl; try discriminate.
  destruct (hasOwnProperty menuObj "menu") as [hasMenu | | |]; bind_simpl;
    try discriminate.
  destruct (negb hasId || negb hasMenu); try discriminate.
  destruct (get menuObj "id") as [menuID | | |]; bind_simpl; try discriminate.
  destruct (get menuObj "menu") as [menu | | |]; bind_simpl; try discriminate.
  destruct menu as [| | | | | rawMenus |]; try discriminate.
  destruct (map_result MenuItem_fromDescriptor rawMenus) as [rootItems | | |];
    bind_simpl; try discriminate.
  destruct (_processMenuActions _ _ _ _) as [maps | | |]; bind_simpl; try discriminate.
  by intros [= <-].
Qed.

(** X24.  In a menu bar [fromJSONObjects] built, the map of roots answers for an
    ID the last root with that ID, so every root menu is found under its ID
    unless a later root has the same ID, and the map holds nothing but
    roots. *)
Theorem built_menu_indexed (stack : nat) (menuObj raw : Value) (mb : MenuBar) :
  fromJSONObjects stack menuObj raw = Ok mb ->
  indexed mb
  /\ forall k item, rootMap mb !! k = Some item -> item ∈ roots mb /\ item_id item = k.
Proof.
  intros Hmb. apply fromJSONObjects_Ok_rootMap in Hmb.
  assert (Hidx : indexed mb).
  { intros k. rewrite Hmb.
    rewrite (lookup_assign_all_last item_id (fun rootItem => rootItem)).
    rewrite lookup_empty. by destruct (last_with item_id k (roots mb)). }
  split; [done|]. intros k item Hk. rewrite Hidx in Hk.
  by apply (last_with_Some item_id) in Hk.
Qed.

(** *** Splitting and joining IDs *)

Lemma split_on_dot_free (s : string) :
  dot_free s = true -> split_on "."%char s = [s].
Proof.
  induction s as [|c s IH]; simpl; [done|].
  intros Hs. apply andb_true_iff in Hs as [Hc Hs].
  apply negb_true_iff, bool_decide_eq_false in Hc.
  rewrite decide_False by done. by rewrite IH.
Qed.

Lemma split_on_append (s t : string) :
  dot_free s = true ->
  split_on "."%char (s +:+ "." +:+ t) = s :: split_on "."%char t.
Proof.
  induction s as [|c s IH]; intros Hs.
  - reflexivity.
  - simpl in Hs. apply andb_true_iff in Hs as [Hc Hs].
    apply negb_true_iff, bool_decide_eq_false in Hc.
    change (String c s +:+ "." +:+ t) with (String c (s +:+ "." +:+ t)).
    simpl. rewrite decide_False by done. by rewrite IH.
Qed.

Lemma split_on_dot_join (x : string) (path : list string) :
  Forall (fun s => dot_free s = true) (x :: path) ->
  split_on "."%char (dot_join (x :: path)) = x :: path.
Proof.
  revert x. induction path as [|y path IH]; intros x Hall.
  - apply split_on_dot_free. by inversion Hall.
  - inversion Hall as [|? ? Hx Hrest]; subst.
    change (dot_join (x :: y :: path)) with (x +:+ "." +:+ dot_join (y :: path)).
    rewrite split_on_append by done. by rewrite IH.
Qed.

Lemma split_on_spec (s : string) :
  exists x l,
    split_on "."%char s = x :: l
    /\ Forall (fun s => dot_free s = true) (x :: l)
    /\ dot_join (x :: l) = s.
Proof.
  induction s as [|c s (x & l & Hsplit & Hall & Hjoin)].
  - exists EmptyString, []. repeat split. by repeat constructor.
  - simpl. destruct (decide (c = "."%char)) as [->|Hc].
    + exists EmptyString, (x :: l). rewrite Hsplit. split; [done|].
      split; [by constructor|].
      change (dot_join (EmptyString :: x :: l)) with (String "."%char (dot_join (x :: l))).
      by rewrite Hjoin.
    + exists (String c x), l. rewrite Hsplit. split; [done|]. split.
      * inversion Hall; subst. constructor; [|done]. simpl.
        rewrite bool_decide_eq_false_2 by done. done.
      * rewrite <- Hjoin. by destruct l.
Qed.


(** *** Lists: [findIndex], [set], [takeUntil] *)

Lemma findIndex_first {A : Type} (p : A -> bool) (l : list A) (x : A) :
  x ∈ l -> p x = true ->
  exists (i : nat) (y : A),
    findIndex p l = Z.of_nat i /\ l !! i = Some y /\ p y = true
    /\ forall j z, (j < i)%nat -> l !! j = Some z -> p z = false.
Proof.
  induction l as [|a l IH]; intros Hin Hp; [by apply elem_of_nil in Hin|].
  simpl. destruct (p a) eqn:Ha.
  - exists 0%nat, a. repeat split; [done|]. intros j z Hj. lia.
  - apply elem_of_cons in Hin as [->|Hin]; [congruence|].
    destruct (IH Hin Hp) as (i & y & Hi & Hy & Hpy & Hbefore).
    exists (S i), y. rewrite Hi.
    replace (Z.of_nat i <? 0) with false by (symmetry; apply Z.ltb_ge; lia).
    split; [lia|]. split; [done|]. split; [done|].
    intros [|j] z Hj Hz; simpl in Hz; [by injection Hz as <-|].
    apply (Hbefore j z); [lia | done].
Qed.

Lemma findIndex_none {A : Type} (p : A -> bool) (l : list A) :
  (forall x, x ∈ l -> p x = false) -> findIndex p l = -1.
Proof.
  induction l as [|a l IH]; intros Hall; [done|].
  simpl. rewrite (Hall a) by apply list_elem_of_here.
  rewrite IH; [done|]. intros x Hx. apply Hall. by apply list_elem_of_further.
Qed.

Lemma List_set_nat {A : Type} (i : nat) (x : A) (l : list A) :
  List_set (Z.of_nat i) x l = <[i := x]> l.
Proof.
  assert (Hge : (Z.of_nat i <? 0) = false) by (apply Z.ltb_ge; lia).
  unfold List_set. cbv zeta. rewrite Hge. cbv iota. rewrite Hge.
  by rewrite Nat2Z.id.
Qed.

Lemma takeUntil_false {A : Type} (p : A -> bool) (l : list A) (x : A) :
  x ∈ takeUntil p l -> p x = false.
Proof.
  induction l as [|a l IH]; simpl; [intros Hin; by apply elem_of_nil in Hin|].
  destruct (p a) eqn:Ha; [intros Hin; by apply elem_of_nil in Hin|].
  intros Hin. apply elem_of_cons in Hin as [->|Hin]; [done | by apply IH].
Qed.

Lemma takeUntil_app {A : Type} (p : A -> bool) (start rest : list A) :
  (forall x, x ∈ start -> p x = false) ->
  match rest with [] => True | y :: _ => p y = true end ->
  takeUntil p (start ++ rest) = start.
Proof.
  induction start as [|a start IH]; intros Hstart Hrest; simpl.
  - destruct rest as [|y rest]; [done|]. simpl. by rewrite Hrest.
  - rewrite (Hstart a) by apply list_elem_of_here.
    rewrite IH; [done | | done]. intros x Hx. apply Hstart. by apply list_elem_of_further.
Qed.

Lemma last_with_app {K A : Type} `{EqDecision K} (key : A -> K) (k : K)
    (l1 l2 : list A) :
  last_with key k (l1 ++ l2)
  = match last_with key k l2 with
    | Some y => Some y
    | None => last_with key k l1
    end.
Proof.
  induction l2 as [|x l2 IH] using rev_ind.
  - rewrite app_nil_r. reflexivity.
  - rewrite app_assoc, !last_with_snoc, IH.
    by destruct (decide (key x = k)).
Qed.

Lemma last_with_cons {K A : Type} `{EqDecision K} (key : A -> K) (k : K)
    (x : A) (l : list A) :
  last_with key k (x :: l)
  = match last_with key k l with
    | Some y => Some y
    | None => if decide (key x = k) then Some x else None
    end.
Proof. apply (last_with_app key k [x] l). Qed.

Lemma last_with_insert_other {K A : Type} `{EqDecision K} (key : A -> K) (k : K)
    (l : list A) (i : nat) (x y : A) :
  l !! i = Some x -> key x ≠ k -> key y ≠ k ->
  last_with key k (<[i := y]> l) = last_with key k l.
Proof.
  intros Hi Hx Hy.
  rewrite <- (take_drop_middle l i x Hi) at 2.
  rewrite (insert_take_drop l i y) by (by eapply lookup_lt_Some).
  rewrite !last_with_app, !last_with_cons.
  by rewrite !decide_False by done.
Qed.

Lemma last_with_insert_same {K A : Type} `{Countable K} (key : A -> K)
    (l : list A) (i : nat) (x y : A) :
  l !! i = Some x -> NoDup (map key l) -> key y = key x ->
  last_with key (key x) (<[i := y]> l) = Some y.
Proof.
  intros Hi Hnd Hy.
  rewrite <- (take_drop_middle l i x Hi) in Hnd.
  rewrite map_app in Hnd. simpl in Hnd.
  apply NoDup_app in Hnd as (_ & _ & Hnd). apply NoDup_cons in Hnd as [Hx _].
  rewrite (insert_take_drop l i y) by (by eapply lookup_lt_Some).
  rewrite last_with_app, last_with_cons.
  apply (last_with_None key) in Hx. rewrite Hx.
  by rewrite decide_True.
Qed.

(** X26.  [updateOpenDocuments] keeps the map of roots in step with the roots:
    when the roots have distinct IDs, the map answers the last root of each
    ID, and merging a submenu into an item keeps its ID, the same holds of
    the menu bar it returns, whose roots have the same IDs in the same
    order, and of which only the WINDOW root changed. *)
Theorem open_documents_keep_index (mb : MenuBar) (documents : list (Z * Document))
    (currentDocument : option Document) (windowMenu : MenuItem) :
  (forall m s, item_id (merge_submenu m s) = item_id m) ->
  NoDup (map item_id (roots mb)) ->
  indexed mb ->
  rootMap mb !! "WINDOW" = Some windowMenu ->
  exists mb',
    updateOpenDocuments mb documents currentDocument = Ok mb'
    /\ indexed mb'
    /\ map item_id (roots mb') = map item_id (roots mb)
    /\ forall i r,
         roots mb !! i = Some r -> item_id r ≠ "WINDOW" -> roots mb' !! i = Some r.
Proof.
  intros Hlaw Hnd Hidx Hw.
  unfold updateOpenDocuments. rewrite OpenDocumentsFacts.getMenuItem_root, Hw.
  eexists. split; [reflexivity|]. simpl.
  pose proof Hw as Hlast. rewrite Hidx in Hlast.
  apply (last_with_Some item_id) in Hlast as [Hin Hid].
  destruct (findIndex_first (fun root => bool_decide (item_id root = "WINDOW"))
              (roots mb) windowMenu Hin)
    as (i & y & Hfind & Hy & Hpy & _); [by apply bool_decide_eq_true|].
  apply bool_decide_eq_true in Hpy.
  rewrite Hfind, List_set_nat.
  set (new := merge_submenu windowMenu _).
  assert (Hnew : item_id new = item_id y) by (unfold new; by rewrite Hlaw, Hid, Hpy).
  split; [|split].
  - intros k. simpl. destruct (decide (k = "WINDOW")) as [->|Hk].
    + rewrite lookup_insert_eq. rewrite <- Hpy.
      by rewrite (last_with_insert_same item_id (roots mb) i y new).
    + rewrite lookup_insert_ne by done. rewrite Hidx.
      rewrite (last_with_insert_other item_id k (roots mb) i y new); [done | done | |].
      * by rewrite Hpy.
      * by rewrite Hnew, Hpy.
  - change (map ?f ?l) with (f <$> l). rewrite list_fmap_insert.
    apply list_insert_id. by rewrite list_lookup_fmap, Hy, Hnew.
  - intros j r Hj Hr. rewrite list_lookup_insert_ne; [done|].
    intros <-. rewrite Hy in Hj. injection Hj as <-. done.
Qed.

(** X27.  The open-document items are replaced, not accumulated: when a new item
    carries the ID of its descriptor and a merged submenu is the submenu of
    the result, a second [updateOpenDocuments] leaves in the WINDOW menu
    the items that preceded the open-document entries at the start,
    followed by the items of the second call only. *)
Theorem open_documents_replaced (mb mb1 : MenuBar)
    (documents1 documents2 : list (Z * Document))
    (currentDocument1 currentDocument2 : option Document) (windowMenu : MenuItem) :
  (forall d, item_id (MenuItem_new d) = ItemDescriptor.id d) ->
  (forall m s, submenu (merge_submenu m s) = s) ->
  rootMap mb !! "WINDOW" = Some windowMenu ->
  updateOpenDocuments mb documents1 currentDocument1 = Ok mb1 ->
  exists mb2 windowMenu2,
    updateOpenDocuments mb1 documents2 currentDocument2 = Ok mb2
    /\ rootMap mb2 !! "WINDOW" = Some windowMenu2
    /\ submenu windowMenu2
       = takeUntil (fun item => String.prefix "WINDOW.OPEN_DOCUMENT." (item_id item))
                   (submenu windowMenu)
         ++ imap (fun index document =>
                    MenuItem_new (openDocumentDescriptor currentDocument2 index document))
                 (map snd documents2).
Proof.
  intros Hnew Hsub Hw Hmb1.
  unfold updateOpenDocuments in Hmb1.
  rewrite OpenDocumentsFacts.getMenuItem_root, Hw in Hmb1. injection Hmb1 as <-.
  unfold updateOpenDocuments at 1. rewrite OpenDocumentsFacts.getMenuItem_root.
  simpl rootMap. rewrite lookup_insert_eq.
  eexists _, _. split; [reflexivity|]. simpl rootMap. rewrite lookup_insert_eq.
  split; [reflexivity|].
  rewrite !Hsub. f_equal.
  apply takeUntil_app.
  - intros x Hx. by apply takeUntil_false in Hx.
  - destruct (map snd documents1) as [|document rest]; [done|].
    simpl. rewrite Hnew. reflexivity.
Qed.

End Facts.

Section RuleFacts.
Context {L : Type} `{EqDecision L} (isBackground : L -> bool).

(** X28.  The rule results [_buildRuleResults] computes: "always" holds; a rule
    about layers holds only when there is a document; three or more
    selected layers are also two or more and not exactly two, and exactly
    two are two or more; with a document that has layers but no selected
    layer, "no-background" and "no-nesting" hold; and "multiple-documents"
    counts the open documents only. *)
Theorem rule_results_consistent (openDocuments : list (Z * DocumentModel))
    (document : option DocumentModel) :
  let rules := _buildRuleResults isBackground openDocuments document in
  holds rules "always" = true
  /\ (forall rule,
        rule ∈ ["layer-selected"; "layers-selected-2"; "layers-selected-2+";
                "layers-selected-3+"; "no-background"; "no-nesting"] ->
        holds rules rule = true ->
        holds rules "have-document" = true)
  /\ (holds rules "layers-selected-3+" = true ->
      holds rules "layers-selected-2+" = true
      /\ holds rules "layers-selected-2" = false)
  /\ (holds rules "layers-selected-2" = true ->
      holds rules "layers-selected-2+" = true)
  /\ (with_layers document (fun _ => true) = true ->
      holds rules "layer-selected" = false ->
      holds rules "no-background" = true /\ holds rules "no-nesting" = true)
  /\ (holds rules "multiple-documents" = true <-> (1 < List.length openDocuments)%nat).
Proof.
  intros rules. subst rules. unfold holds, _buildRuleResults. simpl.
  split; [done|]. split; [|split; [|split; [|split]]].
  - intros rule Hin. destruct document as [document|]; [done|].
    repeat (apply elem_of_cons in Hin as [->|Hin]; [simpl; done|]).
    by apply elem_of_nil in Hin.
  - unfold with_layers. destruct document as [[[lyrs|]]|]; try done.
    intros Hlt. apply Nat.ltb_lt in Hlt. split.
    + apply Nat.ltb_lt. lia.
    + apply Nat.eqb_neq. lia.
  - unfold with_layers. destruct document as [[[lyrs|]]|]; try done.
    intros Heq. apply Nat.eqb_eq in Heq. apply Nat.ltb_lt. lia.
  - unfold with_layers. destruct document as [[[lyrs|]]|]; try done.
    intros _ Hsel. apply negb_false_iff, Nat.eqb_eq in Hsel.
    apply nil_length_inv in Hsel. simpl. rewrite Hsel. by split.
  - apply Nat.ltb_lt.
Qed.

End RuleFacts.

#[local] Existing Instance sample_collaborators.

Lemma actions_have_enablers_witness :
  exists mb : MenuBar,
    fromJSONObjects 3 sample_menu sample_actions = Ok mb
    /\ dom (actions mb) ⊆ dom (enablers mb).
Proof.
  eexists. split; [reflexivity|].
  apply (actions_have_enablers 3 sample_menu sample_actions). reflexivity.
Defined.

Lemma built_only_if_walkable_witness :
  exists mb : MenuBar,
    fromJSONObjects 3 sample_menu sample_actions = Ok mb
    /\ menu_described sample_menu (id mb) (roots mb)
    /\ well_formed 4 sample_actions.
Proof.
  eexists. split; [reflexivity|].
  apply (built_only_if_walkable 3 sample_menu sample_actions). reflexivity.
Defined.

Lemma string_property_never_built_witness :
  ~ is_Ok (fromJSONObjects 5 sample_menu labelled_actions).
Proof.
  apply (string_property_never_built 5 sample_menu labelled_actions
           [KStr "FILE"; KStr "label"] "File").
  - eapply visited_below.
    + apply list_elem_of_here.
    + reflexivity.
    + discriminate.
    + apply visited_here. apply list_elem_of_here.
  - discriminate.
  - simpl. discriminate.
Defined.

Lemma built_menu_indexed_witness :
  exists mb : MenuBar,
    fromJSONObjects 3 sample_menu sample_actions = Ok mb
    /\ indexed mb
    /\ forall k item, rootMap mb !! k = Some item -> item ∈ roots mb /\ item_id item = k.
Proof.
  eexists. split; [reflexivity|].
  apply (built_menu_indexed 3 sample_menu sample_actions). reflexivity.
Defined.

Lemma sample_indexed : indexed sample_indexed_menubar.
Proof.
  intros k.
  etrans; [exact (lookup_assign_all_last item_id (fun rootItem => rootItem)
                    sample_roots ∅ k)|].
  rewrite lookup_empty.
  change (roots sample_indexed_menubar) with sample_roots.
  by destruct (last_with item_id k sample_roots).
Qed.

Lemma open_documents_keep_index_witness :
  exists mb' : MenuBar,
    updateOpenDocuments sample_indexed_menubar [(3, "a.psd"); (7, "b.psd")]
      (Some "b.psd") = Ok mb'
    /\ indexed mb'
    /\ map item_id (roots mb') = map item_id (roots sample_indexed_menubar)
    /\ forall i r,
         roots sample_indexed_menubar !! i = Some r -> item_id r ≠ "WINDOW" ->
         roots mb' !! i = Some r.
Proof.
  apply (open_documents_keep_index sample_indexed_menubar
           [(3, "a.psd"); (7, "b.psd")] (Some "b.psd") sample_window).
  - intros [sid d sub] s. reflexivity.
  - simpl. apply NoDup_cons. split; [|apply NoDup_singleton].
    intros Hin. apply list_elem_of_singleton in Hin. discriminate.
  - exact sample_indexed.
  - reflexivity.
Defined.

Lemma open_documents_replaced_witness :
  exists mb1 mb2 windowMenu2 : _,
    updateOpenDocuments sample_menubar [(3, "a.psd"); (7, "b.psd")] (Some "b.psd")
    = Ok mb1
    /\ updateOpenDocuments mb1 [(7, "b.psd")] None = Ok mb2
    /\ rootMap mb2 !! "WINDOW" = Some windowMenu2
    /\ List.length (submenu windowMenu2) = 2%nat.
Proof.
  assert (exists mb1,
             updateOpenDocuments sample_menubar [(3, "a.psd"); (7, "b.psd")]
               (Some "b.psd") = Ok mb1) as [mb1 Hmb1]
    by (eexists; reflexivity).
  destruct (open_documents_replaced sample_menubar mb1
              [(3, "a.psd"); (7, "b.psd")] [(7, "b.psd")] (Some "b.psd") None
              sample_window)
    as (mb2 & windowMenu2 & Hmb2 & Hw2 & Hsub).
  - intros d. reflexivity.
  - intros [sid d sub] s. reflexivity.
  - reflexivity.
  - exact Hmb1.
  - exists mb1, mb2, windowMenu2. split; [exact Hmb1|]. split; [exact Hmb2|].
    split; [exact Hw2|]. rewrite Hsub. reflexivity.
Defined.

End MenuBarMoreFacts.

(* ===================================================================== *)
(** ** Theorems: the ellipse tool *)
(* ===================================================================== *)

Module EllipseToolFacts.
Import EllipseTool.

Section Facts.
Context (SHAPE : string) (ESCAPE DELETE BACKSPACE : Z).

Local Abbreviation handler := (onKeyDown SHAPE ESCAPE DELETE BACKSPACE).

Ltac split_handler detail getVectorMode :=
  unfold onKeyDown;
  destruct (bool_decide_reflect (keyChar detail = Some SHAPE));
  [destruct (modifiers detail) as [[[|]]|]|];
  unfold mbind, result_bind; cbn [shift app];
  repeat match goal with
         | |- context [ getVectorMode ?l ] => destruct (getVectorMode l) eqn:?
         end;
  destruct (bool_decide_reflect (keyCode detail = Some ESCAPE));
  destruct (bool_decide_reflect (keyCode detail = Some DELETE));
  destruct (bool_decide_reflect (keyCode detail = Some BACKSPACE));
  cbn [andb orb app];
  repeat match goal with
         | |- context [ getVectorMode ?l ] => destruct (getVectorMode l) eqn:?
         end;
  cbn [andb orb app].

Ltac settle_member :=
  repeat match goal with
         | H : _ ∈ [] |- _ => by apply elem_of_nil in H
         | H : _ ∈ _ :: _ |- _ => apply elem_of_cons in H as [H | H]; try discriminate H
         end.

Ltac split_select :=
  split;
  [ intros Hin; settle_member; try done; (split; [done | by eexists])
  | intros [Hc (m & Hm & Hs)]; try done;
    try (injection Hm as <-; done); try apply list_elem_of_here ].

Ltac split_masks :=
  intros [Hin1 Hin2]; settle_member.

Ltac split_off getVectorMode :=
  intros Hoff;
  repeat match goal with
         | H : getVectorMode _ = true |- _ => rewrite Hoff in H; discriminate H
         end;
  auto.

(** X30.  The key-down handler of the ellipse tool throws exactly when the
    key character is the shape shortcut and the event carries no
    modifiers, before it has called anything.  Otherwise it selects the
    rectangle tool exactly on the shape shortcut with shift, and, the key
    code of ESCAPE being neither that of DELETE nor that of BACKSPACE, it
    calls at most one of the two vector mask actions, so at most two
    actions in all.  While the store answers that vector mask mode is off,
    the selection is all it ever calls. *)
Theorem key_down_actions (getVectorMode : list ToolAction -> bool)
    (detail : Detail) :
  ESCAPE ≠ DELETE -> ESCAPE ≠ BACKSPACE ->
  (handler getVectorMode detail = TypeError
   <-> keyChar detail = Some SHAPE /\ modifiers detail = None)
  /\ forall called,
       handler getVectorMode detail = Ok called ->
       (tools_select "rectangle" ∈ called
        <-> keyChar detail = Some SHAPE
            /\ exists m, modifiers detail = Some m /\ shift m = true)
       /\ (List.length called <= 2)%nat
       /\ ~ (tools_changeVectorMaskMode false ∈ called
             /\ mask_handleDeleteVectorMask ∈ called)
       /\ ((forall l, getVectorMode l = false) ->
           called = [] \/ called = [tools_select "rectangle"]).
Proof.
  intros Hdelete Hbackspace. split.
  - split_handler detail getVectorMode; split; try discriminate;
      try (by intros [? ?]); try done.
  - intros called.
    split_handler detail getVectorMode; try discriminate;
      intros [= <-]; try congruence;
      (split; [split_select | split; [simpl; lia | split; [split_masks | split_off getVectorMode]]]).
Qed.

End Facts.

Lemma key_down_actions_witness :
  onKeyDown "u" 27 46 8 until_changed
    {| keyChar := Some "u"; keyCode := Some 27;
       modifiers := Some {| shift := true |} |}
  = Ok [tools_select "rectangle"; tools_changeVectorMaskMode false]
  /\ forall called,
       onKeyDown "u" 27 46 8 until_changed
         {| keyChar := Some "u"; keyCode := Some 27;
            modifiers := Some {| shift := true |} |} = Ok called ->
       (List.length called <= 2)%nat.
Proof.
  split; [reflexivity |]. intros called Hcalled.
  destruct (key_down_actions "u" 27 46 8 until_changed
              {| keyChar := Some "u"; keyCode := Some 27;
                 modifiers := Some {| shift := true |} |})
    as [_ Hok]; [discriminate | discriminate |].
  by destruct (Hok called Hcalled) as (_ & Hlen & _).
Defined.

End EllipseToolFacts.
